(** * G-code cross-section tools: parser, layer grouping, rasterizer, validator

    A shallow embedding of [validate_gcode_geometry.py] and
    [visualize_gcode_cli.py], with the window of [ascii_plot_2d] of
    [analyze_stl_views.py].

    Conventions of the model.
    - A Python [str] is a [string]; its characters are [ascii].
    - A Python [float] is modelled by the rational it denotes ([Q]).
      [float(tok)] yields the binary64 number nearest to the decimal
      literal ([Float.b64]).  The operations that place a point in a grid
      cell, widen a window, select the points of a layer, measure the
      bounding box or the distance to a requested height round each
      result to binary64 ([Float.fadd], [Float.fsub], [Float.fmul],
      [Float.fdiv]), as the sources' operations do.  The tests on
      [np.sqrt], the abscissas of the reference circle and the angular
      gaps are computed on the exact values.  Infinities and NaN have no
      counterpart: a computation that overflows binary64 or divides by
      zero is outside the model.
    - An exception that leaves a function is the [Raise] outcome of
      [result]; the text file is the list of its lines. *)

From Stdlib Require Import QArith Qcanon Qround Qabs Qpower Lqa Lia ZArith Ascii String Bool.
From Stdlib Require Import Sorting.Sorted Sorting.Permutation.
From Stdlib Require Import Reals Qreals Psatz.
From stdpp Require Import base option list gmap strings.

Local Open Scope Z_scope.
Local Open Scope Q_scope.
Local Open Scope string_scope.
Local Open Scope list_scope.

(** ** Exceptions *)

Inductive exn : Type :=
| ValueError (msg : string)   (* float() on a token that is no number;
                                 a reduction of an empty array *)
| IndexError                   (* a list index out of range *)
| ZeroDivisionError.           (* [/] of Python numbers by zero *)

Inductive result (A : Type) : Type :=
| Ok (a : A)
| Raise (e : exn).
Arguments Ok {A} a.
Arguments Raise {A} e.

#[global] Instance result_ret : MRet result := fun _ a => Ok a.
#[global] Instance result_bind : MBind result := fun _ _ k r =>
  match r with
  | Ok a => k a
  | Raise e => Raise e
  end.

Definition is_ok {A : Type} (r : result A) : bool :=
  match r with Ok _ => true | Raise _ => false end.

(** [for a in l: st = body(st, a)], stopping at the first exception. *)
Fixpoint for_each {S A : Type} (body : S -> A -> result S) (st : S) (l : list A)
  : result S :=
  match l with
  | [] => Ok st
  | a :: rest => st' ← body st a; for_each body st' rest
  end.

(** ** Numbers *)

(** [int(x)] on a float: truncation toward zero. *)
Definition py_int (q : Q) : Z := Z.quot (Qnum q) (Zpos (Qden q)).

(** [a / b] on Python numbers. *)
Definition py_div (a b : Q) : result Q :=
  if Qeq_bool b 0 then Raise ZeroDivisionError else Ok (a / b).

(** Comparisons with [np.sqrt(s)], [s] a sum of squares: the root is not
    rational, so the two tests the sources make on it are decided on the
    squares.  [sqrt_gt s c] is [np.sqrt(s) > c], [sqrt_lt s c] is
    [np.sqrt(s) < c]. *)
Definition sqrt_gt (s c : Q) : bool :=
  if Qle_bool 0 c then negb (Qle_bool s (c * c)) else true.

Definition sqrt_lt (s c : Q) : bool :=
  if Qle_bool c 0 then false else negb (Qle_bool (c * c) s).

Definition Qltb (a b : Q) : bool := negb (Qle_bool b a).

(** [round(x)] of Python on an exact value: to the nearest integer, a tie
    to the even one. *)
Definition round_half_even (q : Q) : Z :=
  let f := Qfloor q in
  match Qcompare (q - inject_Z f) (1 # 2) with
  | Lt => f
  | Gt => (f + 1)%Z
  | Eq => if Z.even f then f else (f + 1)%Z
  end.

(** ** Binary64 arithmetic

    Python's [float] and numpy's [float64] are IEEE 754 binary64 numbers:
    every operation returns the number nearest to the exact result, a tie
    going to the even significand. *)

Module Float.

(** [floor(log2(q))] of a positive rational. *)
Definition Qlog2 (q : Q) : Z :=
  let e := (Z.log2 (Qnum q) - Z.log2 (Zpos (Qden q)))%Z in
  if Qle_bool (2 ^ e) q then e else (e - 1)%Z.

(** The exponent of the unit in the last place of the binary64 numbers
    around [q]: 53 significant bits, and the fixed spacing [2^-1074] of
    the subnormal numbers. *)
Definition ulp_exp (q : Q) : Z := Z.max (Qlog2 (Qabs q) - 52) (-1074).

(** The binary64 number nearest to [q], a tie going to the even
    significand. *)
Definition b64 (q : Q) : Q :=
  if Qeq_bool q 0 then 0
  else Qred (inject_Z (round_half_even (q / 2 ^ ulp_exp q)) * 2 ^ ulp_exp q).

(** [a + b], [a - b], [a * b] and [a / b] on floats. *)
Definition fadd (a b : Q) : Q := b64 (a + b).
Definition fsub (a b : Q) : Q := b64 (a - b).
Definition fmul (a b : Q) : Q := b64 (a * b).
Definition fdiv (a b : Q) : Q := b64 (a / b).

End Float.

(** ** Text primitives of Python used by the parsers *)

Module Text.

(** Whitespace removed by [str.strip()] (the ASCII part of it). *)
Definition is_space (c : ascii) : bool :=
  let n := nat_of_ascii c in
  ((9 <=? n)%nat && (n <=? 13)%nat) || ((28 <=? n)%nat && (n <=? 32)%nat).

Fixpoint lstrip (s : string) : string :=
  match s with
  | EmptyString => EmptyString
  | String c s' => if is_space c then lstrip s' else s
  end.

Fixpoint rstrip (s : string) : string :=
  match s with
  | EmptyString => EmptyString
  | String c s' =>
      match rstrip s' with
      | EmptyString => if is_space c then EmptyString else String c EmptyString
      | t => String c t
      end
  end.

(** [s.strip()] *)
Definition strip (s : string) : string := rstrip (lstrip s).

(** [s.split(sep)[0]]: the text before the first [sep]. *)
Fixpoint split_head (sep : ascii) (s : string) : string :=
  match s with
  | EmptyString => EmptyString
  | String c s' => if Ascii.eqb c sep then EmptyString else String c (split_head sep s')
  end.

(** [s.startswith(p)] *)
Fixpoint startswith (p s : string) : bool :=
  match p, s with
  | EmptyString, _ => true
  | String _ _, EmptyString => false
  | String a p', String b s' => Ascii.eqb a b && startswith p' s'
  end.

(** [c in s] for a one-character [c]. *)
Fixpoint contains (c : ascii) (s : string) : bool :=
  match s with
  | EmptyString => false
  | String d s' => Ascii.eqb c d || contains c s'
  end.

Definition is_digit (c : ascii) : bool :=
  let n := nat_of_ascii c in (48 <=? n)%nat && (n <=? 57)%nat.

(** The character class [[-\d.]]. *)
Definition coord_char (c : ascii) : bool :=
  is_digit c || Ascii.eqb c "-" || Ascii.eqb c ".".

(** The longest prefix made of [[-\d.]] characters (the greedy [+]). *)
Fixpoint take_run (s : string) : string :=
  match s with
  | EmptyString => EmptyString
  | String c s' => if coord_char c then String c (take_run s') else EmptyString
  end.

(** [re.search(letter + r'([-\d.]+)', s)]: group 1 of the leftmost match,
    [None] when the pattern occurs nowhere. *)
Fixpoint re_search (letter : ascii) (s : string) : option string :=
  match s with
  | EmptyString => None
  | String c s' =>
      if Ascii.eqb c letter then
        match take_run s' with
        | EmptyString => re_search letter s'
        | tok => Some tok
        end
      else re_search letter s'
  end.

Definition all_digits (s : string) : bool :=
  forallb is_digit (list_ascii_of_string s).

Definition digit_val (c : ascii) : Z := Z.of_nat (nat_of_ascii c) - 48.

(** Value of a digit string read in base ten. *)
Definition digits_val (s : string) : Z :=
  fold_left (fun acc c => 10 * acc + digit_val c)%Z (list_ascii_of_string s) 0%Z.

(** The text after the first [sep], when there is one. *)
Fixpoint split_tail (sep : ascii) (s : string) : option string :=
  match s with
  | EmptyString => None
  | String c s' => if Ascii.eqb c sep then Some s' else split_tail sep s'
  end.

(** [float(tok)] on a token over [[-\d.]]: Python accepts an optional
    sign, then digits with at most one point and at least one digit, and
    raises [ValueError] on everything else.  The value is the binary64
    number nearest to the decimal. *)
Definition py_float (tok : string) : result Q :=
  let '(neg, body) :=
    match tok with
    | String "-" rest => (true, rest)
    | _ => (false, tok)
    end in
  let ip := split_head "." body in
  let fp := match split_tail "." body with Some f => f | None => EmptyString end in
  if all_digits ip && all_digits fp
     && negb (Nat.eqb (String.length ip + String.length fp) 0) then
    let m := (digits_val ip * 10 ^ Z.of_nat (String.length fp) + digits_val fp)%Z in
    let v := Float.b64 (Qmake m (Z.to_pos (10 ^ Z.of_nat (String.length fp)))) in
    Ok (if neg then Qred (- v) else v)
  else Raise (ValueError tok).

End Text.

(** ** The motion-stream parsers *)

Module Parser.

(** [current_pos = {'X': 0, 'Y': 0, 'Z': 0}] *)
Record current_pos : Type := mkPos { pos_X : Q; pos_Y : Q; pos_Z : Q }.

Definition initial_pos : current_pos := mkPos 0 0 0.

(** A recorded position, the tuple [(X, Y, Z)]. *)
Definition position : Type := (Q * Q * Q)%type.

Definition snapshot (cur : current_pos) : position :=
  (pos_X cur, pos_Y cur, pos_Z cur).

(** [line = line.strip().split(';')[0]] *)
Definition clean (raw : string) : string :=
  Text.split_head ";" (Text.strip raw).

(** [line.startswith('G0') or line.startswith('G1')] *)
Definition is_positioning (line : string) : bool :=
  Text.startswith "G0" line || Text.startswith "G1" line.

(** [if m: current_pos[k] = float(m.group(1))] for one ordinate: the new
    value of the field, or the exception of [float]. *)
Definition ordinate (m : option string) (old : Q) : result Q :=
  match m with
  | Some tok => Text.py_float tok
  | None => Ok old
  end.

(** The body of [if line.startswith('G0') or line.startswith('G1')], the
    same in both parsers: the three searches, then the three guarded
    assignments in the order X, Y, Z. *)
Definition update_pos (line : string) (cur : current_pos) : result current_pos :=
  let x_match := Text.re_search "X" line in
  let y_match := Text.re_search "Y" line in
  let z_match := Text.re_search "Z" line in
  x ← ordinate x_match (pos_X cur);
  y ← ordinate y_match (pos_Y cur);
  z ← ordinate z_match (pos_Z cur);
  Ok (mkPos x y z).

(** [line.startswith('G1') and 'E' in line] *)
Definition is_extrusion (line : string) : bool :=
  Text.startswith "G1" line && Text.contains "E" line.

(** One iteration of the loop of [parse_gcode_detailed] over the state
    [(current_pos, positions)]. *)
Definition step_detailed (st : current_pos * list position) (raw : string)
  : result (current_pos * list position) :=
  let '(cur, positions) := st in
  let line := clean raw in
  if String.eqb line "" then Ok st
  else
    cur' ← (if is_positioning line then update_pos line cur else Ok cur);
    Ok (cur', if is_extrusion line then positions ++ [snapshot cur'] else positions).

(** [parse_gcode_detailed] of validate_gcode_geometry.py, on the lines of
    the file. *)
Definition parse_gcode_detailed (lines : list string) : result (list position) :=
  st ← for_each step_detailed (initial_pos, []) lines; Ok st.2.

End Parser.

(** ** Layer grouping: [parse_gcode] of visualize_gcode_cli.py *)

Module Layers.
Import Parser.

(** [round(z, 1)]; the key of a layer.  Python rounds the exact value of
    the float [z] to the nearest multiple of 0.1, a tie to the even one,
    and returns the float nearest to that multiple, which the multiple
    itself stands for here.  Keys are compared by value, as Python
    compares floats, hence canonical rationals. *)
Definition round1 (z : Q) : Qc := Q2Qc (inject_Z (round_half_even (z * 10)) / 10).

(** [defaultdict(list)]: a missing key reads as the empty list. *)
Definition bucket (layers : gmap Qc (list (Q * Q))) (k : Qc) : list (Q * Q) :=
  default [] (layers !! k).

(** [positions_by_layer[z_key].append(p)] *)
Definition append_to (layers : gmap Qc (list (Q * Q))) (k : Qc) (p : Q * Q)
  : gmap Qc (list (Q * Q)) :=
  <[k := bucket layers k ++ [p]]> layers.

(** One iteration of the loop of [parse_gcode]. *)
Definition step_layers (st : current_pos * gmap Qc (list (Q * Q))) (raw : string)
  : result (current_pos * gmap Qc (list (Q * Q))) :=
  let '(cur, layers) := st in
  let line := clean raw in
  if String.eqb line "" then Ok st
  else if is_positioning line then
    cur' ← update_pos line cur;
    let z_key := round1 (pos_Z cur') in
    Ok (cur', if Text.startswith "G1" line
              then append_to layers z_key (pos_X cur', pos_Y cur')
              else layers)
  else Ok st.

Definition parse_gcode (lines : list string) : result (gmap Qc (list (Q * Q))) :=
  st ← for_each step_layers (initial_pos, ∅) lines; Ok st.2.

(** The positions [parse_gcode] files, in the order it files them and with
    their Z kept: its loop with a list in place of the dictionary. *)
Definition step_recorded (st : current_pos * list position) (raw : string)
  : result (current_pos * list position) :=
  let '(cur, positions) := st in
  let line := clean raw in
  if String.eqb line "" then Ok st
  else if is_positioning line then
    cur' ← update_pos line cur;
    Ok (cur', if Text.startswith "G1" line
              then positions ++ [snapshot cur']
              else positions)
  else Ok st.

Definition recorded_positions (lines : list string) : result (list position) :=
  st ← for_each step_recorded (initial_pos, []) lines; Ok st.2.

(** The grouping on its own: what [parse_gcode] does with the positions
    it records, in the order it records them. *)
Definition group_by_layer (positions : list position) : gmap Qc (list (Q * Q)) :=
  fold_left (fun layers '(x, y, z) => append_to layers (round1 z) (x, y)) positions ∅.

(** [sum(len(layer) for layer in layers.values())] *)
Definition total_points (layers : gmap Qc (list (Q * Q))) : nat :=
  map_fold (fun _ pts n => (length pts + n)%nat) 0%nat layers.

End Layers.

(** ** The character grid and the two rasterizers *)

Module Raster.

(** The characters a grid cell can hold. *)
Inductive glyph : Type :=
| Blank      (* ' ' *)
| Dot        (* the reference circle *)
| Block      (* a data point *)
| OutMark    (* 'X', a data point outside the cylinder *)
| VBar       (* vertical axis *)
| HBar       (* horizontal axis *)
| Cross.     (* the crossing of the axes *)

#[global] Instance glyph_eq_dec : EqDecision glyph.
Proof. solve_decision. Defined.

Definition is_data (v : glyph) : bool :=
  match v with Block | OutMark => true | _ => false end.

(** [[[' ' for _ in range(width)] for _ in range(height)]] *)
Definition blank_grid (width height : nat) : list (list glyph) :=
  replicate height (replicate width Blank).

(** [grid[r][c]] with indices that are not negative. *)
Definition grid_get (g : list (list glyph)) (r c : nat) : result glyph :=
  match g !! r with
  | Some row => match row !! c with Some v => Ok v | None => Raise IndexError end
  | None => Raise IndexError
  end.

(** [grid[r][c] = v] with indices that are not negative. *)
Definition grid_set (g : list (list glyph)) (r c : nat) (v : glyph)
  : result (list (list glyph)) :=
  match g !! r with
  | Some row =>
      if decide (c < length row)%nat then Ok (<[r := <[c := v]> row]> g)
      else Raise IndexError
  | None => Raise IndexError
  end.

(** A grid of [height] rows of [width] cells each. *)
Definition grid_shape (width height : nat) (g : list (list glyph)) : Prop :=
  length g = height /\ Forall (fun row : list glyph => length row = width) g.

(** What a guarded axis assignment leaves in a cell that showed [v]. *)
Definition overwrite (overwritable : glyph -> bool) (axis v : glyph) : glyph :=
  if overwritable v then axis else v.

(** [0 <= grid_x < width and 0 <= grid_y < height] *)
Definition in_grid (width height : nat) (grid_x grid_y : Z) : bool :=
  (0 <=? grid_x)%Z && (grid_x <? Z.of_nat width)%Z
  && (0 <=? grid_y)%Z && (grid_y <? Z.of_nat height)%Z.

(** The axes block shared by both rasterizers: the column [zero_x] top to
    bottom, then the row [zero_y] left to right, each cell only where
    [overwritable] holds of what it shows, then the crossing without a
    test. *)
Definition axis_cell (overwritable : glyph -> bool) (axis : glyph) (r c : nat)
    (g : list (list glyph)) : result (list (list glyph)) :=
  v ← grid_get g r c;
  if overwritable v then grid_set g r c axis else Ok g.

Definition draw_axes (overwritable : glyph -> bool) (zero_x zero_y width height : nat)
    (g : list (list glyph)) : result (list (list glyph)) :=
  g1 ← for_each (fun g i => axis_cell overwritable VBar i zero_x g) g (seq 0 height);
  g2 ← for_each (fun g j => axis_cell overwritable HBar zero_y j g) g1 (seq 0 width);
  grid_set g2 zero_y zero_x Cross.

(** *** [plot_cross_section] of validate_gcode_geometry.py *)

Definition extent : Q := 8.
Definition min_x : Q := - extent.
Definition max_x : Q := extent.
Definition min_y : Q := - extent.
Definition max_y : Q := extent.

(** [np.abs(positions[:, 2] - z_target) < tolerance], the subtraction a
    float operation, then the X and Y columns of the rows kept. *)
Definition layer_points (positions : list Parser.position) (z_target tolerance : Q)
  : list (Q * Q) :=
  map (fun p : Parser.position => (p.1.1, p.1.2))
      (List.filter (fun p : Parser.position => Qltb (Qabs (Float.fsub p.2 z_target)) tolerance)
                   positions).

(** The body of the reference-circle loop at column [i], row [j]. *)
Definition circle_cell (width height : nat) (i j : nat) (g : list (list glyph))
  : result (list (list glyph)) :=
  fx ← py_div (inject_Z (Z.of_nat i)) (inject_Z (Z.of_nat width - 1));
  let x := min_x + fx * (max_x - min_x) in
  fy ← py_div (inject_Z (Z.of_nat j)) (inject_Z (Z.of_nat height - 1));
  let y := max_y - fy * (max_y - min_y) in
  let r2 := x * x + y * y in
  if sqrt_gt r2 (58 # 10) && sqrt_lt r2 (62 # 10) then grid_set g j i Dot else Ok g.

Definition plot_circle (width height : nat) (g : list (list glyph))
  : result (list (list glyph)) :=
  for_each (fun g i => for_each (fun g j => circle_cell width height i j g) g (seq 0 height))
           g (seq 0 width).

(** [grid_x], [grid_y] of a data point: [x] and [y] are floats, the
    limits of the window integers, so [max_x - min_x] is the integer 16
    and the other operations are float operations. *)
Definition grid_xy (width height : nat) (x y : Q) : Z * Z :=
  (py_int (Float.fmul (Float.fdiv (Float.fsub x min_x) (max_x - min_x))
                      (inject_Z (Z.of_nat width - 1))),
   py_int (Float.fmul (Float.fdiv (Float.fsub max_y y) (max_y - min_y))
                      (inject_Z (Z.of_nat height - 1)))).

(** The body of the data loop. *)
Definition plot_point (width height : nat) (g : list (list glyph)) (p : Q * Q)
  : result (list (list glyph)) :=
  let '(x, y) := p in
  let '(grid_x, grid_y) := grid_xy width height x y in
  if in_grid width height grid_x grid_y then
    grid_set g (Z.to_nat grid_y) (Z.to_nat grid_x)
             (if sqrt_gt (x * x + y * y) (65 # 10) then OutMark else Block)
  else Ok g.

(** [zero_x], [zero_y]: the operands are integers, the quotient is 1/2
    and its product with [width - 1] is a binary64 number, so these float
    operations round nothing. *)
Definition zero_x (width : nat) : Z :=
  py_int ((0 - min_x) / (max_x - min_x) * inject_Z (Z.of_nat width - 1)).
Definition zero_y (height : nat) : Z :=
  py_int ((max_y - 0) / (max_y - min_y) * inject_Z (Z.of_nat height - 1)).

(** [grid[i][zero_x] in [' ', the dot]] *)
Definition blank_or_dot (v : glyph) : bool :=
  match v with Blank | Dot => true | _ => false end.

(** The grid after the data loop, before the axes. *)
Definition plotted_grid (pts : list (Q * Q)) (width height : nat)
  : result (list (list glyph)) :=
  g ← plot_circle width height (blank_grid width height);
  for_each (plot_point width height) g pts.

Definition add_axes (width height : nat) (g : list (list glyph))
  : result (list (list glyph)) :=
  draw_axes blank_or_dot (Z.to_nat (zero_x width)) (Z.to_nat (zero_y height))
            width height g.

(** The grid [plot_cross_section] prints for the points of a layer. *)
Definition cross_section_grid (pts : list (Q * Q)) (width height : nat)
  : result (list (list glyph)) :=
  g ← plotted_grid pts width height; add_axes width height g.

(** *** [ascii_plot_layer] of visualize_gcode_cli.py *)

(** [min(l)] and [max(l)] of a list that is not empty. *)
Definition py_min (x : Q) (l : list Q) : Q :=
  fold_left (fun m y => if Qltb y m then y else m) l x.
Definition py_max (x : Q) (l : list Q) : Q :=
  fold_left (fun m y => if Qltb m y then y else m) l x.

Definition margin : Q := 1.

(** The window [(min_x, max_x, min_y, max_y)] after the margin is added
    with [min_x -= margin] and the like, float operations; [None] for no
    positions, where the function returns its message. *)
Definition bounds (positions : list (Q * Q)) : option (Q * Q * Q * Q) :=
  match positions with
  | [] => None
  | p :: rest =>
      let xs := map fst rest in
      let ys := map snd rest in
      Some (Float.fsub (py_min p.1 xs) margin, Float.fadd (py_max p.1 xs) margin,
            Float.fsub (py_min p.2 ys) margin, Float.fadd (py_max p.2 ys) margin)
  end.

(** [grid_x], [grid_y] of a position in the window [w], in float
    operations.  The window is more than one unit wide as long as the
    coordinates stay below [2^53], so the division does not fail there;
    coordinates beyond are outside the model. *)
Definition layer_grid_xy (w : Q * Q * Q * Q) (width height : nat) (x y : Q) : Z * Z :=
  let '(min_x, max_x, min_y, max_y) := w in
  let grid_x := py_int (Float.fmul (Float.fdiv (Float.fsub x min_x) (Float.fsub max_x min_x))
                                   (inject_Z (Z.of_nat width - 1))) in
  let grid_y := py_int (Float.fmul (Float.fdiv (Float.fsub y min_y) (Float.fsub max_y min_y))
                                   (inject_Z (Z.of_nat height - 1))) in
  (grid_x, (Z.of_nat height - 1 - grid_y)%Z).

Definition layer_plot_point (w : Q * Q * Q * Q) (width height : nat)
    (g : list (list glyph)) (p : Q * Q) : result (list (list glyph)) :=
  let '(grid_x, grid_y) := layer_grid_xy w width height p.1 p.2 in
  if in_grid width height grid_x grid_y then
    grid_set g (Z.to_nat grid_y) (Z.to_nat grid_x) Block
  else Ok g.

Definition is_blank (v : glyph) : bool :=
  match v with Blank => true | _ => false end.

Definition layer_plotted_grid (positions : list (Q * Q)) (w : Q * Q * Q * Q)
    (width height : nat) : result (list (list glyph)) :=
  for_each (layer_plot_point w width height) (blank_grid width height) positions.

Definition layer_add_axes (width height : nat) (g : list (list glyph))
  : result (list (list glyph)) :=
  draw_axes is_blank (width / 2) (height / 2) width height g.

(** The grid [ascii_plot_layer] prints; [None] for its no-data message. *)
Definition ascii_plot_layer (positions : list (Q * Q)) (width height : nat)
  : result (option (list (list glyph))) :=
  match bounds positions with
  | None => Ok None
  | Some w =>
      g ← layer_plotted_grid positions w width height;
      g' ← layer_add_axes width height g;
      Ok (Some g')
  end.

End Raster.

(** ** The window of [ascii_plot_2d] of analyze_stl_views.py *)

Module Views.
Import Raster.

(** The float [0.1]. *)
Definition tenth : Q := Float.b64 (1 # 10).

(** [margin = max(max_x - min_x, max_y - min_y) * 0.1], then
    [min_x -= margin] and the like: the window [(min_x, max_x, min_y,
    max_y)] of the points, [None] for no points, where the function
    returns its message. *)
Definition bounds (points : list (Q * Q)) : option (Q * Q * Q * Q) :=
  match points with
  | [] => None
  | p :: rest =>
      let xs := map fst rest in
      let ys := map snd rest in
      let '(min_x, max_x) := (py_min p.1 xs, py_max p.1 xs) in
      let '(min_y, max_y) := (py_min p.2 ys, py_max p.2 ys) in
      let margin :=
        Float.fmul (py_max (Float.fsub max_x min_x) [Float.fsub max_y min_y]) tenth in
      Some (Float.fsub min_x margin, Float.fadd max_x margin,
            Float.fsub min_y margin, Float.fadd max_y margin)
  end.

End Views.

(** ** The geometry validator of validate_gcode_geometry.py *)

Module Validator.
Import Parser.

Definition expected_radius : Q := 6.

(** [positions[:, 0]**2 + positions[:, 1]**2], the argument of [np.sqrt]. *)
Definition radius_sq (p : position) : Q := p.1.1 * p.1.1 + p.1.2 * p.1.2.

(** [radii > expected_radius + 0.5], one entry of [outside_cylinder]. *)
Definition outside_cylinder (p : position) : bool :=
  sqrt_gt (radius_sq p) (expected_radius + (1 # 2)).

(** [np.where(flags)[0]]: the indices of the true entries, ascending. *)
Fixpoint where_from (i : nat) (flags : list bool) : list nat :=
  match flags with
  | [] => []
  | b :: rest => if b then i :: where_from (S i) rest else where_from (S i) rest
  end.

(** [np.sum(outside_cylinder)] *)
Definition outlier_count (positions : list position) : nat :=
  length (List.filter outside_cylinder positions).

(** [np.where(outside_cylinder)[0][:5]] *)
Definition outlier_idx (positions : list position) : list nat :=
  take 5 (where_from 0 (map outside_cylinder positions)).

(** What [check_geometry_issues] returns ([dims]) and what its warning
    block prints: the count and the sampled outliers, absent when
    [np.any(outside_cylinder)] is false. *)
Record report : Type := mkReport {
  dims : Q * Q * Q;
  warning : option (nat * list position)
}.

Definition check_geometry_issues (positions : list position) : result report :=
  match positions with
  | [] => Raise (ValueError "zero-size array to reduction operation minimum which has no identity")
  | p :: rest =>
      let col (f : position -> Q) := (Raster.py_min (f p) (map f rest), Raster.py_max (f p) (map f rest)) in
      let '(x0, x1) := col (fun p => p.1.1) in
      let '(y0, y1) := col (fun p => p.1.2) in
      let '(z0, z1) := col (fun p => p.2) in
      Ok (mkReport (Float.fsub x1 x0, Float.fsub y1 y0, Float.fsub z1 z0)
            (if existsb outside_cylinder positions then
               Some (outlier_count positions,
                     omap (fun idx => positions !! idx) (outlier_idx positions))
             else None))
  end.

(** *** Gap detection in [plot_cross_section] *)

(** [np.sort(a)] *)
Fixpoint insert_sorted (a : Q) (l : list Q) : list Q :=
  match l with
  | [] => [a]
  | b :: rest => if Qle_bool a b then a :: l else b :: insert_sorted a rest
  end.

Definition np_sort (l : list Q) : list Q := fold_right insert_sorted [] l.

(** [np.diff(a)] *)
Fixpoint np_diff (l : list Q) : list Q :=
  match l with
  | a :: (b :: _) as rest => (b - a) :: np_diff rest
  | _ => []
  end.

(** [np.argmax(a)]: the first index of the largest entry. *)
Fixpoint argmax_from (best : Q) (best_idx i : nat) (l : list Q) : nat :=
  match l with
  | [] => best_idx
  | x :: rest =>
      if Qltb best x then argmax_from x i (S i) rest
      else argmax_from best best_idx (S i) rest
  end.

Definition np_argmax (l : list Q) : nat :=
  match l with
  | [] => 0%nat
  | x :: rest => argmax_from x 0 1 rest
  end.

(** [(max_gap, gap_start, gap_end)] when [len(angles_sorted) > 1]. *)
Definition largest_gap (angles_sorted : list Q) : option (Q * Q * Q) :=
  if (1 <? length angles_sorted)%nat then
    let gaps := np_diff angles_sorted in
    let max_gap_idx := np_argmax gaps in
    Some (nth max_gap_idx gaps 0,
          nth max_gap_idx angles_sorted 0,
          nth (max_gap_idx + 1) angles_sorted 0)
  else None.

(** The opening line is appended when [max_gap > 30]. *)
Definition opening (angles_sorted : list Q) : option (Q * Q * Q) :=
  match largest_gap angles_sorted with
  | Some (max_gap, gap_start, gap_end) =>
      if Qltb 30 max_gap then Some (max_gap, gap_start, gap_end) else None
  | None => None
  end.

(** [angles_deg[angles_deg < 0] += 360] on one entry. *)
Definition wrap_negative (a : Q) : Q := if Qltb a 0 then a + 360 else a.

Section WithArctan2.

(** [np.degrees(np.arctan2(y, x))], a function of numpy. *)
Variable arctan2_deg : Q -> Q -> Q.

Definition angles_deg (pts : list (Q * Q)) : list Q :=
  map (fun p : Q * Q => wrap_negative (arctan2_deg p.2 p.1)) pts.

Definition angles_sorted (pts : list (Q * Q)) : list Q := np_sort (angles_deg pts).

(** What [plot_cross_section] shows: [None] for its no-data message,
    else the number of points, the grid and the opening it reports. *)
Definition plot_cross_section (positions : list position) (z_target tolerance : Q)
    (width height : nat)
  : result (option (nat * list (list Raster.glyph) * option (Q * Q * Q))) :=
  match positions with
  | [] => Raise IndexError   (* [positions[:, 2]] on the empty, one-dimensional array *)
  | _ =>
      let layer_points := Raster.layer_points positions z_target tolerance in
      if (length layer_points =? 0)%nat then Ok None
      else
        g ← Raster.cross_section_grid layer_points width height;
        Ok (Some (length layer_points, g, opening (angles_sorted layer_points)))
  end.

End WithArctan2.

End Validator.

(** ** The specification's wording, for comparison with the code *)

Module Spec.

(** "compute consecutive differences including the wraparound difference
    (360 + first_angle - last_angle), and report the single largest gap
    (start angle, end angle, magnitude)": the candidates are the
    consecutive gaps, then the gap from the last angle round to the
    first. *)
Definition gaps_with_wraparound (sorted : list Q) : list (Q * Q * Q) :=
  match sorted with
  | [] => []
  | first :: _ =>
      let consecutive :=
        map (fun ab : Q * Q => (ab.2 - ab.1, ab.1, ab.2))
            (combine sorted (tail sorted)) in
      consecutive ++ [(360 + first - List.last sorted 0, List.last sorted 0, first)]
  end.

Definition largest_gap_with_wraparound (sorted : list Q) : option (Q * Q * Q) :=
  if (1 <? length sorted)%nat then
    let cands := gaps_with_wraparound sorted in
    Some (nth (Validator.np_argmax (map (fun c : Q * Q * Q => c.1.1) cands)) cands (0, 0, 0))
  else None.

(** "grid_x = round((x - min_x) / (max_x - min_x) * (width-1))" and
    "grid_y = height-1 - round((y - min_y)/(max_y - min_y) * (height-1))". *)
Definition rounded_grid_xy (w : Q * Q * Q * Q) (width height : nat) (x y : Q) : Z * Z :=
  let '(min_x, max_x, min_y, max_y) := w in
  (round_half_even ((x - min_x) / (max_x - min_x) * inject_Z (Z.of_nat width - 1)),
   (Z.of_nat height - 1
    - round_half_even ((y - min_y) / (max_y - min_y) * inject_Z (Z.of_nat height - 1)))%Z).

(** "pad both axes by 10% of the larger axis span". *)
Definition padded_bounds (positions : list (Q * Q)) : option (Q * Q * Q * Q) :=
  match positions with
  | [] => None
  | p :: rest =>
      let xs := map fst rest in
      let ys := map snd rest in
      let '(x0, x1) := (Raster.py_min p.1 xs, Raster.py_max p.1 xs) in
      let '(y0, y1) := (Raster.py_min p.2 ys, Raster.py_max p.2 ys) in
      let pad := (1 # 10) * (if Qltb (x1 - x0) (y1 - y0) then y1 - y0 else x1 - x0) in
      Some (x0 - pad, x1 + pad, y0 - pad, y1 + pad)
  end.

(** "every Position belongs to exactly one Layer bucket (bucket key =
    rounded vertical coordinate)": the bucket of key [k] holds the
    positions whose rounded Z is [k], without their Z. *)
Definition layer_of (k : Qc) (positions : list Parser.position) : list (Q * Q) :=
  map (fun p : Parser.position => (p.1.1, p.1.2))
      (List.filter (fun p : Parser.position => bool_decide (Layers.round1 p.2 = k))
                   positions).

(** The values of [np.degrees(np.arctan2(y, x))] on the four half-axes
    (and 0 off them): an instance on which the gap detection runs. *)
Definition axis_arctan2_deg (y x : Q) : Q :=
  if Qeq_bool y 0 then (if Qltb x 0 then 180 else 0)
  else if Qeq_bool x 0 then (if Qltb y 0 then -90 else 90)
  else 0.

(** The three ordinates of the motion state. *)
Inductive axis : Type := AxisX | AxisY | AxisZ.

Definition letter (a : axis) : ascii :=
  match a with AxisX => "X" | AxisY => "Y" | AxisZ => "Z" end%char.

Definition ordinate_of (a : axis) (cur : Parser.current_pos) : Q :=
  match a with
  | AxisX => Parser.pos_X cur
  | AxisY => Parser.pos_Y cur
  | AxisZ => Parser.pos_Z cur
  end.

(** The number a token denotes. *)
Definition tok_value (tok : string) : Q :=
  match Text.py_float tok with Ok v => v | Raise _ => 0 end.

(** "the value from the most recent earlier line that set it, or the
    initial zero state if it was never set": the lines are given newest
    first. *)
Fixpoint latest (a : axis) (newest_first : list string) : Q :=
  match newest_first with
  | [] => 0
  | raw :: older =>
      let line := Parser.clean raw in
      if Parser.is_positioning line then
        match Text.re_search (letter a) line with
        | Some tok => tok_value tok
        | None => latest a older
        end
      else latest a older
  end.

(** A line none of whose coordinate fields holds a malformed number. *)
Definition token_ok (m : option string) : bool :=
  match m with Some tok => is_ok (Text.py_float tok) | None => true end.

Definition line_ok (raw : string) : bool :=
  let line := Parser.clean raw in
  negb (Parser.is_positioning line)
  || (token_ok (Text.re_search "X" line)
      && token_ok (Text.re_search "Y" line)
      && token_ok (Text.re_search "Z" line)).

End Spec.

(** ** What a cell of a rendered grid shows *)

Module Render.
Import Raster.

(** The last element of a list that passes a test. *)
Definition last_hit {A : Type} (test : A -> bool) (l : list A) : option A :=
  fold_left (fun acc a => if test a then Some a else acc) l None.

(** Whether the data loop of [plot_cross_section] draws the point [p] in
    the cell of row [r] and column [c]. *)
Definition hits (width height : nat) (r c : nat) (p : Q * Q) : bool :=
  let '(grid_x, grid_y) := grid_xy width height p.1 p.2 in
  in_grid width height grid_x grid_y
  && (Z.to_nat grid_y =? r)%nat && (Z.to_nat grid_x =? c)%nat.

(** The glyph the data loop writes for [p]. *)
Definition mark (p : Q * Q) : glyph :=
  if sqrt_gt (p.1 * p.1 + p.2 * p.2) (65 # 10) then OutMark else Block.

(** The test of the reference-circle loop at column [i], row [j]. *)
Definition on_circle (width height : nat) (i j : nat) : bool :=
  let x := min_x + (inject_Z (Z.of_nat i) / inject_Z (Z.of_nat width - 1)) * (max_x - min_x) in
  let y := max_y - (inject_Z (Z.of_nat j) / inject_Z (Z.of_nat height - 1)) * (max_y - min_y) in
  let r2 := x * x + y * y in
  sqrt_gt r2 (58 # 10) && sqrt_lt r2 (62 # 10).

(** The cell of row [r], column [c] of the grid of [plot_cross_section],
    read off the order of its four passes: the crossing, else the last
    data point drawn there, else the axis the cell lies on, else the
    reference circle, else blank. *)
Definition cross_section_cell (pts : list (Q * Q)) (width height : nat) (r c : nat) : glyph :=
  if (r =? Z.to_nat (zero_y height))%nat && (c =? Z.to_nat (zero_x width))%nat then Cross
  else
    match last_hit (hits width height r c) pts with
    | Some p => mark p
    | None =>
        if (c =? Z.to_nat (zero_x width))%nat then VBar
        else if (r =? Z.to_nat (zero_y height))%nat then HBar
        else if on_circle width height c r then Dot
        else Blank
    end.

(** Whether the data loop of [ascii_plot_layer] draws [p] in the cell. *)
Definition layer_hits (w : Q * Q * Q * Q) (width height : nat) (r c : nat) (p : Q * Q)
  : bool :=
  let '(grid_x, grid_y) := layer_grid_xy w width height p.1 p.2 in
  in_grid width height grid_x grid_y
  && (Z.to_nat grid_y =? r)%nat && (Z.to_nat grid_x =? c)%nat.

(** The cell of row [r], column [c] of the grid of [ascii_plot_layer]. *)
Definition layer_cell (positions : list (Q * Q)) (w : Q * Q * Q * Q)
    (width height : nat) (r c : nat) : glyph :=
  if (r =? height / 2)%nat && (c =? width / 2)%nat then Cross
  else if existsb (layer_hits w width height r c) positions then Block
  else if (c =? width / 2)%nat then VBar
  else if (r =? height / 2)%nat then HBar
  else Blank.

End Render.

(** ** The command line of visualize_gcode_cli.py *)

Module Cli.
Import Parser Layers Raster.

(** [[f(a) for a in l]], stopping at the first exception. *)
Fixpoint map_result {A B : Type} (f : A -> result B) (l : list A) : result (list B) :=
  match l with
  | [] => Ok []
  | a :: rest => b ← f a; bs ← map_result f rest; Ok (b :: bs)
  end.

(** [sorted(layers.keys())]: the keys, as numbers, in ascending order. *)
Definition available_z (layers : gmap Qc (list (Q * Q))) : list Q :=
  Validator.np_sort (map (fun kv : Qc * list (Q * Q) => this kv.1) (map_to_list layers)).

(** [min(l)] and [max(l)]; [ValueError] for an empty sequence. *)
Definition min_of (l : list Q) : result Q :=
  match l with
  | [] => Raise (ValueError "min() arg is an empty sequence")
  | x :: rest => Ok (py_min x rest)
  end.

Definition max_of (l : list Q) : result Q :=
  match l with
  | [] => Raise (ValueError "max() arg is an empty sequence")
  | x :: rest => Ok (py_max x rest)
  end.

(** [min(available_z, key=lambda x: abs(x - z))]: the first element at
    the least distance from [z], the distance computed in floats. *)
Fixpoint closest_from (z best : Q) (l : list Q) : Q :=
  match l with
  | [] => best
  | k :: rest =>
      if Qltb (Qabs (Float.fsub k z)) (Qabs (Float.fsub best z)) then closest_from z k rest
      else closest_from z best rest
  end.

Definition closest (z : Q) (l : list Q) : result Q :=
  match l with
  | [] => Raise (ValueError "min() arg is an empty sequence")
  | k :: rest => Ok (closest_from z k rest)
  end.

Definition num_samples : nat := 8.

(** [l[i]] with an index that is not negative. *)
Definition index {A : Type} (l : list A) (i : nat) : result A :=
  match l !! i with
  | Some a => Ok a
  | None => Raise IndexError
  end.

(** [[available_z[i * step] for i in range(num_samples)]] with
    [step = len(available_z) // num_samples]. *)
Definition sample_targets (avail : list Q) : result (list Q) :=
  let step := (length avail / num_samples)%nat in
  map_result (fun i : nat => index avail (i * step)) (seq 0 num_samples).

(** The body of [for z in target_z]: the layer shown, its plot ([None] for
    the no-data message) and its number of points. *)
Definition show_layer (layers : gmap Qc (list (Q * Q))) (avail : list Q) (z : Q)
  : result (Q * option (list (list glyph)) * nat) :=
  closest_z ← closest z avail;
  let positions := bucket layers (Q2Qc closest_z) in
  plot ← ascii_plot_layer positions 70 30;
  Ok (closest_z, plot, length positions).

(** What [main] prints: the number of layers, the Z range, and one entry
    per target height.  [heights] holds the heights given on the command
    line, already converted, [None] when there are none. *)
Record output : Type := mkOutput {
  found : nat;
  z_range : Q * Q;
  shown : list (Q * option (list (list glyph)) * nat)
}.

Definition main (lines : list string) (heights : option (list Q)) : result output :=
  layers ← parse_gcode lines;
  let avail := available_z layers in
  lo ← min_of avail;
  hi ← max_of avail;
  target_z ← match heights with
              | Some hs => Ok hs
              | None => sample_targets avail
              end;
  entries ← map_result (show_layer layers avail) target_z;
  Ok (mkOutput (length avail) (lo, hi) entries).

End Cli.

(** ** The script of validate_gcode_geometry.py *)

Module Script.
Import Parser Validator.

Definition key_heights : list Q := [1; 3; 5; 10; 12; 15; 18; 20; 25; 30].

(** [tolerance=0.15], the float. *)
Definition tolerance : Q := Float.b64 (15 # 100).

(** [positions[:, 2].max()] *)
Definition z_max (positions : list position) : result Q :=
  match positions with
  | [] => Raise IndexError
  | p :: rest => Ok (Raster.py_max p.2 (map (fun q : position => q.2) rest))
  end.

(** One turn of [for z in key_heights]: the section printed for [z], or
    nothing when [z] lies above the highest position. *)
Definition section_at (arctan2_deg : Q -> Q -> Q) (positions : list position) (z : Q)
  : result (option (Q * option (nat * list (list Raster.glyph) * option (Q * Q * Q)))) :=
  top ← z_max positions;
  if Qle_bool z top then
    s ← plot_cross_section arctan2_deg positions z tolerance 70 35;
    Ok (Some (z, s))
  else Ok None.

(** The sections that were printed, without the turns that printed
    nothing. *)
Definition printed {A : Type} (turns : list (option A)) : list A :=
  omap (fun s : option A => s) turns.

(** The statements of the script after the argument check: the number of
    extrusion points, the report of [check_geometry_issues], and the
    sections printed. *)
Definition main (arctan2_deg : Q -> Q -> Q) (lines : list string)
  : result (nat * report
            * list (Q * option (nat * list (list Raster.glyph) * option (Q * Q * Q)))) :=
  positions ← parse_gcode_detailed lines;
  rep ← check_geometry_issues positions;
  sections ← Cli.map_result (section_at arctan2_deg positions) key_heights;
  Ok (length positions, rep, printed sections).

End Script.

(** * Properties *)

Example strip_example :
  Text.split_head ";" (Text.strip "  G1 X1.5 Y-2 E0.1 ; wall
") = "G1 X1.5 Y-2 E0.1 ".
Proof. reflexivity. Qed.

Example re_search_example :
  Text.re_search "X" "G1 X1.5 Y-2 E0.1 " = Some "1.5"
  /\ Text.re_search "Y" "G1 X1.5 Y-2 E0.1 " = Some "-2"
  /\ Text.re_search "Z" "G1 X1.5 Y-2 E0.1 " = None
  /\ Text.re_search "X" "G1 X Y3 X4" = Some "4".
Proof. repeat split; reflexivity. Qed.

Example py_float_example :
  Text.py_float "1.5" = Ok (3 # 2)
  /\ Text.py_float "-2" = Ok (-2 # 1)
  /\ Text.py_float ".5" = Ok (1 # 2)
  /\ Text.py_float "5." = Ok (5 # 1)
  /\ Text.py_float "1.2.3" = Raise (ValueError "1.2.3")
  /\ Text.py_float "-" = Raise (ValueError "-")
  /\ Text.py_float "." = Raise (ValueError ".")
  /\ Text.py_float "1-2" = Raise (ValueError "1-2").
Proof. repeat split; reflexivity. Qed.

(** ** Binary64 rounding *)

Section FloatFacts.
Import Float.

Lemma two_pow_pos (k : Z) : 0 < 2 ^ k.
Proof. apply Qpower_0_lt. reflexivity. Qed.

Lemma two_pow_le (a b : Z) : (a <= b)%Z -> 2 ^ a <= 2 ^ b.
Proof. intros H. apply Qpower_le_compat_l; [exact H | discriminate]. Qed.

Lemma two_pow_lt_inv (a b : Z) : 2 ^ a < 2 ^ b -> (a < b)%Z.
Proof.
  intros H. destruct (Z_lt_le_dec a b) as [Hlt|Hle]; [exact Hlt|].
  pose proof (two_pow_le b a Hle). lra.
Qed.

Lemma two_pow_plus (a b : Z) : 2 ^ (a + b) == 2 ^ a * 2 ^ b.
Proof. apply Qpower_plus. discriminate. Qed.

Lemma two_pow_Z (a : Z) : (0 <= a)%Z -> inject_Z (2 ^ a) == 2 ^ a.
Proof. intros H. rewrite Zpower_Qpower by exact H. reflexivity. Qed.

(** [Qlog2] is the floor of the binary logarithm. *)
Lemma Qlog2_spec (q : Q) : 0 < q -> 2 ^ Qlog2 q <= q /\ q < 2 ^ (Qlog2 q + 1).
Proof.
  intros Hq. destruct q as [n d]. unfold Qlog2. cbn [Qnum Qden].
  assert (Hn : (0 < n)%Z) by (unfold Qlt in Hq; simpl in Hq; lia).
  set (a := Z.log2 n). set (b := Z.log2 (Z.pos d)).
  destruct (Z.log2_spec n Hn) as [Ha0 Ha1]. fold a in Ha0, Ha1.
  destruct (Z.log2_spec (Z.pos d) ltac:(lia)) as [Hb0 Hb1]. fold b in Hb0, Hb1.
  assert (Ha : (0 <= a)%Z) by apply Z.log2_nonneg.
  assert (Hb : (0 <= b)%Z) by apply Z.log2_nonneg.
  assert (Hqd : n # d == inject_Z n / inject_Z (Z.pos d)) by apply Qmake_Qdiv.
  assert (Hd : 0 < inject_Z (Z.pos d)) by (unfold Qlt; simpl; lia).
  assert (Hlow : 2 ^ (a - b - 1) < n # d).
  { rewrite Hqd. apply Qlt_shift_div_l; [exact Hd|].
    apply Qlt_le_trans with (2 ^ (a - b - 1) * 2 ^ (b + 1)).
    - apply Qmult_lt_l; [apply two_pow_pos|].
      rewrite <- two_pow_Z by lia. rewrite <- Zlt_Qlt. exact Hb1.
    - rewrite <- two_pow_plus. replace (a - b - 1 + (b + 1))%Z with a by lia.
      rewrite <- two_pow_Z by lia. rewrite <- Zle_Qle. exact Ha0. }
  assert (Hhigh : n # d < 2 ^ (a - b + 1)).
  { rewrite Hqd. apply Qlt_shift_div_r; [exact Hd|].
    apply Qlt_le_trans with (2 ^ (a - b + 1) * 2 ^ b).
    - rewrite <- two_pow_plus. replace (a - b + 1 + b)%Z with (a + 1)%Z by lia.
      rewrite <- two_pow_Z by lia. rewrite <- Zlt_Qlt.
      replace (a + 1)%Z with (Z.succ a) by lia. exact Ha1.
    - apply Qmult_le_l; [apply two_pow_pos|].
      rewrite <- two_pow_Z by lia. rewrite <- Zle_Qle. exact Hb0. }
  destruct (Qle_bool (2 ^ (a - b)) (n # d)) eqn:E.
  - apply Qle_bool_iff in E. split; [exact E | exact Hhigh].
  - split; [apply Qlt_le_weak; exact Hlow|].
    replace (a - b - 1 + 1)%Z with (a - b)%Z by lia.
    apply Qnot_le_lt. intros H. apply Qle_bool_iff in H. congruence.
Qed.

Lemma Qlog2_unique (q : Q) (e : Z) : 2 ^ e <= q -> q < 2 ^ (e + 1) -> Qlog2 q = e.
Proof.
  intros H0 H1.
  assert (Hq : 0 < q) by (pose proof (two_pow_pos e); lra).
  destruct (Qlog2_spec q Hq) as [H2 H3].
  assert ((e < Qlog2 q + 1)%Z) by (apply two_pow_lt_inv; lra).
  assert ((Qlog2 q < e + 1)%Z) by (apply two_pow_lt_inv; lra).
  lia.
Qed.

Lemma Qlog2_monotone (x y : Q) : 0 < x -> x <= y -> (Qlog2 x <= Qlog2 y)%Z.
Proof.
  intros Hx Hxy. destruct (Qlog2_spec x Hx) as [H0 _].
  destruct (Qlog2_spec y ltac:(lra)) as [_ H1].
  assert ((Qlog2 x < Qlog2 y + 1)%Z) by (apply two_pow_lt_inv; lra). lia.
Qed.

(** [round_half_even]: the nearest integer, the even one at a tie. *)
Lemma round_half_even_spec (q : Q) :
  let n := round_half_even q in
  (inject_Z n - (1 # 2) < q /\ q < inject_Z n + (1 # 2))
  \/ ((q == inject_Z n - (1 # 2) \/ q == inject_Z n + (1 # 2)) /\ Z.even n = true).
Proof.
  cbv zeta. unfold round_half_even.
  pose proof (Qfloor_le q) as Hlo. pose proof (Qlt_floor q) as Hhi.
  rewrite inject_Z_plus in Hhi. change (inject_Z 1) with 1 in Hhi.
  destruct (Qcompare (q - inject_Z (Qfloor q)) (1 # 2)) eqn:E.
  - apply Qeq_alt in E. right. destruct (Z.even (Qfloor q)) eqn:Ev.
    + split; [right; lra | exact Ev].
    + split; [left; rewrite inject_Z_plus; change (inject_Z 1) with 1; lra|].
      rewrite Z.even_add, Ev. reflexivity.
  - apply Qlt_alt in E. left. split; lra.
  - apply Qgt_alt in E. left. rewrite inject_Z_plus. change (inject_Z 1) with 1. split; lra.
Qed.

Lemma inject_Z_lt_succ (a b : Z) : inject_Z a < inject_Z b + 1 -> (a <= b)%Z.
Proof.
  intros H. change 1 with (inject_Z 1) in H. rewrite <- inject_Z_plus in H.
  rewrite <- Zlt_Qlt in H. lia.
Qed.

Lemma round_half_even_monotone (a b : Q) :
  a <= b -> (round_half_even a <= round_half_even b)%Z.
Proof.
  intros Hab.
  pose proof (round_half_even_spec a) as Ha. pose proof (round_half_even_spec b) as Hb.
  cbv zeta in Ha, Hb.
  generalize dependent (round_half_even a). generalize dependent (round_half_even b).
  intros n Hb m Ha.
  destruct (Z_le_gt_dec m n) as [H|H]; [exact H|exfalso].
  assert (Hmn : inject_Z n + 1 <= inject_Z m).
  { change 1 with (inject_Z 1). rewrite <- inject_Z_plus, <- Zle_Qle. lia. }
  destruct Ha as [[Ha0 Ha1]|[Ha Hea]]; destruct Hb as [[Hb0 Hb1]|[Hb Heb]]; try lra.
  assert (Hm : m = (n + 1)%Z).
  { assert (Hle : inject_Z m <= inject_Z n + 1) by lra.
    change 1 with (inject_Z 1) in Hle. rewrite <- inject_Z_plus in Hle.
    rewrite <- Zle_Qle in Hle. lia. }
  subst m. rewrite Z.even_add, Heb in Hea. discriminate.
Qed.

Lemma round_half_even_Z (n : Z) : round_half_even (inject_Z n) = n.
Proof.
  unfold round_half_even. rewrite Qfloor_Z.
  destruct (Qcompare (inject_Z n - inject_Z n) (1 # 2)) eqn:E; [| reflexivity |].
  - apply Qeq_alt in E. lra.
  - apply Qgt_alt in E. lra.
Qed.

Lemma round_half_even_comp (a b : Q) : a == b -> round_half_even a = round_half_even b.
Proof.
  intros H. apply Z.le_antisymm; apply round_half_even_monotone; lra.
Qed.

Lemma round_half_even_nonneg (q : Q) : 0 <= q -> (0 <= round_half_even q)%Z.
Proof.
  intros H. rewrite <- (round_half_even_Z 0). apply round_half_even_monotone. exact H.
Qed.

Lemma Z_between (z : Z) : - (1) < inject_Z z -> inject_Z z < 1 -> z = 0%Z.
Proof.
  intros H0 H1. change (- (1)) with (inject_Z (-1)) in H0. change 1 with (inject_Z 1) in H1.
  rewrite <- Zlt_Qlt in H0, H1. lia.
Qed.

Lemma Z_not_between (z : Z) : 0 < inject_Z z -> inject_Z z < 1 -> False.
Proof.
  intros H0 H1. change 0 with (inject_Z 0) in H0. change 1 with (inject_Z 1) in H1.
  rewrite <- Zlt_Qlt in H0, H1. lia.
Qed.

Lemma round_half_even_opp (q : Q) : round_half_even (- q) = (- round_half_even q)%Z.
Proof.
  pose proof (round_half_even_spec q) as Hn. pose proof (round_half_even_spec (- q)) as Hm.
  cbv zeta in Hn, Hm.
  generalize dependent (round_half_even (- q)). generalize dependent (round_half_even q).
  intros n Hn m Hm.
  assert (Es : inject_Z (m + n) == inject_Z m + inject_Z n)
    by (rewrite inject_Z_plus; reflexivity).
  assert (Eo : inject_Z (- (m + n)) == - inject_Z (m + n))
    by (rewrite inject_Z_opp; reflexivity).
  assert (Hparity : Z.even m = true -> Z.even n = true ->
                    inject_Z (m + n) == 1 \/ inject_Z (m + n) == - (1) -> False).
  { intros Em En [H|H].
    - change 1 with (inject_Z 1) in H. apply (proj1 (inject_Z_injective _ _)) in H.
      pose proof (Z.even_add m n) as Hev. rewrite Em, En, H in Hev. discriminate.
    - change (- (1)) with (inject_Z (-1)) in H. apply (proj1 (inject_Z_injective _ _)) in H.
      pose proof (Z.even_add m n) as Hev. rewrite Em, En, H in Hev. discriminate. }
  destruct Hn as [[Hn0 Hn1]|[Hn En]]; destruct Hm as [[Hm0 Hm1]|[Hm Em]].
  - assert (m + n = 0)%Z by (apply Z_between; lra). lia.
  - exfalso. destruct Hm as [Hm|Hm];
      first [apply (Z_not_between (m + n)); lra | apply (Z_not_between (- (m + n))); lra].
  - exfalso. destruct Hn as [Hn|Hn];
      first [apply (Z_not_between (m + n)); lra | apply (Z_not_between (- (m + n))); lra].
  - destruct Hn as [Hn|Hn]; destruct Hm as [Hm|Hm].
    + exfalso. apply (Hparity Em En). first [left; lra | right; lra].
    + assert (m + n = 0)%Z by (apply Z_between; lra). lia.
    + assert (m + n = 0)%Z by (apply Z_between; lra). lia.
    + exfalso. apply (Hparity Em En). first [left; lra | right; lra].
Qed.

Lemma Qlog2_comp (x y : Q) : 0 < x -> x == y -> Qlog2 x = Qlog2 y.
Proof.
  intros Hx Hxy. destruct (Qlog2_spec y ltac:(lra)) as [H0 H1].
  apply Qlog2_unique; lra.
Qed.

Lemma Qabs_nonzero (x : Q) : ~ x == 0 -> 0 < Qabs x.
Proof.
  intros Hx. apply Qabs_case; intros H.
  - destruct (Qeq_dec x 0) as [E|E]; [contradiction | lra].
  - destruct (Qeq_dec x 0) as [E|E]; [contradiction | lra].
Qed.

Lemma ulp_exp_comp (x y : Q) : ~ x == 0 -> x == y -> ulp_exp x = ulp_exp y.
Proof.
  intros Hx Hxy. unfold ulp_exp.
  rewrite (Qlog2_comp (Qabs x) (Qabs y)); [reflexivity | apply Qabs_nonzero; exact Hx|].
  apply Qabs_wd. exact Hxy.
Qed.

Lemma ulp_exp_opp (x : Q) : ulp_exp (- x) = ulp_exp x.
Proof.
  unfold ulp_exp. destruct (Qeq_dec x 0) as [E|E].
  - destruct x as [n d]. unfold Qeq in E. simpl in E.
    assert (n = 0%Z) by lia. subst n. reflexivity.
  - rewrite (Qlog2_comp (Qabs (- x)) (Qabs x)); [reflexivity | |apply Qabs_opp].
    apply Qabs_nonzero. intros H. apply E. lra.
Qed.

Lemma ulp_exp_pos (x : Q) : 0 < x -> ulp_exp x = Z.max (Qlog2 x - 52) (-1074).
Proof.
  intros Hx. unfold ulp_exp.
  rewrite (Qlog2_comp (Qabs x) x); [reflexivity | |apply Qabs_pos; lra].
  apply Qabs_nonzero. intros H. lra.
Qed.

Lemma b64_zero (x : Q) : x == 0 -> b64 x = 0.
Proof. intros H. unfold b64. apply Qeq_bool_iff in H. rewrite H. reflexivity. Qed.

Lemma b64_value (x : Q) :
  ~ x == 0 ->
  b64 x == inject_Z (round_half_even (x / 2 ^ ulp_exp x)) * 2 ^ ulp_exp x.
Proof.
  intros Hx. unfold b64. destruct (Qeq_bool x 0) eqn:E.
  - apply Qeq_bool_iff in E. contradiction.
  - apply Qred_correct.
Qed.

(** Equal rationals round to the same number, whatever their fractions. *)
Lemma b64_comp (x y : Q) : x == y -> b64 x = b64 y.
Proof.
  intros Hxy. destruct (Qeq_dec x 0) as [E|E].
  - rewrite (b64_zero x E), (b64_zero y); [reflexivity | lra].
  - unfold b64.
    destruct (Qeq_bool x 0) eqn:Ex; [apply Qeq_bool_iff in Ex; contradiction|].
    destruct (Qeq_bool y 0) eqn:Ey; [apply Qeq_bool_iff in Ey; exfalso; apply E; lra|].
    apply Qred_complete. rewrite <- (ulp_exp_comp x y E Hxy).
    rewrite (round_half_even_comp (x / 2 ^ ulp_exp x) (y / 2 ^ ulp_exp x)); [reflexivity|].
    unfold Qdiv. apply Qmult_comp; [exact Hxy | reflexivity].
Qed.

Lemma Qdiv_le_pos (a b c : Q) : 0 < c -> a <= b -> a / c <= b / c.
Proof.
  intros Hc Hab. unfold Qdiv. apply Qmult_le_compat_r; [exact Hab|].
  apply Qinv_le_0_compat. lra.
Qed.

Lemma Qdiv_mult_cancel (a c : Q) : 0 < c -> a / c * c == a.
Proof. intros Hc. field. lra. Qed.

(** Rounding moves to the grid of the multiples of the unit in the last
    place, never across one of its points. *)
Lemma b64_grid_le (q : Q) (N : Z) :
  ~ q == 0 -> q <= inject_Z N * 2 ^ ulp_exp q -> b64 q <= inject_Z N * 2 ^ ulp_exp q.
Proof.
  intros Hq H. rewrite (b64_value q Hq).
  pose proof (two_pow_pos (ulp_exp q)) as Hk.
  apply Qmult_le_compat_r; [|lra].
  rewrite <- Zle_Qle. rewrite <- (round_half_even_Z N).
  apply round_half_even_monotone.
  apply Qle_shift_div_r; [exact Hk | exact H].
Qed.

Lemma b64_grid_ge (q : Q) (N : Z) :
  ~ q == 0 -> inject_Z N * 2 ^ ulp_exp q <= q -> inject_Z N * 2 ^ ulp_exp q <= b64 q.
Proof.
  intros Hq H. rewrite (b64_value q Hq).
  pose proof (two_pow_pos (ulp_exp q)) as Hk.
  apply Qmult_le_compat_r; [|lra].
  rewrite <- Zle_Qle. rewrite <- (round_half_even_Z N) at 1.
  apply round_half_even_monotone.
  apply Qle_shift_div_l; [exact Hk | exact H].
Qed.

(** A power of two that is no finer than the grid is one of its points. *)
Lemma two_pow_on_grid (j k : Z) : (k <= j)%Z -> 2 ^ j == inject_Z (2 ^ (j - k)) * 2 ^ k.
Proof.
  intros H. rewrite two_pow_Z by lia. rewrite <- two_pow_plus.
  replace (j - k + k)%Z with j by lia. reflexivity.
Qed.

Lemma b64_le_two_pow (q : Q) (j : Z) :
  ~ q == 0 -> (ulp_exp q <= j)%Z -> q <= 2 ^ j -> b64 q <= 2 ^ j.
Proof.
  intros Hq Hk H. rewrite (two_pow_on_grid j (ulp_exp q) Hk) in H |- *.
  apply b64_grid_le; assumption.
Qed.

Lemma b64_ge_two_pow (q : Q) (j : Z) :
  ~ q == 0 -> (ulp_exp q <= j)%Z -> 2 ^ j <= q -> 2 ^ j <= b64 q.
Proof.
  intros Hq Hk H. rewrite (two_pow_on_grid j (ulp_exp q) Hk) in H |- *.
  apply b64_grid_ge; assumption.
Qed.

Lemma b64_nonneg (x : Q) : 0 <= x -> 0 <= b64 x.
Proof.
  intros Hx. destruct (Qeq_dec x 0) as [E|E]; [rewrite (b64_zero x E); lra|].
  rewrite (b64_value x E). pose proof (two_pow_pos (ulp_exp x)) as Hk.
  apply Qmult_le_0_compat; [|lra].
  change 0 with (inject_Z 0). rewrite <- Zle_Qle. apply round_half_even_nonneg.
  apply Qle_shift_div_l; [exact Hk | lra].
Qed.

Lemma b64_opp (x : Q) : b64 (- x) == - b64 x.
Proof.
  destruct (Qeq_dec x 0) as [E|E].
  - rewrite (b64_zero x E), (b64_zero (- x)); lra.
  - rewrite (b64_value x E), (b64_value (- x)) by (intros H; apply E; lra).
    rewrite ulp_exp_opp.
    rewrite (round_half_even_comp (- x / 2 ^ ulp_exp x) (- (x / 2 ^ ulp_exp x))).
    + rewrite round_half_even_opp, inject_Z_opp. ring.
    + field. pose proof (two_pow_pos (ulp_exp x)). lra.
Qed.

Lemma b64_monotone_pos (x y : Q) : 0 < x -> x <= y -> b64 x <= b64 y.
Proof.
  intros Hx Hxy.
  assert (Hx0 : ~ x == 0) by lra. assert (Hy0 : ~ y == 0) by lra.
  pose proof (ulp_exp_pos x Hx) as Ekx. pose proof (ulp_exp_pos y ltac:(lra)) as Eky.
  pose proof (Qlog2_monotone x y Hx Hxy) as Hlog.
  destruct (Qlog2_spec x Hx) as [_ Hxhi]. destruct (Qlog2_spec y ltac:(lra)) as [Hylo _].
  destruct (Z.eq_dec (ulp_exp x) (ulp_exp y)) as [Ek|Ek].
  - rewrite (b64_value x Hx0), (b64_value y Hy0), Ek.
    pose proof (two_pow_pos (ulp_exp y)) as Hk.
    apply Qmult_le_compat_r; [|lra].
    rewrite <- Zle_Qle. apply round_half_even_monotone. apply Qdiv_le_pos; assumption.
  - apply Qle_trans with (2 ^ Qlog2 y).
    + apply b64_le_two_pow; [exact Hx0 | lia |].
      apply Qle_trans with (2 ^ (Qlog2 x + 1)); [lra|]. apply two_pow_le. lia.
    + apply b64_ge_two_pow; [exact Hy0 | lia | exact Hylo].
Qed.

(** Rounding to binary64 keeps the order. *)
Lemma b64_monotone (x y : Q) : x <= y -> b64 x <= b64 y.
Proof.
  intros Hxy. destruct (Qlt_le_dec 0 x) as [Hx|Hx].
  - apply b64_monotone_pos; assumption.
  - destruct (Qlt_le_dec y 0) as [Hy|Hy].
    + pose proof (b64_monotone_pos (- y) (- x) ltac:(lra) ltac:(lra)) as H.
      rewrite !b64_opp in H. lra.
    + pose proof (b64_nonneg y Hy) as H1.
      pose proof (b64_nonneg (- x) ltac:(lra)) as H2. rewrite b64_opp in H2. lra.
Qed.

(** A multiple of a power of two no finer than the grid is a binary64
    number. *)
Lemma b64_exact (q : Q) (N j : Z) :
  q == inject_Z N * 2 ^ j -> (ulp_exp q <= j)%Z -> b64 q == q.
Proof.
  intros Hq Hj. destruct (Qeq_dec q 0) as [E|E]; [rewrite (b64_zero q E); lra|].
  assert (Hgrid : q == inject_Z (N * 2 ^ (j - ulp_exp q)) * 2 ^ ulp_exp q).
  { rewrite inject_Z_mult, two_pow_Z by lia. rewrite <- Qmult_assoc, <- two_pow_plus.
    replace (j - ulp_exp q + ulp_exp q)%Z with j by lia. exact Hq. }
  apply Qle_antisym.
  - rewrite Hgrid at 2. apply b64_grid_le; [exact E | rewrite <- Hgrid; lra].
  - rewrite Hgrid at 1. apply b64_grid_ge; [exact E | rewrite <- Hgrid; lra].
Qed.

Lemma ulp_exp_small (q : Q) (j : Z) :
  ~ q == 0 -> (-1021 <= j)%Z -> Qabs q < 2 ^ j -> (ulp_exp q <= j - 53)%Z.
Proof.
  intros E Hj Hq. unfold ulp_exp.
  destruct (Qlog2_spec (Qabs q) (Qabs_nonzero q E)) as [H0 _].
  assert ((Qlog2 (Qabs q) < j)%Z) by (apply two_pow_lt_inv; lra). lia.
Qed.

(** The integers below [2^53] are binary64 numbers. *)
Lemma b64_inject_Z (n : Z) : (Z.abs n < 2 ^ 53)%Z -> b64 (inject_Z n) == inject_Z n.
Proof.
  intros Hn. destruct (Z.eq_dec n 0%Z) as [->|Hn0]; [reflexivity|].
  apply (b64_exact _ n 0%Z); [change (2 ^ 0) with 1; ring|].
  assert (H : (ulp_exp (inject_Z n) <= 53 - 53)%Z); [|lia].
  apply ulp_exp_small; [|lia|].
  - intros H. change 0 with (inject_Z 0) in H.
    apply (proj1 (inject_Z_injective _ _)) in H. contradiction.
  - rewrite <- two_pow_Z by lia.
    assert (E : Qabs (inject_Z n) == inject_Z (Z.abs n)) by (symmetry; apply Zabs_Qabs).
    rewrite E, <- Zlt_Qlt. exact Hn.
Qed.

(** Rounding does not cross a binary64 number. *)
Lemma b64_le_fixed (x c : Q) : x <= c -> b64 c == c -> b64 x <= c.
Proof. intros Hx Hc. rewrite <- Hc. apply b64_monotone. exact Hx. Qed.

Lemma b64_ge_fixed (x c : Q) : c <= x -> b64 c == c -> c <= b64 x.
Proof. intros Hx Hc. rewrite <- Hc. apply b64_monotone. exact Hx. Qed.

Lemma b64_ge_0 (x : Q) : 0 <= x -> 0 <= b64 x.
Proof. intros Hx. apply b64_ge_fixed; [exact Hx | reflexivity]. Qed.

End FloatFacts.

(** ** Loops and exceptions *)

Section ForEach.
Context {S A : Type} (body : S -> A -> result S).

Lemma for_each_cons (st : S) (a : A) (l : list A) :
  for_each body st (a :: l) = (st' ← body st a; for_each body st' l).
Proof. reflexivity. Qed.

Lemma for_each_app (st : S) (l1 l2 : list A) :
  for_each body st (l1 ++ l2) = (st' ← for_each body st l1; for_each body st' l2).
Proof.
  revert st. induction l1 as [|a l1 IH]; intros st; simpl; [reflexivity|].
  destruct (body st a) as [st1|e]; simpl; [apply IH | reflexivity].
Qed.

Lemma for_each_snoc_ok (st st1 st2 : S) (l : list A) (a : A) :
  for_each body st l = Ok st1 -> body st1 a = Ok st2 ->
  for_each body st (l ++ [a]) = Ok st2.
Proof.
  intros H1 H2. rewrite for_each_app, H1. simpl. rewrite H2. reflexivity.
Qed.

Lemma for_each_snoc_inv (st st2 : S) (l : list A) (a : A) :
  for_each body st (l ++ [a]) = Ok st2 ->
  exists st1, for_each body st l = Ok st1 /\ body st1 a = Ok st2.
Proof.
  rewrite for_each_app. destruct (for_each body st l) as [st1|e]; simpl; [|discriminate].
  destruct (body st1 a) as [st3|e] eqn:E; simpl; [|discriminate].
  intros [= <-]. exists st1. split; [reflexivity | exact E].
Qed.

(** An invariant of the loop body is an invariant of the loop. *)
Lemma for_each_invariant (P : S -> Prop) (l : list A) :
  (forall st a st', P st -> body st a = Ok st' -> P st') ->
  forall st st', P st -> for_each body st l = Ok st' -> P st'.
Proof.
  intros Hstep. induction l as [|a l IH]; intros st st' HP; simpl.
  - intros [= <-]. exact HP.
  - destruct (body st a) as [st1|e] eqn:E; simpl; [|discriminate].
    apply IH. exact (Hstep _ _ _ HP E).
Qed.

End ForEach.

(** ** The parsers: state tracking *)

Section ParserState.
Import Parser Spec.

Lemma ordinate_value (m : option string) (old v : Q) :
  ordinate m old = Ok v ->
  v = match m with Some tok => tok_value tok | None => old end.
Proof.
  destruct m as [tok|]; simpl.
  - unfold tok_value. intros ->. reflexivity.
  - intros [= <-]. reflexivity.
Qed.

Lemma ordinate_is_ok (m : option string) (old : Q) :
  is_ok (ordinate m old) = token_ok m.
Proof. destruct m; reflexivity. Qed.

Lemma ordinate_raises (m : option string) (old : Q) (e : exn) :
  ordinate m old = Raise e -> exists tok, e = ValueError tok.
Proof.
  destruct m as [tok|]; simpl; [|discriminate].
  unfold Text.py_float.
  destruct tok as [|c rest]; simpl.
  - intros [= <-]. eauto.
  - repeat match goal with
           | |- context [match ?x with _ => _ end] => destruct x; simpl
           end; intros [= <-] || discriminate; eauto.
Qed.

(** What a positioning line leaves in each field. *)
Lemma update_pos_fields (line : string) (cur cur' : current_pos) :
  update_pos line cur = Ok cur' ->
  forall a, ordinate_of a cur' =
            match Text.re_search (letter a) line with
            | Some tok => tok_value tok
            | None => ordinate_of a cur
            end.
Proof.
  unfold update_pos.
  destruct (ordinate (Text.re_search "X" line) (pos_X cur)) as [x|] eqn:Ex; simpl; [|discriminate].
  destruct (ordinate (Text.re_search "Y" line) (pos_Y cur)) as [y|] eqn:Ey; simpl; [|discriminate].
  destruct (ordinate (Text.re_search "Z" line) (pos_Z cur)) as [z|] eqn:Ez; simpl; [|discriminate].
  intros [= <-] a.
  apply ordinate_value in Ex, Ey, Ez.
  destruct a; simpl; assumption.
Qed.

Lemma update_pos_is_ok (line : string) (cur : current_pos) :
  is_ok (update_pos line cur)
  = token_ok (Text.re_search "X" line)
    && token_ok (Text.re_search "Y" line)
    && token_ok (Text.re_search "Z" line).
Proof.
  unfold update_pos.
  rewrite <- (ordinate_is_ok _ (pos_X cur)), <- (ordinate_is_ok _ (pos_Y cur)),
          <- (ordinate_is_ok _ (pos_Z cur)).
  destruct (ordinate (Text.re_search "X" line) (pos_X cur)); simpl; [|reflexivity].
  destruct (ordinate (Text.re_search "Y" line) (pos_Y cur)); simpl; [|reflexivity].
  destruct (ordinate (Text.re_search "Z" line) (pos_Z cur)); reflexivity.
Qed.

Lemma update_pos_raises (line : string) (cur : current_pos) (e : exn) :
  update_pos line cur = Raise e -> exists tok, e = ValueError tok.
Proof.
  unfold update_pos.
  destruct (ordinate (Text.re_search "X" line) (pos_X cur)) eqn:Ex; simpl;
    [| intros [= <-]; exact (ordinate_raises _ _ _ Ex)].
  destruct (ordinate (Text.re_search "Y" line) (pos_Y cur)) eqn:Ey; simpl;
    [| intros [= <-]; exact (ordinate_raises _ _ _ Ey)].
  destruct (ordinate (Text.re_search "Z" line) (pos_Z cur)) eqn:Ez; simpl;
    [discriminate | intros [= <-]; exact (ordinate_raises _ _ _ Ez)].
Qed.

Lemma empty_line_not_positioning (line : string) :
  String.eqb line "" = true -> is_positioning line = false /\ is_extrusion line = false.
Proof. intros ->%String.eqb_eq. split; reflexivity. Qed.

(** One iteration of [parse_gcode_detailed]. *)
Lemma step_detailed_spec (cur cur' : current_pos) (ps ps' : list position) (raw : string) :
  step_detailed (cur, ps) raw = Ok (cur', ps') ->
  (forall a, ordinate_of a cur' =
             if is_positioning (clean raw) then
               match Text.re_search (letter a) (clean raw) with
               | Some tok => tok_value tok
               | None => ordinate_of a cur
               end
             else ordinate_of a cur)
  /\ ps' = (if is_extrusion (clean raw) then ps ++ [snapshot cur'] else ps).
Proof.
  unfold step_detailed.
  destruct (String.eqb (clean raw) "") eqn:Eempty.
  - intros [= <- <-]. destruct (empty_line_not_positioning _ Eempty) as [-> ->].
    split; reflexivity.
  - destruct (is_positioning (clean raw)) eqn:Epos.
    + destruct (update_pos (clean raw) cur) as [c|] eqn:Eup; simpl; [|discriminate].
      intros [= <- <-]. split; [|reflexivity].
      exact (update_pos_fields _ _ _ Eup).
    + simpl. intros [= <- <-]. split; reflexivity.
Qed.

(** One iteration of [parse_gcode]. *)
Lemma step_layers_spec (cur cur' : current_pos) (m m' : gmap Qc (list (Q * Q)))
    (raw : string) :
  Layers.step_layers (cur, m) raw = Ok (cur', m') ->
  (forall a, ordinate_of a cur' =
             if is_positioning (clean raw) then
               match Text.re_search (letter a) (clean raw) with
               | Some tok => tok_value tok
               | None => ordinate_of a cur
               end
             else ordinate_of a cur)
  /\ m' = (if is_positioning (clean raw) && Text.startswith "G1" (clean raw)
           then Layers.append_to m (Layers.round1 (pos_Z cur')) (pos_X cur', pos_Y cur')
           else m).
Proof.
  unfold Layers.step_layers.
  destruct (String.eqb (clean raw) "") eqn:Eempty.
  - intros [= <- <-]. destruct (empty_line_not_positioning _ Eempty) as [-> _].
    split; reflexivity.
  - destruct (is_positioning (clean raw)) eqn:Epos.
    + destruct (update_pos (clean raw) cur) as [c|] eqn:Eup; simpl; [|discriminate].
      intros [= <- <-]. split; [|reflexivity].
      exact (update_pos_fields _ _ _ Eup).
    + intros [= <- <-]. split; reflexivity.
Qed.

(** The state after a run holds, in each field, the value of the latest
    line that set it.  Stated once for any loop body whose state part
    moves as the two parsers' does. *)
Lemma state_is_latest {T : Type} (step : current_pos * T -> string -> result (current_pos * T))
    (t0 : T) :
  (forall cur t raw cur' t', step (cur, t) raw = Ok (cur', t') ->
     forall a, ordinate_of a cur' =
               if is_positioning (clean raw) then
                 match Text.re_search (letter a) (clean raw) with
                 | Some tok => tok_value tok
                 | None => ordinate_of a cur
                 end
               else ordinate_of a cur) ->
  forall lines cur t,
    for_each step (initial_pos, t0) lines = Ok (cur, t) ->
    forall a, ordinate_of a cur = latest a (rev lines).
Proof.
  intros Hstep lines. induction lines as [|raw lines IH] using rev_ind; intros cur t.
  - simpl. intros [= <- <-] a. destruct a; reflexivity.
  - intros Hrun a.
    apply for_each_snoc_inv in Hrun as [[cur1 t1] [Hrun Hlast]].
    rewrite rev_unit. simpl.
    rewrite (Hstep _ _ _ _ _ Hlast a), (IH _ _ Hrun a). reflexivity.
Qed.

End ParserState.

(** ** The parsers: claims *)

Section ParserClaims.
Import Parser Spec.

(** C3 (sticky coordinates).  In both parsers, after a positioning line
    that follows the lines [pre], every ordinate of the motion state is
    the number given on the line when the line gives one, and otherwise
    the value of the latest line of [pre] that set it, zero when none
    did; the position [parse_gcode_detailed] records for the line, and the
    point [parse_gcode] files under the rounded Z, are taken from that
    state. *)
Theorem sticky_coordinates (pre : list string) (raw : string) :
  is_positioning (clean raw) = true ->
  (forall cur0 ps0 cur ps,
     for_each step_detailed (initial_pos, []) pre = Ok (cur0, ps0) ->
     step_detailed (cur0, ps0) raw = Ok (cur, ps) ->
     (forall a, ordinate_of a cur =
                match Text.re_search (letter a) (clean raw) with
                | Some tok => tok_value tok
                | None => latest a (rev pre)
                end)
     /\ (is_extrusion (clean raw) = true -> ps = ps0 ++ [snapshot cur])
     /\ (is_extrusion (clean raw) = false -> ps = ps0))
  /\
  (forall cur0 m0 cur m,
     for_each Layers.step_layers (initial_pos, ∅) pre = Ok (cur0, m0) ->
     Layers.step_layers (cur0, m0) raw = Ok (cur, m) ->
     (forall a, ordinate_of a cur =
                match Text.re_search (letter a) (clean raw) with
                | Some tok => tok_value tok
                | None => latest a (rev pre)
                end)
     /\ (Text.startswith "G1" (clean raw) = true ->
         m = Layers.append_to m0 (Layers.round1 (pos_Z cur)) (pos_X cur, pos_Y cur))
     /\ (Text.startswith "G1" (clean raw) = false -> m = m0)).
Proof.
  intros Hpos. split.
  - intros cur0 ps0 cur ps Hpre Hstep.
    destruct (step_detailed_spec _ _ _ _ _ Hstep) as [Hst Hps].
    rewrite Hpos in Hst. split; [|split].
    + intros a. rewrite (Hst a).
      rewrite (state_is_latest step_detailed []
                 (fun c t r c' t' H => proj1 (step_detailed_spec c c' t t' r H))
                 pre cur0 ps0 Hpre a).
      reflexivity.
    + intros E. rewrite E in Hps. exact Hps.
    + intros E. rewrite E in Hps. exact Hps.
  - intros cur0 m0 cur m Hpre Hstep.
    destruct (step_layers_spec _ _ _ _ _ Hstep) as [Hst Hm].
    rewrite Hpos in Hst, Hm. rewrite andb_true_l in Hm. split; [|split].
    + intros a. rewrite (Hst a).
      rewrite (state_is_latest Layers.step_layers ∅
                 (fun c t r c' t' H => proj1 (step_layers_spec c c' t t' r H))
                 pre cur0 m0 Hpre a).
      reflexivity.
    + intros E. rewrite E in Hm. exact Hm.
    + intros E. rewrite E in Hm. exact Hm.
Qed.

Lemma sticky_coordinates_witness :
  is_positioning (clean "G1 Y3 E2 ; second wall") = true
  /\ for_each step_detailed (initial_pos, []) ["G1 X1 Y2 Z0.2 E1"; "G0 X5"]
     = Ok (mkPos 5 2 (Float.b64 (1 # 5)), [(1, 2, Float.b64 (1 # 5))])
  /\ step_detailed (mkPos 5 2 (Float.b64 (1 # 5)), [(1, 2, Float.b64 (1 # 5))])
                   "G1 Y3 E2 ; second wall"
     = Ok (mkPos 5 3 (Float.b64 (1 # 5)),
           [(1, 2, Float.b64 (1 # 5)); (5, 3, Float.b64 (1 # 5))])
  /\ (forall a, ordinate_of a (mkPos 5 3 (Float.b64 (1 # 5))) =
                match Text.re_search (letter a) (clean "G1 Y3 E2 ; second wall") with
                | Some tok => tok_value tok
                | None => latest a (rev ["G1 X1 Y2 Z0.2 E1"; "G0 X5"])
                end).
Proof.
  split; [reflexivity|]. split; [reflexivity|]. split; [reflexivity|].
  exact (proj1 (proj1 (sticky_coordinates ["G1 X1 Y2 Z0.2 E1"; "G0 X5"]
                         "G1 Y3 E2 ; second wall" eq_refl)
                      (mkPos 5 2 (Float.b64 (1 # 5))) [(1, 2, Float.b64 (1 # 5))]
                      (mkPos 5 3 (Float.b64 (1 # 5)))
                      [(1, 2, Float.b64 (1 # 5)); (5, 3, Float.b64 (1 # 5))]
                      eq_refl eq_refl)).
Defined.

(** Whether a run raises depends on the lines alone. *)
Lemma for_each_is_ok {S : Type} (step : S -> string -> result S) :
  (forall st raw, is_ok (step st raw) = line_ok raw) ->
  forall lines st, is_ok (for_each step st lines) = forallb line_ok lines.
Proof.
  intros Hstep lines. induction lines as [|raw lines IH]; intros st; simpl; [reflexivity|].
  rewrite <- (Hstep st raw).
  destruct (step st raw) as [st1|e]; simpl; [apply IH | reflexivity].
Qed.

Lemma for_each_raises {S : Type} (step : S -> string -> result S) (P : exn -> Prop) :
  (forall st raw e, step st raw = Raise e -> P e) ->
  forall lines st e, for_each step st lines = Raise e -> P e.
Proof.
  intros Hstep lines. induction lines as [|raw lines IH]; intros st e; simpl; [discriminate|].
  destruct (step st raw) as [st1|e1] eqn:E; simpl.
  - apply IH.
  - intros [= <-]. exact (Hstep _ _ _ E).
Qed.

Lemma step_detailed_is_ok (st : current_pos * list position) (raw : string) :
  is_ok (step_detailed st raw) = line_ok raw.
Proof.
  destruct st as [cur ps]. unfold step_detailed, line_ok.
  destruct (String.eqb (clean raw) "") eqn:Eempty.
  - destruct (empty_line_not_positioning _ Eempty) as [-> _]. reflexivity.
  - destruct (is_positioning (clean raw)); simpl; [|reflexivity].
    rewrite <- (update_pos_is_ok (clean raw) cur).
    destruct (update_pos (clean raw) cur); reflexivity.
Qed.

Lemma step_layers_is_ok (st : current_pos * gmap Qc (list (Q * Q))) (raw : string) :
  is_ok (Layers.step_layers st raw) = line_ok raw.
Proof.
  destruct st as [cur m]. unfold Layers.step_layers, line_ok.
  destruct (String.eqb (clean raw) "") eqn:Eempty.
  - destruct (empty_line_not_positioning _ Eempty) as [-> _]. reflexivity.
  - destruct (is_positioning (clean raw)); simpl; [|reflexivity].
    rewrite <- (update_pos_is_ok (clean raw) cur).
    destruct (update_pos (clean raw) cur); reflexivity.
Qed.

Lemma step_detailed_raises (st : current_pos * list position) (raw : string) (e : exn) :
  step_detailed st raw = Raise e -> exists tok, e = ValueError tok.
Proof.
  destruct st as [cur ps]. unfold step_detailed.
  destruct (String.eqb (clean raw) ""); [discriminate|].
  destruct (is_positioning (clean raw)); simpl; [|discriminate].
  destruct (update_pos (clean raw) cur) eqn:E; simpl; [discriminate|].
  intros [= <-]. exact (update_pos_raises _ _ _ E).
Qed.

Lemma step_layers_raises (st : current_pos * gmap Qc (list (Q * Q))) (raw : string) (e : exn) :
  Layers.step_layers st raw = Raise e -> exists tok, e = ValueError tok.
Proof.
  destruct st as [cur m]. unfold Layers.step_layers.
  destruct (String.eqb (clean raw) ""); [discriminate|].
  destruct (is_positioning (clean raw)); simpl; [|discriminate].
  destruct (update_pos (clean raw) cur) eqn:E; simpl; [discriminate|].
  intros [= <-]. exact (update_pos_raises _ _ _ E).
Qed.

Lemma parse_gcode_detailed_outcome (lines : list string) :
  match parse_gcode_detailed lines with
  | Ok _ => forallb line_ok lines = true
  | Raise e => forallb line_ok lines = false /\ exists tok, e = ValueError tok
  end.
Proof.
  unfold parse_gcode_detailed.
  pose proof (for_each_is_ok step_detailed step_detailed_is_ok lines (initial_pos, [])) as Hok.
  destruct (for_each step_detailed (initial_pos, []) lines) as [st|e] eqn:E; simpl in *.
  - symmetry. exact Hok.
  - split; [symmetry; exact Hok|].
    exact (for_each_raises step_detailed _ step_detailed_raises _ _ _ E).
Qed.

Lemma parse_gcode_outcome (lines : list string) :
  match Layers.parse_gcode lines with
  | Ok _ => forallb line_ok lines = true
  | Raise e => forallb line_ok lines = false /\ exists tok, e = ValueError tok
  end.
Proof.
  unfold Layers.parse_gcode.
  pose proof (for_each_is_ok Layers.step_layers step_layers_is_ok lines (initial_pos, ∅)) as Hok.
  destruct (for_each Layers.step_layers (initial_pos, ∅) lines) as [st|e] eqn:E; simpl in *.
  - symmetry. exact Hok.
  - split; [symmetry; exact Hok|].
    exact (for_each_raises Layers.step_layers _ step_layers_raises _ _ _ E).
Qed.

(** C4, as the code has it.  A malformed number in a coordinate field of
    a line that starts with G0 or G1 is not skipped: [float] raises
    [ValueError] and the whole parse ends with it.  Both parsers return
    exactly when every such field of every such line holds a number. *)
Theorem malformed_number_aborts (lines : list string) :
  match parse_gcode_detailed lines with
  | Ok _ => forallb line_ok lines = true
  | Raise e => forallb line_ok lines = false /\ exists tok, e = ValueError tok
  end
  /\
  match Layers.parse_gcode lines with
  | Ok _ => forallb line_ok lines = true
  | Raise e => forallb line_ok lines = false /\ exists tok, e = ValueError tok
  end.
Proof.
  split; [apply parse_gcode_detailed_outcome | apply parse_gcode_outcome].
Qed.

(** C4, as the specification words it, fails: the token [1.2.3] matches
    the X field, and the parse of a stream that holds it ends with the
    exception instead of going on to the next line. *)
Lemma malformed_number_counterexample :
  Text.re_search "X" "G1 X1.2.3 Y4 E1" = Some "1.2.3"
  /\ parse_gcode_detailed ["G1 X1.2.3 Y4 E1"; "G1 X2 Y2 E1"] = Raise (ValueError "1.2.3")
  /\ Layers.parse_gcode ["G1 X1.2.3 Y4 E1"; "G1 X2 Y2 E1"] = Raise (ValueError "1.2.3").
Proof. repeat split; reflexivity. Qed.

End ParserClaims.

(** ** Layer grouping *)

Section LayerGrouping.
Import Parser Layers Spec.

Lemma bucket_append_to (m : gmap Qc (list (Q * Q))) (k k' : Qc) (p : Q * Q) :
  bucket (append_to m k p) k' = if decide (k = k') then bucket m k ++ [p] else bucket m k'.
Proof.
  unfold append_to, bucket at 1. destruct (decide (k = k')) as [<-|Hne].
  - rewrite lookup_insert_eq. reflexivity.
  - rewrite lookup_insert_ne by exact Hne. reflexivity.
Qed.

Lemma total_points_append_to (m : gmap Qc (list (Q * Q))) (k : Qc) (p : Q * Q) :
  total_points (append_to m k p) = S (total_points m).
Proof.
  unfold append_to, total_points, bucket.
  destruct (m !! k) as [l|] eqn:E; simpl.
  - rewrite <- insert_delete_eq.
    rewrite map_fold_insert_L; [| intros; lia | apply lookup_delete_eq].
    rewrite (map_fold_delete_L _ _ k l m); [| intros; lia | exact E].
    rewrite length_app. simpl. lia.
  - rewrite map_fold_insert_L; [| intros; lia | exact E]. reflexivity.
Qed.

Lemma group_by_layer_snoc (ps : list position) (p : position) :
  group_by_layer (ps ++ [p])
  = append_to (group_by_layer ps) (round1 p.2) (p.1.1, p.1.2).
Proof.
  unfold group_by_layer. rewrite fold_left_app. destruct p as [[x y] z]. reflexivity.
Qed.

Lemma layer_of_snoc (k : Qc) (ps : list position) (p : position) :
  layer_of k (ps ++ [p])
  = layer_of k ps ++ (if decide (round1 p.2 = k) then [(p.1.1, p.1.2)] else []).
Proof.
  unfold layer_of. rewrite List.filter_app, map_app. simpl.
  destruct (decide (round1 p.2 = k)) as [H|H].
  - rewrite (bool_decide_eq_true_2 _ H). reflexivity.
  - rewrite (bool_decide_eq_false_2 _ H). reflexivity.
Qed.

Lemma total_points_group (ps : list position) :
  total_points (group_by_layer ps) = length ps.
Proof.
  induction ps as [|p ps IH] using rev_ind; [reflexivity|].
  rewrite group_by_layer_snoc, total_points_append_to, IH, length_app. simpl. lia.
Qed.

Lemma bucket_group (ps : list position) (k : Qc) :
  bucket (group_by_layer ps) k = layer_of k ps.
Proof.
  induction ps as [|p ps IH] using rev_ind; [reflexivity|].
  rewrite group_by_layer_snoc, bucket_append_to, layer_of_snoc.
  destruct (decide (round1 p.2 = k)) as [<-|Hne].
  - rewrite IH. reflexivity.
  - rewrite IH, app_nil_r. reflexivity.
Qed.

(** A key is in the dictionary exactly when a position has it. *)
Lemma lookup_group (ps : list position) (k : Qc) :
  group_by_layer ps !! k = None <-> layer_of k ps = [].
Proof.
  induction ps as [|p ps IH] using rev_ind; [split; reflexivity|].
  rewrite group_by_layer_snoc, layer_of_snoc. unfold append_to.
  destruct (decide (round1 p.2 = k)) as [<-|Hne].
  - rewrite lookup_insert_eq. split; [discriminate|].
    intros H. apply app_eq_nil in H as [_ H]. discriminate.
  - rewrite lookup_insert_ne by exact Hne. rewrite app_nil_r. exact IH.
Qed.

(** [parse_gcode] is the grouping of the positions it records. *)
Lemma step_layers_simulates (cur : current_pos) (ps : list position) (raw : string) :
  match step_recorded (cur, ps) raw with
  | Ok (cur', ps') => step_layers (cur, group_by_layer ps) raw = Ok (cur', group_by_layer ps')
  | Raise e => step_layers (cur, group_by_layer ps) raw = Raise e
  end.
Proof.
  unfold step_recorded, step_layers.
  destruct (String.eqb (clean raw) ""); [reflexivity|].
  destruct (is_positioning (clean raw)); [|reflexivity].
  destruct (update_pos (clean raw) cur) as [cur'|e]; [|reflexivity].
  unfold mbind, result_bind.
  destruct (Text.startswith "G1" (clean raw)); [|reflexivity].
  rewrite group_by_layer_snoc. reflexivity.
Qed.

Lemma for_each_layers_simulates (lines : list string) :
  forall (cur : current_pos) (ps : list position),
  match for_each step_recorded (cur, ps) lines with
  | Ok (cur', ps') =>
      for_each step_layers (cur, group_by_layer ps) lines = Ok (cur', group_by_layer ps')
  | Raise e => for_each step_layers (cur, group_by_layer ps) lines = Raise e
  end.
Proof.
  induction lines as [|raw lines IH]; intros cur ps; [reflexivity|].
  rewrite !for_each_cons.
  pose proof (step_layers_simulates cur ps raw) as Hstep.
  destruct (step_recorded (cur, ps) raw) as [[cur1 ps1]|e]; rewrite Hstep;
    unfold mbind, result_bind.
  - apply IH.
  - reflexivity.
Qed.

Lemma parse_gcode_groups (lines : list string) :
  match recorded_positions lines with
  | Ok ps => parse_gcode lines = Ok (group_by_layer ps)
  | Raise e => parse_gcode lines = Raise e
  end.
Proof.
  unfold recorded_positions, parse_gcode.
  pose proof (for_each_layers_simulates lines initial_pos []) as H.
  change (group_by_layer []) with (∅ : gmap Qc (list (Q * Q))) in H.
  destruct (for_each step_recorded (initial_pos, []) lines) as [[cur ps]|e];
    rewrite H; reflexivity.
Qed.

(** The key [round(z, 1)] is the multiple of 0.1 nearest to [z], the
    even multiple when [z] lies halfway between two. *)
Lemma round1_nearest_tenth (z : Q) :
  exists n : Z,
    this (round1 z) == inject_Z n / 10
    /\ (forall m : Z, Qabs (inject_Z n / 10 - z) <= Qabs (inject_Z m / 10 - z))
    /\ (Qabs (inject_Z n / 10 - z) == 1 # 20 -> Z.even n = true).
Proof.
  exists (round_half_even (z * 10)).
  split; [unfold round1; simpl; apply Qred_correct|].
  pose proof (round_half_even_spec (z * 10)) as Hn. cbv zeta in Hn.
  generalize dependent (round_half_even (z * 10)). intros n Hn.
  split.
  - intros m.
    assert (Hm : inject_Z m <= inject_Z n - 1 \/ inject_Z m == inject_Z n
                 \/ inject_Z n + 1 <= inject_Z m).
    { destruct (Z_lt_le_dec m n) as [H|H].
      - left. assert (H' : (m <= n - 1)%Z) by lia.
        rewrite Zle_Qle in H'. unfold Zminus in H'. rewrite inject_Z_plus in H'.
        exact H'.
      - destruct (Z.eq_dec m n) as [->|Hne]; [right; left; reflexivity|].
        right. right. assert (H' : (n + 1 <= m)%Z) by lia.
        rewrite Zle_Qle, inject_Z_plus in H'. exact H'. }
    apply (Qabs_case (inject_Z m / 10 - z) (fun v => Qabs (inject_Z n / 10 - z) <= v));
      intros Hs; apply Qabs_Qle_condition;
      unfold Qdiv in *; change (/ 10) with (1 # 10) in *;
      destruct Hn as [[Hn0 Hn1]|[[Hn|Hn] _]];
      destruct Hm as [Hm|[Hm|Hm]]; split; lra.
  - intros Htie. destruct Hn as [[Hn0 Hn1]|[_ Hev]]; [exfalso | exact Hev].
    revert Htie.
    apply (Qabs_case (inject_Z n / 10 - z) (fun v => v == 1 # 20 -> False));
      intros Hs Htie; unfold Qdiv in *; change (/ 10) with (1 # 10) in *; lra.
Qed.

(** C9.  Grouping a sequence of positions by [round(z, 1)] files every
    position under the key that is its rounded Z and under no other: the
    key of a position is the multiple of 0.1 nearest to its Z (the even
    multiple at a tie), the bucket of a key holds, in order, exactly the
    positions that round to it, a key without positions has no bucket,
    and the bucket sizes add up to the length of the sequence.
    [parse_gcode] returns this grouping of the positions it records. *)
Theorem layers_partition_positions :
  (forall positions : list position,
     total_points (group_by_layer positions) = length positions
     /\ (forall k, bucket (group_by_layer positions) k = layer_of k positions)
     /\ (forall k, group_by_layer positions !! k = None <-> layer_of k positions = [])
     /\ (forall p, In p positions ->
                   In (p.1.1, p.1.2) (bucket (group_by_layer positions) (round1 p.2))
                   /\ exists n : Z,
                        this (round1 p.2) == inject_Z n / 10
                        /\ (forall m : Z, Qabs (inject_Z n / 10 - p.2)
                                          <= Qabs (inject_Z m / 10 - p.2))
                        /\ (Qabs (inject_Z n / 10 - p.2) == 1 # 20 -> Z.even n = true)))
  /\ (forall lines : list string,
        match recorded_positions lines with
        | Ok positions => parse_gcode lines = Ok (group_by_layer positions)
        | Raise e => parse_gcode lines = Raise e
        end).
Proof.
  split; [|exact parse_gcode_groups].
  intros positions. split; [apply total_points_group|].
  split; [intros k; apply bucket_group|].
  split; [intros k; apply lookup_group|].
  intros p Hp. split; [|apply round1_nearest_tenth].
  rewrite bucket_group. unfold layer_of.
  apply (in_map (fun q : position => (q.1.1, q.1.2))).
  apply List.filter_In. split; [exact Hp|]. apply bool_decide_eq_true_2. reflexivity.
Qed.

Example round1_examples :
  round1 (26 # 100) = Q2Qc (3 # 10)
  /\ round1 (1 # 4) = Q2Qc (2 # 10)
  /\ round1 (3 # 4) = Q2Qc (8 # 10)
  /\ round1 (-(26 # 100)) = Q2Qc (-(3 # 10))
  /\ round1 (2 # 100) = Q2Qc 0.
Proof. repeat split; apply Qc_is_canon; reflexivity. Qed.

(** The keys of heights read from a file are those of their floats: the
    float of 0.15 lies below 0.15 and is filed under 0.1, the float of
    0.45 lies above 0.45 and is filed under 0.5, and 0.25, a float itself
    and halfway between two keys, goes to the even key 0.2. *)
Example float_keys_example :
  match parse_gcode ["G1 X1 Y1 Z0.15"; "G1 X2 Y2 Z0.45"; "G1 X3 Y3 Z0.25"] with
  | Ok layers =>
      bucket layers (Q2Qc (1 # 10)) = [(1, 1)]
      /\ bucket layers (Q2Qc (5 # 10)) = [(2, 2)]
      /\ bucket layers (Q2Qc (2 # 10)) = [(3, 3)]
      /\ size layers = 3%nat
  | Raise _ => False
  end.
Proof. vm_compute. repeat split; reflexivity. Qed.

End LayerGrouping.

(** ** What the parsers record *)

Section Recording.
Import Parser Layers Spec.

(** [parse_gcode_detailed] records one position for each line that, once
    cleaned, starts with G1 and holds an E. *)
Lemma detailed_positions_count (lines : list string) :
  forall cur ps cur' ps',
    for_each step_detailed (cur, ps) lines = Ok (cur', ps') ->
    length ps' = (length ps + length (List.filter (fun raw => is_extrusion (clean raw)) lines))%nat.
Proof.
  induction lines as [|raw lines IH]; intros cur ps cur' ps'.
  - simpl. intros [= <- <-]. lia.
  - rewrite for_each_cons.
    destruct (step_detailed (cur, ps) raw) as [[cur1 ps1]|e] eqn:E; [|discriminate].
    unfold mbind, result_bind. intros Hrest.
    rewrite (IH _ _ _ _ Hrest).
    destruct (step_detailed_spec _ _ _ _ _ E) as [_ ->].
    cbn [List.filter].
    destruct (is_extrusion (clean raw)); [rewrite length_app|]; simpl; lia.
Qed.

Theorem parse_gcode_detailed_count (lines : list string) :
  match parse_gcode_detailed lines with
  | Ok positions =>
      length positions = length (List.filter (fun raw => is_extrusion (clean raw)) lines)
  | Raise _ => forallb line_ok lines = false
  end.
Proof.
  pose proof (parse_gcode_detailed_outcome lines) as Hok.
  unfold parse_gcode_detailed in *.
  destruct (for_each step_detailed (initial_pos, []) lines) as [[cur ps]|e] eqn:E.
  - unfold mbind, result_bind. simpl.
    rewrite (detailed_positions_count _ _ _ _ _ E). reflexivity.
  - exact (proj1 Hok).
Qed.

(** [parse_gcode] records one point for each line that, once cleaned,
    starts with G1, with or without an E. *)
Lemma recorded_count (lines : list string) :
  forall cur ps cur' ps',
    for_each step_recorded (cur, ps) lines = Ok (cur', ps') ->
    length ps' = (length ps
                  + length (List.filter (fun raw => Text.startswith "G1" (clean raw)) lines))%nat.
Proof.
  induction lines as [|raw lines IH]; intros cur ps cur' ps'.
  - simpl. intros [= <- <-]. lia.
  - rewrite for_each_cons.
    destruct (step_recorded (cur, ps) raw) as [[cur1 ps1]|e] eqn:E; [|discriminate].
    unfold mbind, result_bind. intros Hrest.
    rewrite (IH _ _ _ _ Hrest). cbn [List.filter].
    revert E. unfold step_recorded.
    destruct (String.eqb (clean raw) "") eqn:Eempty.
    + apply String.eqb_eq in Eempty. rewrite Eempty. intros [= <- <-]. simpl. lia.
    + unfold is_positioning.
      destruct (Text.startswith "G1" (clean raw)) eqn:E1.
      * rewrite orb_true_r.
        destruct (update_pos (clean raw) cur) as [c|]; [|discriminate].
        unfold mbind, result_bind. intros [= <- <-]. rewrite length_app. simpl. lia.
      * rewrite orb_false_r.
        destruct (Text.startswith "G0" (clean raw)).
        -- destruct (update_pos (clean raw) cur) as [c|]; [|discriminate].
           unfold mbind, result_bind. intros [= <- <-]. simpl. lia.
        -- intros [= <- <-]. simpl. lia.
Qed.

Theorem parse_gcode_count (lines : list string) :
  match parse_gcode lines with
  | Ok layers =>
      total_points layers
      = length (List.filter (fun raw => Text.startswith "G1" (clean raw)) lines)
  | Raise _ => forallb line_ok lines = false
  end.
Proof.
  pose proof (parse_gcode_outcome lines) as Hok.
  pose proof (parse_gcode_groups lines) as Hgroup.
  unfold recorded_positions in Hgroup.
  destruct (for_each step_recorded (initial_pos, []) lines) as [[cur ps]|e] eqn:E;
    unfold mbind, result_bind in Hgroup; rewrite Hgroup in *.
  - simpl. rewrite total_points_group.
    rewrite (recorded_count _ _ _ _ _ E). reflexivity.
  - exact (proj1 Hok).
Qed.

(** C2 at the failing input: a G1 move without an E.  It is no extrusion
    line, and [parse_gcode_detailed] records nothing for it, yet
    [parse_gcode] files its point. *)
Theorem move_without_marker_is_recorded :
  is_extrusion (clean "G1 X1 Y1") = false
  /\ parse_gcode_detailed ["G1 X1 Y1"] = Ok []
  /\ parse_gcode ["G1 X1 Y1"] = Ok (group_by_layer [(1, 1, 0)])
  /\ total_points (group_by_layer [(1, 1, 0)]) = 1%nat
  /\ bucket (group_by_layer [(1, 1, 0)]) (round1 0) = [(1, 1)].
Proof.
  split; [reflexivity|]. split; [reflexivity|].
  split; [exact (parse_gcode_groups ["G1 X1 Y1"])|].
  split; [apply total_points_group | apply bucket_group].
Qed.

(** C5 at the failing input: G10 is another opcode, but its text starts
    with G1, so the line moves the motion state, the next extrusion is
    recorded at the moved position, and [parse_gcode] files the G10 line
    itself. *)
Theorem prefix_opcode_is_positioning :
  is_positioning (clean "G10 L2 P1 X5 Y5 Z0") = true
  /\ step_detailed (initial_pos, []) "G10 L2 P1 X5 Y5 Z0" = Ok (mkPos 5 5 0, [])
  /\ parse_gcode_detailed ["G10 L2 P1 X5 Y5 Z0"; "G1 E1"] = Ok [(5, 5, 0)]
  /\ parse_gcode_detailed ["G1 E1"] = Ok [(0, 0, 0)]
  /\ recorded_positions ["G10 L2 P1 X5 Y5 Z0"] = Ok [(5, 5, 0)].
Proof. repeat split; reflexivity. Qed.

(** A line whose cleaned text starts with neither G0 nor G1 changes
    nothing in either parser. *)
Theorem other_lines_are_ignored (raw : string) :
  is_positioning (clean raw) = false ->
  (forall st, step_detailed st raw = Ok st) /\ (forall st, step_layers st raw = Ok st).
Proof.
  intros Hpos. unfold is_positioning in Hpos.
  apply orb_false_iff in Hpos as [H0 H1].
  split; intros [cur t].
  - unfold step_detailed, is_positioning, is_extrusion. rewrite H0, H1.
    destruct (String.eqb (clean raw) ""); reflexivity.
  - unfold step_layers, is_positioning. rewrite H0, H1.
    destruct (String.eqb (clean raw) ""); reflexivity.
Qed.

Lemma other_lines_are_ignored_witness :
  is_positioning (clean "M104 S200 ; heat") = false
  /\ step_detailed (mkPos 1 2 3, [(1, 2, 3)]) "M104 S200 ; heat" = Ok (mkPos 1 2 3, [(1, 2, 3)]).
Proof.
  split; [reflexivity|].
  exact (proj1 (other_lines_are_ignored "M104 S200 ; heat" eq_refl) (mkPos 1 2 3, [(1, 2, 3)])).
Defined.

End Recording.

(** ** Numbers: [int], the comparisons, [min] and [max] *)

Section Numbers.

Lemma Qltb_lt (a b : Q) : Qltb a b = true <-> a < b.
Proof.
  unfold Qltb. rewrite negb_true_iff. split.
  - intros H. apply Qnot_le_lt. intros Hle. apply Qle_bool_iff in Hle. congruence.
  - intros H. destruct (Qle_bool b a) eqn:E; [|reflexivity].
    apply Qle_bool_iff in E. exfalso. exact (Qlt_not_le _ _ H E).
Qed.

Lemma Qltb_ge (a b : Q) : Qltb a b = false <-> b <= a.
Proof.
  unfold Qltb. rewrite negb_false_iff. apply Qle_bool_iff.
Qed.

(** On a value that is not negative [int] is the floor. *)
Lemma py_int_floor (q : Q) : 0 <= q -> py_int q = Qfloor q.
Proof.
  destruct q as [n d]. unfold Qle, py_int, Qfloor. simpl. intros H.
  apply Z.quot_div_nonneg; lia.
Qed.

Lemma py_int_opp (q : Q) : py_int (- q) = (- py_int q)%Z.
Proof. destruct q as [n d]. unfold py_int. simpl. apply Z.quot_opp_l. lia. Qed.

Lemma py_int_bounds (q : Q) (n : Z) :
  0 <= q -> q <= inject_Z n -> (0 <= py_int q <= n)%Z.
Proof.
  intros H0 Hn. rewrite (py_int_floor q H0). split.
  - change 0%Z with (Qfloor 0). apply Qfloor_resp_le. exact H0.
  - rewrite <- (Qfloor_Z n). apply Qfloor_resp_le. exact Hn.
Qed.

(** [int] never decreases. *)
Lemma py_int_monotone (p q : Q) : p <= q -> (py_int p <= py_int q)%Z.
Proof.
  intros Hpq.
  destruct (Qlt_le_dec p 0) as [Hp|Hp]; destruct (Qlt_le_dec q 0) as [Hq|Hq].
  - assert (Hp' : 0 <= - p) by lra. assert (Hq' : 0 <= - q) by lra.
    assert (H : (py_int (- q) <= py_int (- p))%Z).
    { rewrite (py_int_floor _ Hp'), (py_int_floor _ Hq'). apply Qfloor_resp_le. lra. }
    rewrite !py_int_opp in H. lia.
  - assert (Hp' : 0 <= - p) by lra.
    assert (H1 : (0 <= py_int (- p))%Z).
    { rewrite (py_int_floor _ Hp'). change 0%Z with (Qfloor 0). apply Qfloor_resp_le. exact Hp'. }
    assert (H2 : (0 <= py_int q)%Z).
    { rewrite (py_int_floor _ Hq). change 0%Z with (Qfloor 0). apply Qfloor_resp_le. exact Hq. }
    rewrite py_int_opp in H1. lia.
  - lra.
  - rewrite (py_int_floor _ Hp), (py_int_floor _ Hq). apply Qfloor_resp_le. exact Hpq.
Qed.

(** The position of a value between [lo] and [hi], as a fraction. *)
Lemma fraction_bounds (lo hi v : Q) :
  lo < hi -> lo <= v -> v <= hi -> 0 <= (v - lo) / (hi - lo) /\ (v - lo) / (hi - lo) <= 1.
Proof.
  intros Hspan Hlo Hhi. split.
  - apply Qle_shift_div_l; lra.
  - apply Qle_shift_div_r; lra.
Qed.

Lemma scaled_fraction_bounds (f : Q) (n : Z) :
  (0 <= n)%Z -> 0 <= f -> f <= 1 -> 0 <= f * inject_Z n /\ f * inject_Z n <= inject_Z n.
Proof.
  intros Hn H0 H1.
  assert (Hn' : 0 <= inject_Z n).
  { change 0 with (inject_Z 0). rewrite <- Zle_Qle. exact Hn. }
  split.
  - apply Qmult_le_0_compat; assumption.
  - apply Qle_trans with (1 * inject_Z n).
    + apply Qmult_le_compat_r; assumption.
    + rewrite Qmult_1_l. apply Qle_refl.
Qed.

Lemma py_min_spec (l : list Q) : forall x : Q,
  Raster.py_min x l <= x /\ Forall (fun y => Raster.py_min x l <= y) l.
Proof.
  unfold Raster.py_min.
  induction l as [|y l IH]; intros x; simpl.
  - split; [lra | constructor].
  - destruct (IH (if Qltb y x then y else x)) as [H1 H2].
    destruct (Qltb y x) eqn:E.
    + apply Qltb_lt in E. split; [lra|]. constructor; [exact H1 | exact H2].
    + apply Qltb_ge in E. split; [exact H1|]. constructor; [lra | exact H2].
Qed.

Lemma py_max_spec (l : list Q) : forall x : Q,
  x <= Raster.py_max x l /\ Forall (fun y => y <= Raster.py_max x l) l.
Proof.
  unfold Raster.py_max.
  induction l as [|y l IH]; intros x; simpl.
  - split; [lra | constructor].
  - destruct (IH (if Qltb x y then y else x)) as [H1 H2].
    destruct (Qltb x y) eqn:E.
    + apply Qltb_lt in E. split; [lra|]. constructor; [exact H1 | exact H2].
    + apply Qltb_ge in E. split; [exact H1|]. constructor; [lra | exact H2].
Qed.

End Numbers.

(** ** The grid *)

Section Grid.
Import Raster.

Lemma blank_grid_shape (width height : nat) :
  grid_shape width height (blank_grid width height).
Proof.
  unfold grid_shape, blank_grid. split.
  - apply length_replicate.
  - apply Forall_replicate. apply length_replicate.
Qed.

Lemma blank_grid_get (width height r c : nat) :
  (r < height)%nat -> (c < width)%nat ->
  grid_get (blank_grid width height) r c = Ok Blank.
Proof.
  intros Hr Hc. unfold grid_get, blank_grid.
  rewrite lookup_replicate_2 by exact Hr.
  rewrite lookup_replicate_2 by exact Hc. reflexivity.
Qed.

Lemma grid_row (width height : nat) (g : list (list glyph)) (r : nat) :
  grid_shape width height g -> (r < height)%nat ->
  exists row, g !! r = Some row /\ length row = width.
Proof.
  intros [Hlen Hrows] Hr.
  destruct (lookup_lt_is_Some_2 g r) as [row Hrow]; [lia|].
  exists row. split; [exact Hrow|].
  exact (proj1 (Forall_lookup _ g) Hrows r row Hrow).
Qed.

Lemma grid_get_in_range (width height : nat) (g : list (list glyph)) (r c : nat) :
  grid_shape width height g -> (r < height)%nat -> (c < width)%nat ->
  exists v, grid_get g r c = Ok v.
Proof.
  intros Hg Hr Hc. destruct (grid_row _ _ _ _ Hg Hr) as [row [Hrow Hlen]].
  destruct (lookup_lt_is_Some_2 row c) as [v Hv]; [lia|].
  exists v. unfold grid_get. rewrite Hrow, Hv. reflexivity.
Qed.

Lemma grid_get_range (width height : nat) (g : list (list glyph)) (r c : nat) (v : glyph) :
  grid_shape width height g -> grid_get g r c = Ok v ->
  (r < height)%nat /\ (c < width)%nat.
Proof.
  intros [Hh Hrows] Hget. unfold grid_get in Hget.
  destruct (g !! r) as [row|] eqn:Erow; [|discriminate].
  destruct (row !! c) as [v'|] eqn:Ecell; [|discriminate].
  split.
  - rewrite <- Hh. apply lookup_lt_is_Some. eauto.
  - rewrite <- (proj1 (Forall_lookup _ g) Hrows r row Erow).
    apply lookup_lt_is_Some. eauto.
Qed.

(** An assignment inside the grid succeeds, keeps the shape and changes
    the one cell. *)
Lemma grid_set_spec (width height : nat) (g : list (list glyph)) (r c : nat) (v : glyph) :
  grid_shape width height g -> (r < height)%nat -> (c < width)%nat ->
  exists g', grid_set g r c v = Ok g'
             /\ grid_shape width height g'
             /\ forall r' c', grid_get g' r' c'
                              = if decide (r' = r /\ c' = c) then Ok v else grid_get g r' c'.
Proof.
  intros Hg Hr Hc. destruct (grid_row _ _ _ _ Hg Hr) as [row [Hrow Hlen]].
  exists (<[r := <[c := v]> row]> g). unfold grid_set. rewrite Hrow.
  destruct (decide (c < length row)%nat) as [_|Hbad]; [|lia].
  split; [reflexivity|]. split.
  - destruct Hg as [Hh Hrows]. split.
    + rewrite length_insert. exact Hh.
    + apply Forall_insert; [exact Hrows|]. rewrite length_insert. exact Hlen.
  - intros r' c'. unfold grid_get.
    destruct (decide (r' = r)) as [->|Hne].
    + rewrite list_lookup_insert_eq by (destruct Hg; lia).
      rewrite Hrow.
      destruct (decide (c' = c)) as [->|Hnc].
      * rewrite list_lookup_insert_eq by lia.
        destruct (decide (r = r /\ c = c)) as [_|Hbad]; [reflexivity | tauto].
      * rewrite list_lookup_insert_ne by congruence.
        destruct (decide (r = r /\ c' = c)) as [[_ Hbad]|_]; [contradiction | reflexivity].
    + rewrite list_lookup_insert_ne by congruence.
      destruct (decide (r' = r /\ c' = c)) as [[Hbad _]|_]; [contradiction | reflexivity].
Qed.

(** A guarded axis assignment. *)
Lemma axis_cell_spec (ow : glyph -> bool) (axis : glyph) (width height : nat)
    (g : list (list glyph)) (r c : nat) :
  grid_shape width height g -> (r < height)%nat -> (c < width)%nat ->
  exists g' v, grid_get g r c = Ok v
               /\ axis_cell ow axis r c g = Ok g'
               /\ grid_shape width height g'
               /\ forall r' c', grid_get g' r' c'
                    = if decide (r' = r /\ c' = c) then Ok (overwrite ow axis v)
                      else grid_get g r' c'.
Proof.
  intros Hg Hr Hc. destruct (grid_get_in_range _ _ _ _ _ Hg Hr Hc) as [v Hv].
  unfold axis_cell, overwrite. rewrite Hv. unfold mbind, result_bind.
  destruct (ow v) eqn:E.
  - destruct (grid_set_spec _ _ _ _ _ axis Hg Hr Hc) as [g' [Hset [Hshape Hcells]]].
    exists g', v. rewrite E. split; [reflexivity|]. split; [exact Hset|].
    split; [exact Hshape | exact Hcells].
  - exists g, v. rewrite E. split; [reflexivity|]. split; [reflexivity|]. split; [exact Hg|].
    intros r' c'. destruct (decide (r' = r /\ c' = c)) as [[-> ->]|_]; [exact Hv | reflexivity].
Qed.

End Grid.

(** ** The axes *)

Section Axes.
Import Raster.

Lemma for_each_map {S A B : Type} (body : S -> B -> result S) (f : A -> B) (l : list A) :
  forall st, for_each body st (map f l) = for_each (fun st a => body st (f a)) st l.
Proof.
  induction l as [|a l IH]; intros st; [reflexivity|].
  simpl map. rewrite !for_each_cons.
  destruct (body st (f a)); unfold mbind, result_bind; [apply IH | reflexivity].
Qed.

(** A pass of guarded assignments over distinct cells of the grid: it
    succeeds, and a cell shows the axis exactly when it is one of the
    cells of the pass and was overwritable. *)
Lemma axis_pass_spec (ow : glyph -> bool) (axis : glyph) (width height : nat)
    (cells : list (nat * nat)) :
  NoDup cells ->
  Forall (fun rc : nat * nat => (rc.1 < height)%nat /\ (rc.2 < width)%nat) cells ->
  forall g, grid_shape width height g ->
  exists g', for_each (fun g (rc : nat * nat) => axis_cell ow axis rc.1 rc.2 g) g cells = Ok g'
             /\ grid_shape width height g'
             /\ forall r c v, grid_get g r c = Ok v ->
                  grid_get g' r c
                  = Ok (if decide ((r, c) ∈ cells) then overwrite ow axis v else v).
Proof.
  induction cells as [|[r0 c0] cells IH]; intros Hnd Hin g Hg.
  - exists g. split; [reflexivity|]. split; [exact Hg|].
    intros r c v Hv. rewrite Hv.
    destruct (decide ((r, c) ∈ [])) as [Hbad|_]; [|reflexivity].
    exfalso. exact (not_elem_of_nil _ Hbad).
  - apply NoDup_cons in Hnd as [Hfresh Hnd].
    apply Forall_cons in Hin as [[Hr0 Hc0] Hin]. simpl in Hr0, Hc0.
    destruct (axis_cell_spec ow axis _ _ g r0 c0 Hg Hr0 Hc0) as [g1 [v0 [Hv0 [H1 [Hg1 Hcells1]]]]].
    destruct (IH Hnd Hin g1 Hg1) as [g' [Hrun [Hg' Hcells]]].
    exists g'. rewrite for_each_cons. simpl fst. simpl snd. rewrite H1.
    unfold mbind, result_bind. split; [exact Hrun|]. split; [exact Hg'|].
    intros r c v Hv.
    specialize (Hcells1 r c).
    destruct (decide (r = r0 /\ c = c0)) as [[-> ->]|Hne].
    + rewrite Hv in Hv0. injection Hv0 as <-.
      rewrite (Hcells _ _ _ Hcells1).
      destruct (decide ((r0, c0) ∈ cells)) as [Hbad|_]; [contradiction|].
      destruct (decide ((r0, c0) ∈ (r0, c0) :: cells)) as [_|Hbad]; [reflexivity|].
      exfalso. apply Hbad. apply elem_of_cons. left. reflexivity.
    + rewrite Hv in Hcells1. rewrite (Hcells _ _ _ Hcells1).
      destruct (decide ((r, c) ∈ cells)) as [Hmem|Hmem];
        destruct (decide ((r, c) ∈ (r0, c0) :: cells)) as [Hmem'|Hmem']; try reflexivity.
      * exfalso. apply Hmem'. apply elem_of_cons. right. exact Hmem.
      * exfalso. apply elem_of_cons in Hmem' as [[= -> ->]|Hmem']; [tauto | contradiction].
Qed.

Lemma column_cells (zero_x height : nat) (r c : nat) :
  (r, c) ∈ map (fun i : nat => (i, zero_x)) (seq 0 height) <-> (r < height)%nat /\ c = zero_x.
Proof.
  rewrite list_elem_of_In, in_map_iff. split.
  - intros [i [[= <- <-] Hi]]. apply in_seq in Hi. split; [lia | reflexivity].
  - intros [Hr ->]. exists r. split; [reflexivity|]. apply in_seq. lia.
Qed.

Lemma row_cells (zero_y width : nat) (r c : nat) :
  (r, c) ∈ map (fun j : nat => (zero_y, j)) (seq 0 width) <-> r = zero_y /\ (c < width)%nat.
Proof.
  rewrite list_elem_of_In, in_map_iff. split.
  - intros [j [[= <- <-] Hj]]. apply in_seq in Hj. split; [reflexivity | lia].
  - intros [-> Hc]. exists c. split; [reflexivity|]. apply in_seq. lia.
Qed.

(** The axes block: it succeeds on a grid that holds the crossing, the
    crossing cell shows the cross, and every other cell of the grid shows
    an axis exactly when it lies on the axis and was overwritable. *)
Lemma draw_axes_spec (ow : glyph -> bool) (zero_x zero_y width height : nat)
    (g : list (list glyph)) :
  grid_shape width height g -> (zero_x < width)%nat -> (zero_y < height)%nat ->
  exists g', draw_axes ow zero_x zero_y width height g = Ok g'
             /\ grid_shape width height g'
             /\ forall r c v, grid_get g r c = Ok v ->
                  grid_get g' r c
                  = Ok (if decide (r = zero_y /\ c = zero_x) then Cross
                        else if decide (c = zero_x) then overwrite ow VBar v
                        else if decide (r = zero_y) then overwrite ow HBar v
                        else v).
Proof.
  intros Hg Hzx Hzy. unfold draw_axes.
  destruct (axis_pass_spec ow VBar width height
              (map (fun i : nat => (i, zero_x)) (seq 0 height))) with (g := g)
    as [g1 [Hrun1 [Hg1 Hcells1]]].
  { apply NoDup_fmap_2; [intros i j [= ->]; reflexivity | apply NoDup_seq]. }
  { apply Forall_forall. intros [r c] Hin. apply column_cells in Hin as [Hr ->].
    split; assumption. }
  { exact Hg. }
  rewrite for_each_map in Hrun1. simpl in Hrun1. rewrite Hrun1. unfold mbind at 1, result_bind at 1.
  destruct (axis_pass_spec ow HBar width height
              (map (fun j : nat => (zero_y, j)) (seq 0 width))) with (g := g1)
    as [g2 [Hrun2 [Hg2 Hcells2]]].
  { apply NoDup_fmap_2; [intros i j [= ->]; reflexivity | apply NoDup_seq]. }
  { apply Forall_forall. intros [r c] Hin. apply row_cells in Hin as [-> Hc].
    split; assumption. }
  { exact Hg1. }
  rewrite for_each_map in Hrun2. simpl in Hrun2. rewrite Hrun2. unfold mbind, result_bind.
  destruct (grid_set_spec _ _ g2 zero_y zero_x Cross Hg2 Hzy Hzx) as [g3 [Hset [Hg3 Hcells3]]].
  exists g3. split; [exact Hset|]. split; [exact Hg3|].
  intros r c v Hv. rewrite Hcells3.
  destruct (decide (r = zero_y /\ c = zero_x)) as [_|Hne]; [reflexivity|].
  rewrite (Hcells2 _ _ _ (Hcells1 _ _ _ Hv)).
  destruct (grid_get_range _ _ _ _ _ _ Hg Hv) as [Hr Hc].
  destruct (decide ((r, c) ∈ map (fun i : nat => (i, zero_x)) (seq 0 height))) as [H1|H1];
    destruct (decide ((r, c) ∈ map (fun j : nat => (zero_y, j)) (seq 0 width))) as [H2|H2];
    rewrite column_cells in H1; rewrite row_cells in H2;
    destruct (decide (c = zero_x)) as [Ec|Ec]; destruct (decide (r = zero_y)) as [Er|Er];
    try reflexivity; exfalso; tauto.
Qed.

End Axes.

(** ** Plotting *)

Section Plotting.
Import Raster.

(** A loop whose body succeeds and keeps an invariant on the elements it
    meets succeeds and keeps it. *)
Lemma for_each_total {S A : Type} (body : S -> A -> result S) (P : S -> Prop) (l : list A) :
  (forall st a, P st -> In a l -> exists st', body st a = Ok st' /\ P st') ->
  forall st, P st -> exists st', for_each body st l = Ok st' /\ P st'.
Proof.
  induction l as [|a l IH]; intros Hbody st HP.
  - exists st. split; [reflexivity | exact HP].
  - destruct (Hbody st a HP (or_introl eq_refl)) as [st1 [H1 HP1]].
    destruct (IH (fun st a HP Hin => Hbody st a HP (or_intror Hin)) st1 HP1) as [st' [Hrun HP']].
    exists st'. rewrite for_each_cons, H1. split; [exact Hrun | exact HP'].
Qed.

Lemma in_grid_range (width height : nat) (grid_x grid_y : Z) :
  in_grid width height grid_x grid_y = true <->
  (0 <= grid_x < Z.of_nat width)%Z /\ (0 <= grid_y < Z.of_nat height)%Z.
Proof. unfold in_grid. rewrite !andb_true_iff. lia. Qed.

Lemma py_div_ok (a b : Q) : ~ b == 0 -> py_div a b = Ok (a / b).
Proof.
  intros Hb. unfold py_div. destruct (Qeq_bool b 0) eqn:E; [|reflexivity].
  apply Qeq_bool_iff in E. contradiction.
Qed.

Lemma circle_cell_total (width height i j : nat) (g : list (list glyph)) :
  (2 <= width)%nat -> (2 <= height)%nat -> (i < width)%nat -> (j < height)%nat ->
  grid_shape width height g ->
  exists g', circle_cell width height i j g = Ok g' /\ grid_shape width height g'.
Proof.
  intros Hw Hh Hi Hj Hg. unfold circle_cell.
  rewrite py_div_ok.
  2:{ intros H. unfold Qeq in H. simpl in H. lia. }
  unfold mbind at 1, result_bind at 1.
  rewrite py_div_ok.
  2:{ intros H. unfold Qeq in H. simpl in H. lia. }
  unfold mbind, result_bind.
  match goal with |- context [if ?b then _ else _] => destruct b end.
  - destruct (grid_set_spec _ _ g j i Dot Hg Hj Hi) as [g' [Hset [Hg' _]]]. eauto.
  - eauto.
Qed.

Lemma plot_circle_total (width height : nat) (g : list (list glyph)) :
  (2 <= width)%nat -> (2 <= height)%nat -> grid_shape width height g ->
  exists g', plot_circle width height g = Ok g' /\ grid_shape width height g'.
Proof.
  intros Hw Hh Hg. unfold plot_circle.
  apply (for_each_total _ (grid_shape width height)); [|exact Hg].
  intros g1 i Hg1 Hi. apply in_seq in Hi.
  apply (for_each_total _ (grid_shape width height)); [|exact Hg1].
  intros g2 j Hg2 Hj. apply in_seq in Hj.
  apply circle_cell_total; [exact Hw | exact Hh | lia | lia | exact Hg2].
Qed.

(** The data loop of [plot_cross_section] never raises: a point is drawn
    when its cell is in the grid and skipped otherwise. *)
Lemma plot_point_total (width height : nat) (g : list (list glyph)) (p : Q * Q) :
  grid_shape width height g ->
  exists g', plot_point width height g p = Ok g' /\ grid_shape width height g'
             /\ (in_grid width height (grid_xy width height p.1 p.2).1
                         (grid_xy width height p.1 p.2).2 = false -> g' = g).
Proof.
  intros Hg. destruct p as [x y]. cbn [fst snd]. unfold plot_point.
  destruct (grid_xy width height x y) as [gx gy]. cbn [fst snd].
  destruct (in_grid width height gx gy) eqn:Ein.
  - apply in_grid_range in Ein as [Hx Hy].
    destruct (grid_set_spec _ _ g (Z.to_nat gy) (Z.to_nat gx)
                (if sqrt_gt (x * x + y * y) (65 # 10) then OutMark else Block) Hg)
      as [g' [Hset [Hg' _]]]; [lia | lia |].
    exists g'. split; [exact Hset|]. split; [exact Hg' | discriminate].
  - exists g. split; [reflexivity|]. split; [exact Hg | reflexivity].
Qed.

Lemma layer_plot_point_total (w : Q * Q * Q * Q) (width height : nat)
    (g : list (list glyph)) (p : Q * Q) :
  grid_shape width height g ->
  exists g', layer_plot_point w width height g p = Ok g' /\ grid_shape width height g'
             /\ (in_grid width height (layer_grid_xy w width height p.1 p.2).1
                         (layer_grid_xy w width height p.1 p.2).2 = false -> g' = g).
Proof.
  intros Hg. unfold layer_plot_point.
  destruct (layer_grid_xy w width height p.1 p.2) as [gx gy]. cbn [fst snd].
  destruct (in_grid width height gx gy) eqn:Ein.
  - apply in_grid_range in Ein as [Hx Hy].
    destruct (grid_set_spec _ _ g (Z.to_nat gy) (Z.to_nat gx) Block Hg)
      as [g' [Hset [Hg' _]]]; [lia | lia |].
    exists g'. split; [exact Hset|]. split; [exact Hg' | discriminate].
  - exists g. split; [reflexivity|]. split; [exact Hg | reflexivity].
Qed.

Lemma plotted_grid_total (pts : list (Q * Q)) (width height : nat) :
  (2 <= width)%nat -> (2 <= height)%nat ->
  exists g, plotted_grid pts width height = Ok g /\ grid_shape width height g.
Proof.
  intros Hw Hh. unfold plotted_grid.
  destruct (plot_circle_total width height (blank_grid width height) Hw Hh
              (blank_grid_shape width height)) as [g1 [H1 Hg1]].
  rewrite H1. unfold mbind, result_bind.
  apply (for_each_total _ (grid_shape width height)); [|exact Hg1].
  intros g2 p Hg2 _. destruct (plot_point_total width height g2 p Hg2) as [g' [H [Hg' _]]].
  eauto.
Qed.


(** The crossing of [plot_cross_section] is the middle of the grid. *)
Lemma zero_xy_range (width height : nat) :
  (1 <= width)%nat -> (1 <= height)%nat ->
  (Z.to_nat (zero_x width) < width)%nat /\ (Z.to_nat (zero_y height) < height)%nat.
Proof.
  intros Hw Hh. unfold zero_x, zero_y, min_x, max_x, min_y, max_y, extent.
  assert (Hf : forall n : Z, (0 <= n)%Z ->
             (0 <= py_int ((0 - Qopp 8) / (8 - Qopp 8) * inject_Z n) <= n)%Z
             /\ (0 <= py_int ((8 - 0) / (8 - Qopp 8) * inject_Z n) <= n)%Z).
  { intros n Hn.
    assert (Hn' : 0 <= inject_Z n).
    { change 0 with (inject_Z 0). rewrite <- Zle_Qle. exact Hn. }
    split; apply py_int_bounds.
    - apply Qmult_le_0_compat; [|exact Hn']. apply Qle_shift_div_l; lra.
    - apply Qle_trans with (1 * inject_Z n).
      + apply Qmult_le_compat_r; [|exact Hn']. apply Qle_shift_div_r; lra.
      + rewrite Qmult_1_l. apply Qle_refl.
    - apply Qmult_le_0_compat; [|exact Hn']. apply Qle_shift_div_l; lra.
    - apply Qle_trans with (1 * inject_Z n).
      + apply Qmult_le_compat_r; [|exact Hn']. apply Qle_shift_div_r; lra.
      + rewrite Qmult_1_l. apply Qle_refl. }
  destruct (Hf (Z.of_nat width - 1)%Z) as [Hx _]; [lia|].
  destruct (Hf (Z.of_nat height - 1)%Z) as [_ Hy]; [lia|].
  lia.
Qed.

End Plotting.

(** ** The axes and the data: claim C6 *)

Section AxesClaim.
Import Raster.




End AxesClaim.

(** ** From world coordinates to cells: claim C7 *)

Section Cells.
Import Raster Float.

Lemma Qdiv_le_compat (a b c : Q) : 0 < c -> a <= b -> a / c <= b / c.
Proof.
  intros Hc Hab. unfold Qdiv. apply Qmult_le_compat_r; [exact Hab|].
  apply Qinv_le_0_compat. lra.
Qed.

Lemma inject_Z_pred_nonneg (n : nat) : (1 <= n)%nat -> 0 <= inject_Z (Z.of_nat n - 1).
Proof. intros Hn. change 0 with (inject_Z 0). rewrite <- Zle_Qle. lia. Qed.

(** Division by a number that is not negative keeps the order; Python
    divides by zero nowhere in these lemmas' uses, and the model's
    quotient by zero is zero. *)
Lemma Qdiv_le_nonneg (a b c : Q) : 0 <= c -> a <= b -> a / c <= b / c.
Proof.
  intros Hc Hab. destruct (Qeq_dec c 0) as [E|E].
  - unfold Qdiv. rewrite E. change (/ 0) with 0. lra.
  - apply Qdiv_le_compat; [|exact Hab].
    destruct (Qlt_le_dec 0 c) as [H|H]; [exact H|]. exfalso. apply E. lra.
Qed.

(** The float quotient of [a] by [b], for [0 <= a <= b], lies between 0
    and 1. *)
Lemma fdiv_unit (a b : Q) : 0 <= a -> a <= b -> 0 <= fdiv a b /\ fdiv a b <= 1.
Proof.
  intros Ha Hab. unfold fdiv.
  assert (H0 : 0 <= a / b).
  { pose proof (Qdiv_le_nonneg 0 a b ltac:(lra) Ha) as H.
    unfold Qdiv in H at 1. rewrite Qmult_0_l in H. exact H. }
  assert (H1 : a / b <= 1).
  { destruct (Qeq_dec b 0) as [E|E].
    - unfold Qdiv. rewrite E. change (/ 0) with 0. lra.
    - apply Qle_shift_div_r; [|lra].
      destruct (Qlt_le_dec 0 b) as [H|H]; [exact H|]. exfalso. apply E. lra. }
  split.
  - apply b64_ge_0. exact H0.
  - apply b64_le_fixed; [exact H1 | reflexivity].
Qed.

(** The index of a float fraction of the unit interval along an axis of
    [n] cells: [int(f * (n - 1))] in float arithmetic. *)
Lemma float_index_bounds (f : Q) (n : nat) :
  (1 <= n)%nat -> (Z.of_nat n <= 2 ^ 53)%Z -> 0 <= f -> f <= 1 ->
  (0 <= py_int (fmul f (inject_Z (Z.of_nat n - 1))) <= Z.of_nat n - 1)%Z.
Proof.
  intros Hn Hbig H0 H1.
  destruct (scaled_fraction_bounds f (Z.of_nat n - 1) ltac:(lia) H0 H1) as [H2 H3].
  apply py_int_bounds; unfold fmul.
  - apply b64_ge_0. exact H2.
  - apply b64_le_fixed; [exact H3 | apply b64_inject_Z; lia].
Qed.

Lemma float_index_monotone (a a' b : Q) (n : nat) :
  (1 <= n)%nat -> 0 <= b -> a <= a' ->
  (py_int (fmul (fdiv a b) (inject_Z (Z.of_nat n - 1)))
   <= py_int (fmul (fdiv a' b) (inject_Z (Z.of_nat n - 1))))%Z.
Proof.
  intros Hn Hb Ha. apply py_int_monotone. unfold fmul, fdiv. apply b64_monotone.
  apply Qmult_le_compat_r; [|apply inject_Z_pred_nonneg; exact Hn].
  apply b64_monotone. apply Qdiv_le_nonneg; assumption.
Qed.

(** The index along an axis of the window from [lo] to [hi], as
    [ascii_plot_layer] computes it. *)
Lemma axis_index_bounds (lo hi v : Q) (n : nat) :
  (1 <= n)%nat -> (Z.of_nat n <= 2 ^ 53)%Z -> lo <= v -> v <= hi ->
  (0 <= py_int (fmul (fdiv (fsub v lo) (fsub hi lo)) (inject_Z (Z.of_nat n - 1)))
   <= Z.of_nat n - 1)%Z.
Proof.
  intros Hn Hbig Hlo Hhi.
  assert (Ha : 0 <= fsub v lo) by (unfold fsub; apply b64_ge_0; lra).
  assert (Hab : fsub v lo <= fsub hi lo) by (unfold fsub; apply b64_monotone; lra).
  destruct (fdiv_unit _ _ Ha Hab) as [H0 H1].
  apply float_index_bounds; assumption.
Qed.

Lemma axis_index_monotone (lo hi u v : Q) (n : nat) :
  (1 <= n)%nat -> lo <= hi -> u <= v ->
  (py_int (fmul (fdiv (fsub u lo) (fsub hi lo)) (inject_Z (Z.of_nat n - 1)))
   <= py_int (fmul (fdiv (fsub v lo) (fsub hi lo)) (inject_Z (Z.of_nat n - 1))))%Z.
Proof.
  intros Hn Hspan Huv. apply float_index_monotone; [exact Hn| |].
  - unfold fsub. apply b64_ge_0. lra.
  - unfold fsub. apply b64_monotone. lra.
Qed.

(** The indices of a point of the fixed window of [plot_cross_section]. *)
Lemma grid_xy_bounds (width height : nat) (x y : Q) :
  (1 <= width)%nat -> (1 <= height)%nat ->
  (Z.of_nat width <= 2 ^ 53)%Z -> (Z.of_nat height <= 2 ^ 53)%Z ->
  min_x <= x -> x <= max_x -> min_y <= y -> y <= max_y ->
  (0 <= (grid_xy width height x y).1 <= Z.of_nat width - 1)%Z
  /\ (0 <= (grid_xy width height x y).2 <= Z.of_nat height - 1)%Z.
Proof.
  intros Hw Hh Hbw Hbh Hx0 Hx1 Hy0 Hy1. unfold grid_xy. cbn [fst snd].
  unfold min_x, max_x, min_y, max_y, extent in *.
  assert (Hx : 0 <= fdiv (fsub x (- (8))) (8 - - (8)) /\ fdiv (fsub x (- (8))) (8 - - (8)) <= 1).
  { apply fdiv_unit; unfold fsub; [apply b64_ge_0; lra|].
    apply b64_le_fixed; [lra | reflexivity]. }
  assert (Hy : 0 <= fdiv (fsub 8 y) (8 - - (8)) /\ fdiv (fsub 8 y) (8 - - (8)) <= 1).
  { apply fdiv_unit; unfold fsub; [apply b64_ge_0; lra|].
    apply b64_le_fixed; [lra | reflexivity]. }
  split; apply float_index_bounds; tauto.
Qed.

(** A turn of a data loop that finds its cell inside the grid writes its
    glyph there and touches no other cell. *)
Lemma plot_point_draws (width height : nat) (g : list (list glyph)) (p : Q * Q) :
  grid_shape width height g ->
  in_grid width height (grid_xy width height p.1 p.2).1 (grid_xy width height p.1 p.2).2
  = true ->
  exists g', plot_point width height g p = Ok g' /\ grid_shape width height g'
             /\ forall r c,
                  grid_get g' r c
                  = if decide (r = Z.to_nat (grid_xy width height p.1 p.2).2
                               /\ c = Z.to_nat (grid_xy width height p.1 p.2).1)
                    then Ok (if sqrt_gt (p.1 * p.1 + p.2 * p.2) (65 # 10)
                             then OutMark else Block)
                    else grid_get g r c.
Proof.
  intros Hg. destruct p as [x y]. cbn [fst snd]. unfold plot_point.
  destruct (grid_xy width height x y) as [gx gy]. cbn [fst snd]. intros Ein. rewrite Ein.
  apply in_grid_range in Ein as [Hx Hy].
  apply grid_set_spec; [exact Hg | lia | lia].
Qed.

Lemma layer_plot_point_draws (w : Q * Q * Q * Q) (width height : nat)
    (g : list (list glyph)) (p : Q * Q) :
  grid_shape width height g ->
  in_grid width height (layer_grid_xy w width height p.1 p.2).1
          (layer_grid_xy w width height p.1 p.2).2 = true ->
  exists g', layer_plot_point w width height g p = Ok g' /\ grid_shape width height g'
             /\ forall r c,
                  grid_get g' r c
                  = if decide (r = Z.to_nat (layer_grid_xy w width height p.1 p.2).2
                               /\ c = Z.to_nat (layer_grid_xy w width height p.1 p.2).1)
                    then Ok Block
                    else grid_get g r c.
Proof.
  intros Hg. unfold layer_plot_point.
  destruct (layer_grid_xy w width height p.1 p.2) as [gx gy]. cbn [fst snd].
  intros Ein. rewrite Ein. apply in_grid_range in Ein as [Hx Hy].
  apply grid_set_spec; [exact Hg | lia | lia].
Qed.

(** C7, as the code has it.  The cell of a point is computed with [int],
    which truncates, not with [round], and in float arithmetic:
    [grid_x = int((x - min_x) / (max_x - min_x) * (width - 1))], and
    [grid_y = height - 1 - int((y - min_y) / (max_y - min_y) * (height - 1))]
    in [ascii_plot_layer], [int((max_y - y) / (max_y - min_y) * (height - 1))]
    in [plot_cross_section].  For a point of the window both indices are
    inside the grid; a larger Y never gives a larger row index.  A turn of
    either data loop never raises: when the indices of its point are
    inside the grid it writes the point's glyph into the cell of row
    [grid_y] and column [grid_x] and leaves every other cell as it was,
    and otherwise it leaves the whole grid as it was. *)
Theorem window_points_land_in_grid (width height : nat) :
  (1 <= width)%nat -> (1 <= height)%nat ->
  (Z.of_nat width <= 2 ^ 53)%Z -> (Z.of_nat height <= 2 ^ 53)%Z ->
  (forall min_x max_x min_y max_y x y : Q,
     min_x < max_x -> min_y < max_y ->
     min_x <= x -> x <= max_x -> min_y <= y -> y <= max_y ->
     layer_grid_xy (min_x, max_x, min_y, max_y) width height x y
     = (py_int (fmul (fdiv (fsub x min_x) (fsub max_x min_x)) (inject_Z (Z.of_nat width - 1))),
        (Z.of_nat height - 1
         - py_int (fmul (fdiv (fsub y min_y) (fsub max_y min_y))
                        (inject_Z (Z.of_nat height - 1))))%Z)
     /\ in_grid width height
          (layer_grid_xy (min_x, max_x, min_y, max_y) width height x y).1
          (layer_grid_xy (min_x, max_x, min_y, max_y) width height x y).2 = true)
  /\ (forall min_x max_x min_y max_y x y y' : Q,
        min_y < max_y -> y <= y' ->
        ((layer_grid_xy (min_x, max_x, min_y, max_y) width height x y').2
         <= (layer_grid_xy (min_x, max_x, min_y, max_y) width height x y).2)%Z)
  /\ (forall x y : Q,
        min_x <= x -> x <= max_x -> min_y <= y -> y <= max_y ->
        grid_xy width height x y
        = (py_int (fmul (fdiv (fsub x min_x) (max_x - min_x)) (inject_Z (Z.of_nat width - 1))),
           py_int (fmul (fdiv (fsub max_y y) (max_y - min_y)) (inject_Z (Z.of_nat height - 1))))
        /\ in_grid width height (grid_xy width height x y).1 (grid_xy width height x y).2 = true)
  /\ (forall x y y' : Q,
        y <= y' -> ((grid_xy width height x y').2 <= (grid_xy width height x y).2)%Z)
  /\ (forall (g : list (list glyph)) (p : Q * Q),
        grid_shape width height g ->
        exists g', plot_point width height g p = Ok g'
                   /\ grid_shape width height g'
                   /\ (in_grid width height (grid_xy width height p.1 p.2).1
                               (grid_xy width height p.1 p.2).2 = false -> g' = g)
                   /\ (in_grid width height (grid_xy width height p.1 p.2).1
                               (grid_xy width height p.1 p.2).2 = true ->
                       forall r c,
                         grid_get g' r c
                         = if decide (r = Z.to_nat (grid_xy width height p.1 p.2).2
                                      /\ c = Z.to_nat (grid_xy width height p.1 p.2).1)
                           then Ok (if sqrt_gt (p.1 * p.1 + p.2 * p.2) (65 # 10)
                                    then OutMark else Block)
                           else grid_get g r c))
  /\ (forall (w : Q * Q * Q * Q) (g : list (list glyph)) (p : Q * Q),
        grid_shape width height g ->
        exists g', layer_plot_point w width height g p = Ok g'
                   /\ grid_shape width height g'
                   /\ (in_grid width height (layer_grid_xy w width height p.1 p.2).1
                               (layer_grid_xy w width height p.1 p.2).2 = false -> g' = g)
                   /\ (in_grid width height (layer_grid_xy w width height p.1 p.2).1
                               (layer_grid_xy w width height p.1 p.2).2 = true ->
                       forall r c,
                         grid_get g' r c
                         = if decide (r = Z.to_nat (layer_grid_xy w width height p.1 p.2).2
                                      /\ c = Z.to_nat (layer_grid_xy w width height p.1 p.2).1)
                           then Ok Block
                           else grid_get g r c)).
Proof.
  intros Hw Hh Hbw Hbh. repeat apply conj.
  - intros lx hx ly hy x y Hsx Hsy Hx0 Hx1 Hy0 Hy1. split; [reflexivity|].
    unfold layer_grid_xy. cbn [fst snd]. apply in_grid_range.
    pose proof (axis_index_bounds lx hx x width Hw Hbw Hx0 Hx1).
    pose proof (axis_index_bounds ly hy y height Hh Hbh Hy0 Hy1).
    lia.
  - intros lx hx ly hy x y y' Hsy Hyy. unfold layer_grid_xy. cbn [fst snd].
    pose proof (axis_index_monotone ly hy y y' height Hh ltac:(lra) Hyy). lia.
  - intros x y Hx0 Hx1 Hy0 Hy1. split; [reflexivity|].
    apply in_grid_range.
    pose proof (grid_xy_bounds width height x y Hw Hh Hbw Hbh Hx0 Hx1 Hy0 Hy1). lia.
  - intros x y y' Hyy. unfold grid_xy. cbn [fst snd].
    apply float_index_monotone; [exact Hh | unfold min_y, max_y, extent; lra|].
    unfold fsub. apply b64_monotone. lra.
  - intros g p Hg.
    destruct (in_grid width height (grid_xy width height p.1 p.2).1
                      (grid_xy width height p.1 p.2).2) eqn:Ein.
    + destruct (plot_point_draws width height g p Hg Ein) as [g' [Hrun [Hg' Hcells]]].
      exists g'. split; [exact Hrun|]. split; [exact Hg'|].
      split; [discriminate | intros _; exact Hcells].
    + destruct (plot_point_total width height g p Hg) as [g' [Hrun [Hg' Hskip]]].
      exists g'. split; [exact Hrun|]. split; [exact Hg'|].
      split; [intros _; exact (Hskip Ein) | discriminate].
  - intros w g p Hg.
    destruct (in_grid width height (layer_grid_xy w width height p.1 p.2).1
                      (layer_grid_xy w width height p.1 p.2).2) eqn:Ein.
    + destruct (layer_plot_point_draws w width height g p Hg Ein) as [g' [Hrun [Hg' Hcells]]].
      exists g'. split; [exact Hrun|]. split; [exact Hg'|].
      split; [discriminate | intros _; exact Hcells].
    + destruct (layer_plot_point_total w width height g p Hg) as [g' [Hrun [Hg' Hskip]]].
      exists g'. split; [exact Hrun|]. split; [exact Hg'|].
      split; [intros _; exact (Hskip Ein) | discriminate].
Qed.

Lemma window_points_land_in_grid_witness :
  in_grid 80 40 (layer_grid_xy (-1, 11, -1, 1) 80 40 10 0).1
                (layer_grid_xy (-1, 11, -1, 1) 80 40 10 0).2 = true
  /\ exists g', layer_plot_point (-1, 11, -1, 1) 80 40 (blank_grid 80 40) (10, 0) = Ok g'
                /\ grid_get g' 20 72 = Ok Block
                /\ grid_get g' 20 71 = Ok Blank
                /\ grid_get g' 19 72 = Ok Blank.
Proof.
  pose proof (window_points_land_in_grid 80 40 ltac:(lia) ltac:(lia) ltac:(lia) ltac:(lia))
    as [Hlayer [_ [_ [_ [_ Hdraw]]]]].
  assert (Hin : in_grid 80 40 (layer_grid_xy (-1, 11, -1, 1) 80 40 10 0).1
                        (layer_grid_xy (-1, 11, -1, 1) 80 40 10 0).2 = true).
  { refine (proj2 (Hlayer (-1) 11 (-1) 1 10 0 _ _ _ _ _ _)); lra. }
  split; [exact Hin|].
  destruct (Hdraw (-1, 11, -1, 1) (blank_grid 80 40) (10, 0) (blank_grid_shape 80 40))
    as [g' [Hrun [_ [_ Hcells]]]].
  exists g'. split; [exact Hrun|].
  rewrite !(Hcells Hin). repeat split; reflexivity.
Defined.

(** C7, as the specification words it, fails: the cell is not the rounded
    one.  In [ascii_plot_layer] on the positions (0, 0) and (10, 0) the
    point (0, 0) has the scaled abscissa 79/12 = 6.58 and lands in column
    6, where rounding gives 7.  And a point outside the window is not
    always dropped: in [plot_cross_section] the point (-8.1, 0) truncates
    to column 0 and is drawn. *)
Lemma rounding_counterexample :
  bounds [(0, 0); (10, 0)] = Some (0 - 1, 10 + 1, 0 - 1, 0 + 1)
  /\ layer_grid_xy (0 - 1, 10 + 1, 0 - 1, 0 + 1) 80 40 0 0 = (6, 20)%Z
  /\ Spec.rounded_grid_xy (0 - 1, 10 + 1, 0 - 1, 0 + 1) 80 40 0 0 = (7, 19)%Z
  /\ match ascii_plot_layer [(0, 0); (10, 0)] 80 40 with
     | Ok (Some g) => grid_get g 20 6 = Ok Block /\ grid_get g 19 7 = Ok Blank
     | _ => False
     end
  /\ b64 (- (81 # 10)) < min_x
  /\ grid_xy 70 35 (b64 (- (81 # 10))) 0 = (0, 17)%Z
  /\ match cross_section_grid [(b64 (- (81 # 10)), 0)] 70 35 with
     | Ok g => grid_get g 17 0 = Ok OutMark
     | _ => False
     end.
Proof. vm_compute. repeat split; reflexivity. Qed.

(** The model places a point where binary64 arithmetic places it: in a
    window 69 units wide on a grid of 70 columns the abscissa 10 scales to
    [11 / 69 * 69], which is 10.999999999999998 in floats, hence column
    10, where exact arithmetic gives 11. *)
Example float_column_example :
  bounds [(0, 0); (67, 0)] = Some (0 - 1, 67 + 1, 0 - 1, 0 + 1)
  /\ layer_grid_xy (0 - 1, 67 + 1, 0 - 1, 0 + 1) 70 30 10 0 = (10, 15)%Z
  /\ py_int ((10 - (0 - 1)) / (67 + 1 - (0 - 1)) * inject_Z (70 - 1)) = 11%Z.
Proof. vm_compute. repeat split; reflexivity. Qed.

End Cells.

(** ** The automatic window: claim C8 *)

Section Window.
Import Raster.

Lemma py_min_in (l : list Q) : forall x : Q, In (py_min x l) (x :: l).
Proof.
  unfold py_min. induction l as [|y l IH]; intros x; simpl.
  - left. reflexivity.
  - destruct (IH (if Qltb y x then y else x)) as [H|H].
    + destruct (Qltb y x); [right; left | left]; exact H.
    + right. right. exact H.
Qed.

Lemma py_max_in (l : list Q) : forall x : Q, In (py_max x l) (x :: l).
Proof.
  unfold py_max. induction l as [|y l IH]; intros x; simpl.
  - left. reflexivity.
  - destruct (IH (if Qltb x y then y else x)) as [H|H].
    + destruct (Qltb x y); [right; left | left]; exact H.
    + right. right. exact H.
Qed.

(** The automatic window of [ascii_plot_layer] is the bounding box of the
    positions widened by the fixed margin 1 on every side, in float
    arithmetic: its limits are the least and greatest X and Y of the
    positions minus and plus 1. *)
Lemma bounds_spec (positions : list (Q * Q)) (w : Q * Q * Q * Q) :
  bounds positions = Some w ->
  exists lo_x hi_x lo_y hi_y : Q,
    w = (Float.fsub lo_x 1, Float.fadd hi_x 1, Float.fsub lo_y 1, Float.fadd hi_y 1)
    /\ In lo_x (map fst positions) /\ In hi_x (map fst positions)
    /\ In lo_y (map snd positions) /\ In hi_y (map snd positions)
    /\ Forall (fun p : Q * Q => lo_x <= p.1 <= hi_x /\ lo_y <= p.2 <= hi_y) positions.
Proof.
  destruct positions as [|p rest]; [discriminate|].
  unfold bounds, margin. intros [= <-].
  exists (py_min p.1 (map fst rest)), (py_max p.1 (map fst rest)),
         (py_min p.2 (map snd rest)), (py_max p.2 (map snd rest)).
  split; [reflexivity|].
  split; [apply (py_min_in (map fst rest) p.1)|].
  split; [apply (py_max_in (map fst rest) p.1)|].
  split; [apply (py_min_in (map snd rest) p.2)|].
  split; [apply (py_max_in (map snd rest) p.2)|].
  destruct (py_min_spec (map fst rest) p.1) as [Hx0 Hxs0].
  destruct (py_max_spec (map fst rest) p.1) as [Hx1 Hxs1].
  destruct (py_min_spec (map snd rest) p.2) as [Hy0 Hys0].
  destruct (py_max_spec (map snd rest) p.2) as [Hy1 Hys1].
  rewrite Forall_map in Hxs0, Hxs1, Hys0, Hys1.
  constructor; [tauto|].
  apply Forall_forall. intros q Hq.
  rewrite Forall_forall in Hxs0, Hxs1, Hys0, Hys1.
  specialize (Hxs0 q Hq). specialize (Hxs1 q Hq).
  specialize (Hys0 q Hq). specialize (Hys1 q Hq). simpl in *. tauto.
Qed.

(** C8: [ascii_plot_layer] does not pad its window by a tenth of the
    larger span.  For the positions (0, 0) and (100, 0) the larger span is
    100 and a tenth of it is 10: the padded window runs from -10 to 110,
    and so does the window of the sibling [ascii_plot_2d], which computes
    [margin = max(max_x - min_x, max_y - min_y) * 0.1]; but the window of
    [ascii_plot_layer], which sets [margin = 1], runs from -1 to 101. *)
Theorem padding_counterexample :
  match bounds [(0, 0); (100, 0)], Spec.padded_bounds [(0, 0); (100, 0)],
        Views.bounds [(0, 0); (100, 0)] with
  | Some (min_x, max_x, _, _), Some (pad_min_x, pad_max_x, _, _),
    Some (views_min_x, views_max_x, _, _) =>
      min_x == -1 /\ max_x == 101 /\ pad_min_x == -10 /\ pad_max_x == 110
      /\ views_min_x == -10 /\ views_max_x == 110
      /\ ~ min_x == pad_min_x /\ ~ max_x == pad_max_x
  | _, _, _ => False
  end.
Proof. vm_compute. repeat split; discriminate. Qed.

End Window.

(** ** Outliers: claim C10 *)

Section Outliers.
Import Parser Validator.



Lemma check_geometry_issues_warning (p : position) (rest : list position) :
  exists d,
    check_geometry_issues (p :: rest)
    = Ok (mkReport d
            (if existsb outside_cylinder (p :: rest) then
               Some (outlier_count (p :: rest),
                     omap (fun idx => (p :: rest) !! idx) (outlier_idx (p :: rest)))
             else None)).
Proof. unfold check_geometry_issues. eexists. reflexivity. Qed.


End Outliers.

(** ** Angular gaps: claim C1 *)

Section Gaps.
Import Validator.

Lemma insert_sorted_perm (a : Q) (l : list Q) : Permutation (insert_sorted a l) (a :: l).
Proof.
  induction l as [|b l IH]; simpl; [reflexivity|].
  destruct (Qle_bool a b); [reflexivity|].
  rewrite IH. apply perm_swap.
Qed.

Lemma np_sort_perm (l : list Q) : Permutation (np_sort l) l.
Proof.
  induction l as [|a l IH]; simpl; [reflexivity|].
  rewrite insert_sorted_perm, IH. reflexivity.
Qed.

Lemma insert_sorted_hd (a b : Q) (l : list Q) :
  b <= a -> HdRel Qle b l -> HdRel Qle b (insert_sorted a l).
Proof.
  intros Hba Hhd. destruct l as [|c l]; simpl.
  - constructor. exact Hba.
  - destruct (Qle_bool a c); constructor; [exact Hba|].
    inversion Hhd; subst. assumption.
Qed.

Lemma insert_sorted_sorted (a : Q) (l : list Q) :
  Sorted Qle l -> Sorted Qle (insert_sorted a l).
Proof.
  induction l as [|b l IH]; intros Hs; simpl.
  - repeat constructor.
  - inversion Hs as [|? ? Hl Hhd]; subst.
    destruct (Qle_bool a b) eqn:E.
    + apply Qle_bool_iff in E. constructor; [exact Hs|]. constructor. exact E.
    + constructor; [apply IH; exact Hl|].
      apply insert_sorted_hd; [|exact Hhd].
      apply Qlt_le_weak. apply Qltb_lt. unfold Qltb. rewrite E. reflexivity.
Qed.

Lemma np_sort_sorted (l : list Q) : Sorted Qle (np_sort l).
Proof.
  induction l as [|a l IH]; simpl; [constructor|].
  apply insert_sorted_sorted. exact IH.
Qed.

Lemma np_diff_length (l : list Q) : length (np_diff l) = (length l - 1)%nat.
Proof.
  induction l as [|a [|b l] IH]; [reflexivity | reflexivity |].
  change (np_diff (a :: b :: l)) with ((b - a) :: np_diff (b :: l)).
  simpl length in *. rewrite IH. lia.
Qed.

Lemma np_diff_nth (l : list Q) : forall j : nat,
  (j + 1 < length l)%nat ->
  nth j (np_diff l) 0 = nth (j + 1) l 0 - nth j l 0.
Proof.
  induction l as [|a [|b l] IH]; intros j Hj; [simpl in Hj; lia | simpl in Hj; lia |].
  change (np_diff (a :: b :: l)) with ((b - a) :: np_diff (b :: l)).
  destruct j as [|j]; [reflexivity|].
  change (nth (S j) ((b - a) :: np_diff (b :: l)) 0) with (nth j (np_diff (b :: l)) 0).
  change (nth (S j + 1) (a :: b :: l) 0) with (nth (j + 1) (b :: l) 0).
  change (nth (S j) (a :: b :: l) 0) with (nth j (b :: l) 0).
  apply IH. simpl length in *. lia.
Qed.

(** The scan of [np.argmax]: from a running maximum of the part already
    seen to the first index of the largest entry of the whole array. *)
Lemma argmax_from_spec (full : list Q) (l : list Q) :
  forall (pre : list Q) (best : Q) (best_idx : nat),
    full = pre ++ l ->
    (best_idx < length pre)%nat ->
    nth best_idx full 0 = best ->
    (forall j, (j < length pre)%nat -> nth j full 0 <= best) ->
    (forall j, (j < best_idx)%nat -> nth j full 0 < best) ->
    let r := argmax_from best best_idx (length pre) l in
    (r < length full)%nat
    /\ (forall j, (j < length full)%nat -> nth j full 0 <= nth r full 0)
    /\ (forall j, (j < r)%nat -> nth j full 0 < nth r full 0).
Proof.
  induction l as [|x l IH]; intros pre best best_idx Hfull Hidx Hbest Hmax Hfirst.
  - simpl. rewrite app_nil_r in Hfull. subst full. rewrite Hbest.
    split; [exact Hidx|]. split; assumption.
  - assert (Hfull' : full = (pre ++ [x]) ++ l) by (rewrite <- app_assoc; exact Hfull).
    assert (Hlen : S (length pre) = length (pre ++ [x])) by (rewrite length_app; simpl; lia).
    assert (Hx : nth (length pre) full 0 = x).
    { rewrite Hfull. apply nth_middle. }
    cbn [argmax_from]. destruct (Qltb best x) eqn:E.
    + apply Qltb_lt in E. rewrite Hlen.
      apply IH; [exact Hfull' | rewrite <- Hlen; lia | exact Hx | |].
      * intros j Hj. rewrite <- Hlen in Hj.
        destruct (decide (j = length pre)) as [->|Hne].
        -- rewrite Hx. apply Qle_refl.
        -- apply Qlt_le_weak. apply Qle_lt_trans with best; [|exact E].
           apply Hmax. lia.
      * intros j Hj. apply Qle_lt_trans with best; [|exact E]. apply Hmax. exact Hj.
    + apply Qltb_ge in E. rewrite Hlen.
      apply IH; [exact Hfull' | rewrite <- Hlen; lia | exact Hbest | | exact Hfirst].
      intros j Hj. rewrite <- Hlen in Hj.
      destruct (decide (j = length pre)) as [->|Hne].
      * rewrite Hx. exact E.
      * apply Hmax. lia.
Qed.

Lemma np_argmax_spec (l : list Q) :
  l <> [] ->
  (np_argmax l < length l)%nat
  /\ (forall j, (j < length l)%nat -> nth j l 0 <= nth (np_argmax l) l 0)
  /\ (forall j, (j < np_argmax l)%nat -> nth j l 0 < nth (np_argmax l) l 0).
Proof.
  destruct l as [|x l]; [congruence|]. intros _.
  apply (argmax_from_spec (x :: l) l [x] x 0%nat).
  - reflexivity.
  - simpl. lia.
  - reflexivity.
  - intros j Hj. simpl in Hj. assert (j = 0%nat) as -> by lia. apply Qle_refl.
  - intros j Hj. lia.
Qed.

(** The gap the code finds in an array of at least two angles. *)
Lemma largest_gap_spec (angles : list Q) :
  (2 <= length angles)%nat ->
  exists i : nat,
    (i + 1 < length angles)%nat
    /\ largest_gap angles
       = Some (nth (i + 1) angles 0 - nth i angles 0, nth i angles 0, nth (i + 1) angles 0)
    /\ (forall j, (j + 1 < length angles)%nat ->
          nth (j + 1) angles 0 - nth j angles 0 <= nth (i + 1) angles 0 - nth i angles 0)
    /\ (forall j, (j < i)%nat ->
          nth (j + 1) angles 0 - nth j angles 0 < nth (i + 1) angles 0 - nth i angles 0).
Proof.
  intros Hlen.
  assert (Hne : np_diff angles <> []).
  { intros H. apply (f_equal (@length Q)) in H. rewrite np_diff_length in H. simpl in H. lia. }
  destruct (np_argmax_spec (np_diff angles) Hne) as [Hi [Hmax Hfirst]].
  rewrite np_diff_length in Hi, Hmax.
  exists (np_argmax (np_diff angles)).
  split; [lia|]. split.
  - unfold largest_gap.
    destruct (1 <? length angles)%nat eqn:E; [|apply Nat.ltb_ge in E; lia].
    rewrite np_diff_nth by lia. reflexivity.
  - split.
    + intros j Hj. rewrite <- !np_diff_nth by lia. apply Hmax. lia.
    + intros j Hj. rewrite <- !np_diff_nth by lia. apply Hfirst. exact Hj.
Qed.

Lemma wrap_negative_range (a : Q) :
  -180 <= a -> a <= 180 -> 0 <= wrap_negative a /\ wrap_negative a < 360.
Proof.
  intros Hlo Hhi. unfold wrap_negative. destruct (Qltb a 0) eqn:E.
  - apply Qltb_lt in E. split; lra.
  - apply Qltb_ge in E. split; lra.
Qed.

(** What the gap detection computes.  The angles of the points of a
    layer are brought into [0, 360) and sorted ascending; the gaps
    compared are the differences of consecutive sorted angles only (the
    difference from the last angle round to the first is not among them);
    the gap found is the first largest of these, with the angles at its
    two ends, and it is reported when it is larger than 30.  For the
    sorted angles 0, 90, 100, 350 it is the gap of 250 from 100 to 350. *)
Theorem largest_consecutive_gap (arctan2_deg : Q -> Q -> Q) (pts : list (Q * Q)) :
  (forall y x, -180 <= arctan2_deg y x /\ arctan2_deg y x <= 180) ->
  (2 <= length pts)%nat ->
  let sorted := angles_sorted arctan2_deg pts in
  Forall (fun a => 0 <= a /\ a < 360) sorted
  /\ Sorted Qle sorted
  /\ Permutation sorted (angles_deg arctan2_deg pts)
  /\ (exists i : nat,
        (i + 1 < length sorted)%nat
        /\ largest_gap sorted
           = Some (nth (i + 1) sorted 0 - nth i sorted 0, nth i sorted 0, nth (i + 1) sorted 0)
        /\ (forall j, (j + 1 < length sorted)%nat ->
              nth (j + 1) sorted 0 - nth j sorted 0 <= nth (i + 1) sorted 0 - nth i sorted 0)
        /\ (forall j, (j < i)%nat ->
              nth (j + 1) sorted 0 - nth j sorted 0 < nth (i + 1) sorted 0 - nth i sorted 0)
        /\ opening sorted
           = if Qltb 30 (nth (i + 1) sorted 0 - nth i sorted 0)
             then largest_gap sorted else None)
  /\ largest_gap [0; 90; 100; 350] = Some (250, 100, 350)
  /\ opening [0; 90; 100; 350] = Some (250, 100, 350).
Proof.
  intros Hrange Hlen sorted.
  assert (Hperm : Permutation sorted (angles_deg arctan2_deg pts)) by apply np_sort_perm.
  split.
  { apply (Permutation_Forall (Permutation_sym Hperm)).
    unfold angles_deg. apply Forall_map. apply Forall_forall. intros p _.
    destruct (Hrange p.2 p.1) as [Hlo Hhi]. exact (wrap_negative_range _ Hlo Hhi). }
  split; [apply np_sort_sorted|]. split; [exact Hperm|].
  split; [|split; reflexivity].
  assert (Hlen' : (2 <= length sorted)%nat).
  { rewrite (Permutation_length Hperm). unfold angles_deg. rewrite length_map. exact Hlen. }
  destruct (largest_gap_spec sorted Hlen') as [i [Hi [Hgap [Hmax Hfirst]]]].
  exists i. split; [exact Hi|]. split; [exact Hgap|]. split; [exact Hmax|].
  split; [exact Hfirst|].
  unfold opening. rewrite Hgap. reflexivity.
Qed.

Lemma largest_consecutive_gap_witness :
  Forall (fun a => 0 <= a /\ a < 360)
         (angles_sorted Spec.axis_arctan2_deg [(0, -1); (1, 0); (0, 1)])
  /\ angles_sorted Spec.axis_arctan2_deg [(0, -1); (1, 0); (0, 1)] = [0; 90; -90 + 360].
Proof.
  split; [|reflexivity].
  refine (proj1 (largest_consecutive_gap Spec.axis_arctan2_deg [(0, -1); (1, 0); (0, 1)] _ _)).
  - intros y x. unfold Spec.axis_arctan2_deg.
    destruct (Qeq_bool y 0); [destruct (Qltb x 0) | destruct (Qeq_bool x 0); [destruct (Qltb y 0)|]];
      split; lra.
  - simpl. lia.
Defined.

(** C1: the gap detection misses the gap across 0 degrees, because no
    wraparound difference is computed.  On the layer of the three points
    (6, 0), (0, 6) and (-6, 0), at 0, 90 and 180 degrees, half of the
    circle is empty, from 180 degrees round to 0: the largest gap with
    the wraparound difference 360 + 0 - 180 among the candidates is that
    one, of 180 degrees.  [plot_cross_section] reports the opening of 90
    degrees from 0 to 90.  Likewise for the sorted angles 0, 40, 100 the
    code finds the gap of 60 from 40 to 100, where the wraparound gap is
    260. *)
Theorem opening_misses_wraparound :
  angles_sorted Spec.axis_arctan2_deg [(6, 0); (0, 6); (-6, 0)] = [0; 90; 180]
  /\ match plot_cross_section Spec.axis_arctan2_deg
             [(6, 0, 1); (0, 6, 1); (-6, 0, 1)] 1 (1 # 10) 70 35 with
     | Ok (Some (n, _, gap)) => n = 3%nat /\ gap = Some (90, 0, 90)
     | _ => False
     end
  /\ Spec.largest_gap_with_wraparound [0; 90; 180] = Some (180, 180, 0)
  /\ largest_gap [0; 40; 100] = Some (60, 40, 100)
  /\ opening [0; 40; 100] = Some (60, 40, 100)
  /\ Spec.largest_gap_with_wraparound [0; 40; 100] = Some (260, 100, 0)
  /\ largest_gap [0; 40; 100] <> Spec.largest_gap_with_wraparound [0; 40; 100].
Proof. vm_compute. repeat split; try reflexivity; discriminate. Qed.

End Gaps.

(** ** The cross-section report as a whole *)

Section Report.
Import Parser Validator.

Lemma sqrt_lt_real (s c : Q) :
  sqrt_lt s c = true <-> (sqrt (Q2R s) < Q2R c)%R.
Proof.
  unfold sqrt_lt. destruct (Qle_bool c 0) eqn:Ec.
  - apply Qle_bool_iff in Ec. apply Qle_Rle in Ec. rewrite RMicromega.Q2R_0 in Ec.
    split; [discriminate|]. intros H. pose proof (sqrt_pos (Q2R s)). lra.
  - assert (Hc : 0 < c).
    { apply Qnot_le_lt. intros Hle. apply Qle_bool_iff in Hle. congruence. }
    apply Qlt_Rlt in Hc. rewrite RMicromega.Q2R_0 in Hc.
    rewrite negb_true_iff. split.
    + intros H.
      assert (Hlt : s < c * c).
      { apply Qnot_le_lt. intros Hle. apply Qle_bool_iff in Hle. congruence. }
      apply Qlt_Rlt in Hlt. rewrite Q2R_mult in Hlt.
      destruct (Rle_lt_dec 0 (Q2R s)) as [Hs|Hs].
      * rewrite <- (sqrt_square (Q2R c)) by lra.
        apply sqrt_lt_1_alt. split; assumption.
      * rewrite sqrt_neg_0 by lra. exact Hc.
    + intros H. destruct (Qle_bool (c * c) s) eqn:E; [|reflexivity]. exfalso.
      apply Qle_bool_iff in E. apply Qle_Rle in E. rewrite Q2R_mult in E.
      assert (Hs : (sqrt (Q2R c * Q2R c) <= sqrt (Q2R s))%R) by (apply sqrt_le_1_alt; exact E).
      rewrite sqrt_square in Hs by lra. lra.
Qed.

Lemma cross_section_grid_total (pts : list (Q * Q)) (width height : nat) :
  (2 <= width)%nat -> (2 <= height)%nat ->
  exists g, Raster.cross_section_grid pts width height = Ok g
            /\ Raster.grid_shape width height g.
Proof.
  intros Hw Hh.
  destruct (plotted_grid_total pts width height Hw Hh) as [g0 [Hplot Hg0]].
  destruct (zero_xy_range width height) as [Hzx Hzy]; [lia | lia |].
  destruct (draw_axes_spec Raster.blank_or_dot _ _ width height g0 Hg0 Hzx Hzy)
    as [g [Haxes [Hg _]]].
  exists g. split; [|exact Hg].
  unfold Raster.cross_section_grid. rewrite Hplot. exact Haxes.
Qed.

(** On a layer that has points [plot_cross_section] returns the grid of
    [cross_section_grid] and the opening found among the sorted angles. *)
Lemma plot_cross_section_reports (arctan2_deg : Q -> Q -> Q) (positions : list position)
    (z_target tolerance : Q) (width height : nat) :
  (2 <= width)%nat -> (2 <= height)%nat ->
  Raster.layer_points positions z_target tolerance <> [] ->
  exists g,
    Raster.cross_section_grid (Raster.layer_points positions z_target tolerance) width height
    = Ok g
    /\ plot_cross_section arctan2_deg positions z_target tolerance width height
       = Ok (Some (length (Raster.layer_points positions z_target tolerance), g,
                   opening (angles_sorted arctan2_deg
                              (Raster.layer_points positions z_target tolerance)))).
Proof.
  intros Hw Hh Hpts.
  destruct (cross_section_grid_total (Raster.layer_points positions z_target tolerance)
              width height Hw Hh) as [g [Hg _]].
  exists g. split; [exact Hg|].
  unfold plot_cross_section.
  destruct positions as [|p rest]; [contradiction Hpts; reflexivity|].
  destruct (Raster.layer_points (p :: rest) z_target tolerance) as [|q l] eqn:E;
    [contradiction Hpts; reflexivity|].
  cbn [length Nat.eqb]. rewrite Hg. reflexivity.
Qed.

End Report.

(** ** The rendered grid, cell by cell *)

Section CellwiseLoops.
Import Raster.

(** Overwriting with one fixed value wherever a test passes. *)
Lemma fold_left_paint {A B : Type} (test : A -> bool) (d : B) (l : list A) :
  forall v, fold_left (fun v a => if test a then d else v) l v
            = if existsb test l then d else v.
Proof.
  induction l as [|a l IH]; intros v; [reflexivity|].
  simpl. rewrite IH. destruct (test a); simpl; [|reflexivity].
  destruct (existsb test l); reflexivity.
Qed.

(** Overwriting with a value that depends on the element: the last
    element that passes the test decides. *)
Lemma fold_left_last_hit {A B : Type} (test : A -> bool) (m : A -> B) (l : list A) (v0 : B) :
  forall (acc : option A),
    fold_left (fun v a => if test a then m a else v) l
              (match acc with Some a => m a | None => v0 end)
    = match fold_left (fun acc a => if test a then Some a else acc) l acc with
      | Some a => m a
      | None => v0
      end.
Proof.
  induction l as [|a l IH]; intros acc; [reflexivity|].
  simpl. destruct (test a).
  - exact (IH (Some a)).
  - exact (IH acc).
Qed.

Lemma last_hit_some {A : Type} (test : A -> bool) (l : list A) :
  forall acc a,
    fold_left (fun acc a => if test a then Some a else acc) l acc = Some a ->
    (In a l /\ test a = true) \/ acc = Some a.
Proof.
  induction l as [|b l IH]; intros acc a; simpl.
  - intros ->. right. reflexivity.
  - intros H. destruct (IH _ _ H) as [[Hin Ht]|Hacc].
    + left. split; [right; exact Hin | exact Ht].
    + destruct (test b) eqn:Eb.
      * injection Hacc as <-. left. split; [left; reflexivity | exact Eb].
      * right. exact Hacc.
Qed.

Lemma last_hit_none {A : Type} (test : A -> bool) (l : list A) :
  Render.last_hit test l = None <-> existsb test l = false.
Proof.
  unfold Render.last_hit.
  assert (H : forall acc, fold_left (fun acc a => if test a then Some a else acc) l acc = None
                          <-> acc = None /\ existsb test l = false).
  { induction l as [|b l IH]; intros acc; simpl.
    - split; [intros ->; split; reflexivity | intros [-> _]; reflexivity].
    - rewrite IH. destruct (test b); simpl.
      + split; [intros [H _]; discriminate | intros [_ H]; discriminate].
      + reflexivity. }
  rewrite H. split; [intros [_ H']; exact H' | intros H'; split; [reflexivity | exact H']].
Qed.

(** A loop whose every turn acts on the grid cell by cell: the loop
    succeeds, keeps the shape, and acts on each cell by the turns in
    order. *)
Lemma for_each_cellwise {A : Type} (width height : nat)
    (body : list (list glyph) -> A -> result (list (list glyph)))
    (F : A -> nat -> nat -> glyph -> glyph) (l : list A) :
  (forall a, In a l -> forall g, grid_shape width height g ->
     exists g', body g a = Ok g' /\ grid_shape width height g'
                /\ forall r c v, grid_get g r c = Ok v -> grid_get g' r c = Ok (F a r c v)) ->
  forall g, grid_shape width height g ->
    exists g', for_each body g l = Ok g' /\ grid_shape width height g'
               /\ forall r c v, grid_get g r c = Ok v ->
                    grid_get g' r c = Ok (fold_left (fun v a => F a r c v) l v).
Proof.
  induction l as [|a l IH]; intros Hbody g Hg.
  - exists g. split; [reflexivity|]. split; [exact Hg|]. intros r c v Hv. exact Hv.
  - destruct (Hbody a (or_introl eq_refl) g Hg) as [g1 [H1 [Hg1 Hcells1]]].
    destruct (IH (fun a' Hin => Hbody a' (or_intror Hin)) g1 Hg1) as [g' [Hrun [Hg' Hcells]]].
    exists g'. rewrite for_each_cons, H1. split; [exact Hrun|]. split; [exact Hg'|].
    intros r c v Hv. simpl. apply Hcells. apply Hcells1. exact Hv.
Qed.

(** A guarded assignment of a fixed glyph to a fixed cell acts cell by
    cell. *)
Lemma paint_cell (width height : nat) (g : list (list glyph)) (b : bool) (r0 c0 : nat)
    (d : glyph) :
  grid_shape width height g ->
  (b = true -> (r0 < height)%nat /\ (c0 < width)%nat) ->
  exists g', (if b then grid_set g r0 c0 d else Ok g) = Ok g'
             /\ grid_shape width height g'
             /\ forall r c v, grid_get g r c = Ok v ->
                  grid_get g' r c
                  = Ok (if b && (r0 =? r)%nat && (c0 =? c)%nat then d else v).
Proof.
  intros Hg Hin. destruct b.
  - destruct (Hin eq_refl) as [Hr Hc].
    destruct (grid_set_spec _ _ g r0 c0 d Hg Hr Hc) as [g' [Hset [Hg' Hcells]]].
    exists g'. split; [exact Hset|]. split; [exact Hg'|].
    intros r c v Hv. rewrite Hcells. simpl.
    destruct (decide (r = r0 /\ c = c0)) as [[-> ->]|Hne].
    + rewrite !Nat.eqb_refl. reflexivity.
    + rewrite Hv. destruct (Nat.eqb_spec r0 r) as [->|]; [|reflexivity].
      destruct (Nat.eqb_spec c0 c) as [->|]; [tauto | reflexivity].
  - exists g. split; [reflexivity|]. split; [exact Hg|]. intros r c v Hv. exact Hv.
Qed.

End CellwiseLoops.

Section RenderedCells.
Import Raster Render.

Lemma pred_width_nonzero (n : nat) : (2 <= n)%nat -> ~ inject_Z (Z.of_nat n - 1) == 0.
Proof. intros Hn H. unfold Qeq in H. simpl in H. lia. Qed.

(** The reference-circle loop. *)
Lemma plot_circle_cells (width height : nat) (g : list (list glyph)) :
  (2 <= width)%nat -> (2 <= height)%nat -> grid_shape width height g ->
  exists g', plot_circle width height g = Ok g' /\ grid_shape width height g'
             /\ forall r c v, (r < height)%nat -> (c < width)%nat ->
                  grid_get g r c = Ok v ->
                  grid_get g' r c = Ok (if on_circle width height c r then Dot else v).
Proof.
  intros Hw Hh Hg. unfold plot_circle.
  destruct (for_each_cellwise width height
              (fun g i => for_each (fun g j => circle_cell width height i j g) g (seq 0 height))
              (fun i r c v => if on_circle width height i r && (c =? i)%nat then Dot else v)
              (seq 0 width)) with (g := g) as [g' [Hrun [Hg' Hcells]]].
  - intros i Hi g1 Hg1. apply in_seq in Hi.
    destruct (for_each_cellwise width height
                (fun g j => circle_cell width height i j g)
                (fun j r c v => if on_circle width height i j && (j =? r)%nat && (i =? c)%nat
                                then Dot else v)
                (seq 0 height)) with (g := g1) as [g2 [Hrun2 [Hg2 Hcells2]]].
    + intros j Hj g3 Hg3. apply in_seq in Hj.
      unfold circle_cell.
      rewrite (py_div_ok (inject_Z (Z.of_nat i))) by (apply pred_width_nonzero; exact Hw).
      rewrite (py_div_ok (inject_Z (Z.of_nat j))) by (apply pred_width_nonzero; exact Hh).
      unfold mbind, result_bind.
      apply (paint_cell width height g3 (on_circle width height i j) j i Dot Hg3).
      intros _. lia.
    + exact Hg1.
    + exists g2. split; [exact Hrun2|]. split; [exact Hg2|].
      intros r c v Hv. rewrite (Hcells2 _ _ _ Hv).
      destruct (grid_get_range _ _ _ _ _ _ Hg1 Hv) as [Hr Hc].
      rewrite fold_left_paint. f_equal.
      destruct (existsb (fun j => on_circle width height i j && (j =? r)%nat && (i =? c)%nat)
                        (seq 0 height)) eqn:E.
      * apply existsb_exists in E as [j [_ Hj]].
        apply andb_true_iff in Hj as [Hj Hic]. apply andb_true_iff in Hj as [Hon Hjr].
        apply Nat.eqb_eq in Hjr, Hic. subst j c.
        rewrite Hon, Nat.eqb_refl. reflexivity.
      * destruct (on_circle width height i r && (c =? i)%nat) eqn:E'; [|reflexivity].
        apply andb_true_iff in E' as [Hon Hci]. apply Nat.eqb_eq in Hci. subst c.
        exfalso. apply not_true_iff_false in E. apply E.
        apply existsb_exists. exists r. split; [apply in_seq; lia|].
        rewrite Hon, !Nat.eqb_refl. reflexivity.
  - exact Hg.
  - exists g'. split; [exact Hrun|]. split; [exact Hg'|].
    intros r c v Hr Hc Hv. rewrite (Hcells _ _ _ Hv), fold_left_paint. f_equal.
    destruct (existsb (fun i => on_circle width height i r && (c =? i)%nat) (seq 0 width)) eqn:E.
    + apply existsb_exists in E as [i [_ Hi]].
      apply andb_true_iff in Hi as [Hon Hci]. apply Nat.eqb_eq in Hci. subst i.
      rewrite Hon. reflexivity.
    + destruct (on_circle width height c r) eqn:E'; [|reflexivity].
      exfalso. apply not_true_iff_false in E. apply E.
      apply existsb_exists. exists c. split; [apply in_seq; lia|].
      rewrite E', Nat.eqb_refl. reflexivity.
Qed.

(** One turn of the data loop of [plot_cross_section]. *)
Lemma plot_point_cells (width height : nat) (g : list (list glyph)) (p : Q * Q) :
  grid_shape width height g ->
  exists g', plot_point width height g p = Ok g' /\ grid_shape width height g'
             /\ forall r c v, grid_get g r c = Ok v ->
                  grid_get g' r c = Ok (if hits width height r c p then mark p else v).
Proof.
  intros Hg. destruct p as [x y]. unfold plot_point, hits, mark. cbn [fst snd].
  destruct (grid_xy width height x y) as [gx gy].
  apply (paint_cell width height g (in_grid width height gx gy) (Z.to_nat gy) (Z.to_nat gx)
           _ Hg).
  intros Hin. apply in_grid_range in Hin. lia.
Qed.

(** One turn of the data loop of [ascii_plot_layer]. *)
Lemma layer_plot_point_cells (w : Q * Q * Q * Q) (width height : nat)
    (g : list (list glyph)) (p : Q * Q) :
  grid_shape width height g ->
  exists g', layer_plot_point w width height g p = Ok g' /\ grid_shape width height g'
             /\ forall r c v, grid_get g r c = Ok v ->
                  grid_get g' r c = Ok (if layer_hits w width height r c p then Block else v).
Proof.
  intros Hg. unfold layer_plot_point, layer_hits.
  destruct (layer_grid_xy w width height p.1 p.2) as [gx gy].
  apply (paint_cell width height g (in_grid width height gx gy) (Z.to_nat gy) (Z.to_nat gx)
           Block Hg).
  intros Hin. apply in_grid_range in Hin. lia.
Qed.

(** The grid of [plot_cross_section] before the axes: the last data point
    drawn in the cell, else the reference circle. *)
Lemma plotted_grid_cells (pts : list (Q * Q)) (width height : nat) :
  (2 <= width)%nat -> (2 <= height)%nat ->
  exists g, plotted_grid pts width height = Ok g /\ grid_shape width height g
            /\ forall r c, (r < height)%nat -> (c < width)%nat ->
                 grid_get g r c
                 = Ok (match last_hit (hits width height r c) pts with
                       | Some p => mark p
                       | None => if on_circle width height c r then Dot else Blank
                       end).
Proof.
  intros Hw Hh. unfold plotted_grid.
  destruct (plot_circle_cells width height (blank_grid width height) Hw Hh
              (blank_grid_shape width height)) as [g1 [H1 [Hg1 Hcells1]]].
  rewrite H1. unfold mbind, result_bind.
  destruct (for_each_cellwise width height (plot_point width height)
              (fun p r c v => if hits width height r c p then mark p else v) pts)
    with (g := g1) as [g [Hrun [Hg Hcells]]].
  - intros p _ g2 Hg2. exact (plot_point_cells width height g2 p Hg2).
  - exact Hg1.
  - exists g. split; [exact Hrun|]. split; [exact Hg|].
    intros r c Hr Hc.
    rewrite (Hcells _ _ _ (Hcells1 _ _ _ Hr Hc (blank_grid_get _ _ _ _ Hr Hc))).
    f_equal.
    exact (fold_left_last_hit (hits width height r c) mark pts
             (if on_circle width height c r then Dot else Blank) None).
Qed.

(** The grid of [ascii_plot_layer] before the axes. *)
Lemma layer_plotted_grid_cells (positions : list (Q * Q)) (w : Q * Q * Q * Q)
    (width height : nat) :
  exists g, layer_plotted_grid positions w width height = Ok g /\ grid_shape width height g
            /\ forall r c, (r < height)%nat -> (c < width)%nat ->
                 grid_get g r c
                 = Ok (if existsb (layer_hits w width height r c) positions
                       then Block else Blank).
Proof.
  unfold layer_plotted_grid.
  destruct (for_each_cellwise width height (layer_plot_point w width height)
              (fun p r c v => if layer_hits w width height r c p then Block else v) positions)
    with (g := blank_grid width height) as [g [Hrun [Hg Hcells]]].
  - intros p _ g2 Hg2. exact (layer_plot_point_cells w width height g2 p Hg2).
  - apply blank_grid_shape.
  - exists g. split; [exact Hrun|]. split; [exact Hg|].
    intros r c Hr Hc. rewrite (Hcells _ _ _ (blank_grid_get _ _ _ _ Hr Hc)).
    rewrite fold_left_paint. reflexivity.
Qed.

Lemma cross_section_cells_aux (pts : list (Q * Q)) (width height : nat) :
  (2 <= width)%nat -> (2 <= height)%nat ->
  exists g, cross_section_grid pts width height = Ok g
            /\ grid_shape width height g
            /\ forall r c, (r < height)%nat -> (c < width)%nat ->
                 grid_get g r c = Ok (cross_section_cell pts width height r c).
Proof.
  intros Hw Hh.
  destruct (plotted_grid_cells pts width height Hw Hh) as [g0 [Hplot [Hg0 Hcells0]]].
  destruct (zero_xy_range width height) as [Hzx Hzy]; [lia | lia |].
  destruct (draw_axes_spec blank_or_dot _ _ width height g0 Hg0 Hzx Hzy)
    as [g [Haxes [Hg Hcells]]].
  exists g. split; [unfold cross_section_grid; rewrite Hplot; exact Haxes|].
  split; [exact Hg|].
  intros r c Hr Hc. rewrite (Hcells _ _ _ (Hcells0 r c Hr Hc)). f_equal.
  unfold cross_section_cell, overwrite.
  destruct (Nat.eqb_spec r (Z.to_nat (zero_y height))) as [Er|Er];
    destruct (Nat.eqb_spec c (Z.to_nat (zero_x width))) as [Ec|Ec]; simpl;
    repeat case_decide; try tauto; try reflexivity;
    destruct (last_hit (hits width height r c) pts) as [p|];
    try reflexivity;
    try (unfold mark; destruct (sqrt_gt _ _); reflexivity);
    destruct (on_circle width height c r); reflexivity.
Qed.



Lemma layer_cells_aux (positions : list (Q * Q)) (w : Q * Q * Q * Q)
    (width height : nat) :
  (1 <= width)%nat -> (1 <= height)%nat ->
  bounds positions = Some w ->
  exists g, ascii_plot_layer positions width height = Ok (Some g)
            /\ grid_shape width height g
            /\ forall r c, (r < height)%nat -> (c < width)%nat ->
                 grid_get g r c = Ok (layer_cell positions w width height r c).
Proof.
  intros Hw Hh Hb.
  destruct (layer_plotted_grid_cells positions w width height) as [g0 [Hplot [Hg0 Hcells0]]].
  assert (Hzx : (width / 2 < width)%nat) by (apply Nat.div_lt; lia).
  assert (Hzy : (height / 2 < height)%nat) by (apply Nat.div_lt; lia).
  destruct (draw_axes_spec is_blank _ _ width height g0 Hg0 Hzx Hzy)
    as [g [Haxes [Hg Hcells]]].
  exists g. split.
  { unfold ascii_plot_layer. rewrite Hb, Hplot. unfold mbind at 1, result_bind at 1.
    unfold layer_add_axes. rewrite Haxes. reflexivity. }
  split; [exact Hg|].
  intros r c Hr Hc. rewrite (Hcells _ _ _ (Hcells0 r c Hr Hc)). f_equal.
  unfold layer_cell, overwrite.
  destruct (Nat.eqb_spec r (height / 2)) as [Er|Er];
    destruct (Nat.eqb_spec c (width / 2)) as [Ec|Ec]; simpl;
    repeat case_decide; try tauto; try reflexivity;
    destruct (existsb (layer_hits w width height r c) positions); reflexivity.
Qed.

(** Every cell of the grid of [ascii_plot_layer], for a grid of at least
    one row and one column and positions that are not empty: the middle
    cell shows the cross; any other cell shows a block when a position is
    drawn in it, else the bar of the middle column or row it lies on, else
    a blank. *)
Theorem ascii_plot_layer_cells (positions : list (Q * Q)) (w : Q * Q * Q * Q)
    (width height : nat) :
  (1 <= width)%nat -> (1 <= height)%nat ->
  bounds positions = Some w ->
  exists g, ascii_plot_layer positions width height = Ok (Some g)
            /\ grid_shape width height g
            /\ forall r c, (r < height)%nat -> (c < width)%nat ->
                 grid_get g r c = Ok (layer_cell positions w width height r c).
Proof.
  intros Hw Hh Hb.
  destruct (layer_cells_aux positions w width height Hw Hh Hb) as [g [Hrun [Hg Hcells]]].
  exists g. split; [exact Hrun|]. split; [exact Hg | exact Hcells].
Qed.

Lemma ascii_plot_layer_cells_witness :
  exists g, ascii_plot_layer [(0, 0); (10, 0)] 80 40 = Ok (Some g)
            /\ grid_shape 80 40 g
            /\ grid_get g 20 6 = Ok Block
            /\ grid_get g 20 7 = Ok HBar
            /\ grid_get g 20 40 = Ok Cross
            /\ grid_get g 3 40 = Ok VBar.
Proof.
  destruct (ascii_plot_layer_cells [(0, 0); (10, 0)] (0 - 1, 10 + 1, 0 - 1, 0 + 1) 80 40
              ltac:(lia) ltac:(lia) eq_refl) as [g [Hrun [Hg Hcells]]].
  exists g. split; [exact Hrun|]. split; [exact Hg|].
  rewrite !Hcells by lia. repeat split; reflexivity.
Defined.

End RenderedCells.

(** ** What the rendered grids show and when rendering fails *)

Section Visibility.
Import Raster Render Float.

(** The automatic window holds every position, when the coordinates are
    floats. *)
Lemma bounds_window (positions : list (Q * Q)) (w : Q * Q * Q * Q) :
  bounds positions = Some w ->
  Forall (fun p : Q * Q => b64 p.1 == p.1 /\ b64 p.2 == p.2) positions ->
  Forall (fun p : Q * Q => (w.1.1.1 <= p.1 /\ p.1 <= w.1.1.2)
                           /\ (w.1.2 <= p.2 /\ p.2 <= w.2)) positions.
Proof.
  intros Hb Hfloat.
  destruct (bounds_spec positions w Hb)
    as [lx [hx [ly [hy [-> [Hlx [Hhx [Hly [Hhy Hbox]]]]]]]]].
  assert (Hfx : forall v, In v (map fst positions) -> b64 v == v).
  { intros v Hv. apply in_map_iff in Hv as [p [<- Hp]].
    rewrite Forall_forall in Hfloat. apply (Hfloat p). apply list_elem_of_In. exact Hp. }
  assert (Hfy : forall v, In v (map snd positions) -> b64 v == v).
  { intros v Hv. apply in_map_iff in Hv as [p [<- Hp]].
    rewrite Forall_forall in Hfloat. apply (Hfloat p). apply list_elem_of_In. exact Hp. }
  assert (H1 : fsub lx 1 <= lx) by (apply b64_le_fixed; [lra | exact (Hfx lx Hlx)]).
  assert (H2 : hx <= fadd hx 1) by (apply b64_ge_fixed; [lra | exact (Hfx hx Hhx)]).
  assert (H3 : fsub ly 1 <= ly) by (apply b64_le_fixed; [lra | exact (Hfy ly Hly)]).
  assert (H4 : hy <= fadd hy 1) by (apply b64_ge_fixed; [lra | exact (Hfy hy Hhy)]).
  eapply Forall_impl; [exact Hbox|]. cbn [fst snd]. intros p [[Ha Hb'] [Hc Hd]].
  repeat split; lra.
Qed.

Lemma layer_hits_cell (w : Q * Q * Q * Q) (width height r c : nat) (p : Q * Q) :
  layer_hits w width height r c p = true <->
  layer_grid_xy w width height p.1 p.2 = (Z.of_nat c, Z.of_nat r)
  /\ (r < height)%nat /\ (c < width)%nat.
Proof.
  unfold layer_hits. destruct (layer_grid_xy w width height p.1 p.2) as [gx gy].
  rewrite !andb_true_iff, in_grid_range, !Nat.eqb_eq. split.
  - intros [[[Hx Hy] <-] <-]. rewrite !Z2Nat.id by lia. split; [reflexivity | lia].
  - intros [[= -> ->] [Hr Hc]]. rewrite !Nat2Z.id. repeat split; lia.
Qed.

Lemma hits_cell (width height r c : nat) (p : Q * Q) :
  hits width height r c p = true <->
  grid_xy width height p.1 p.2 = (Z.of_nat c, Z.of_nat r)
  /\ (r < height)%nat /\ (c < width)%nat.
Proof.
  unfold hits. destruct (grid_xy width height p.1 p.2) as [gx gy].
  rewrite !andb_true_iff, in_grid_range, !Nat.eqb_eq. split.
  - intros [[[Hx Hy] <-] <-]. rewrite !Z2Nat.id by lia. split; [reflexivity | lia].
  - intros [[= -> ->] [Hr Hc]]. rewrite !Nat2Z.id. repeat split; lia.
Qed.

(** The cell of a point of the fixed window of [plot_cross_section]. *)
Lemma grid_xy_in_window (width height : nat) (x y : Q) :
  (1 <= width)%nat -> (1 <= height)%nat ->
  (Z.of_nat width <= 2 ^ 53)%Z -> (Z.of_nat height <= 2 ^ 53)%Z ->
  min_x <= x -> x <= max_x -> min_y <= y -> y <= max_y ->
  exists r c : nat,
    grid_xy width height x y = (Z.of_nat c, Z.of_nat r)
    /\ (r < height)%nat /\ (c < width)%nat.
Proof.
  intros Hw Hh Hbw Hbh Hx0 Hx1 Hy0 Hy1.
  destruct (grid_xy_bounds width height x y Hw Hh Hbw Hbh Hx0 Hx1 Hy0 Hy1) as [Hgx Hgy].
  destruct (grid_xy width height x y) as [gx gy]. cbn [fst snd] in *.
  exists (Z.to_nat gy), (Z.to_nat gx).
  rewrite !Z2Nat.id by lia. split; [reflexivity | lia].
Qed.

(** [ascii_plot_layer] drops no position and invents none: on a grid of
    at least one row and one column every position of a list of floats
    that is not empty falls in a cell of the grid, which shows a block
    (the cross when it is the middle cell), and every block of the grid is
    the cell of some position. *)
Theorem ascii_plot_layer_shows_every_position (positions : list (Q * Q))
    (width height : nat) :
  (1 <= width)%nat -> (1 <= height)%nat ->
  (Z.of_nat width <= 2 ^ 53)%Z -> (Z.of_nat height <= 2 ^ 53)%Z ->
  positions <> [] ->
  Forall (fun p : Q * Q => b64 p.1 == p.1 /\ b64 p.2 == p.2) positions ->
  exists w g,
    bounds positions = Some w
    /\ ascii_plot_layer positions width height = Ok (Some g)
    /\ (forall p, In p positions ->
          exists r c : nat,
            layer_grid_xy w width height p.1 p.2 = (Z.of_nat c, Z.of_nat r)
            /\ (r < height)%nat /\ (c < width)%nat
            /\ grid_get g r c
               = Ok (if (r =? height / 2)%nat && (c =? width / 2)%nat then Cross else Block))
    /\ (forall r c, grid_get g r c = Ok Block ->
          exists p, In p positions
                    /\ layer_grid_xy w width height p.1 p.2 = (Z.of_nat c, Z.of_nat r)).
Proof.
  intros Hw Hh Hbw Hbh Hne Hfloat.
  destruct (bounds positions) as [w|] eqn:Hb;
    [|destruct positions; [congruence | discriminate]].
  destruct (layer_cells_aux positions w width height Hw Hh Hb) as [g [Hrun [Hg Hcells]]].
  pose proof (bounds_window positions w Hb Hfloat) as Hall.
  exists w, g. split; [reflexivity|]. split; [exact Hrun|]. split.
  - intros p Hp.
    rewrite Forall_forall in Hall. specialize (Hall p (proj2 (list_elem_of_In _ _) Hp)).
    destruct Hall as [[Hx0 Hx1] [Hy0 Hy1]].
    destruct w as [[[lx hx] ly] hy]. cbn [fst snd] in *.
    pose proof (axis_index_bounds lx hx p.1 width Hw Hbw Hx0 Hx1) as Hgx.
    pose proof (axis_index_bounds ly hy p.2 height Hh Hbh Hy0 Hy1) as Hgy.
    set (gx := py_int (fmul (fdiv (fsub p.1 lx) (fsub hx lx))
                            (inject_Z (Z.of_nat width - 1)))) in *.
    set (gy := py_int (fmul (fdiv (fsub p.2 ly) (fsub hy ly))
                            (inject_Z (Z.of_nat height - 1)))) in *.
    exists (Z.to_nat (Z.of_nat height - 1 - gy)), (Z.to_nat gx).
    assert (Hcell : layer_grid_xy (lx, hx, ly, hy) width height p.1 p.2
                    = (Z.of_nat (Z.to_nat gx), Z.of_nat (Z.to_nat (Z.of_nat height - 1 - gy)))).
    { unfold layer_grid_xy. fold gx gy. rewrite !Z2Nat.id by lia. reflexivity. }
    split; [exact Hcell|]. split; [lia|]. split; [lia|].
    rewrite Hcells by lia. f_equal. unfold layer_cell.
    destruct ((Z.to_nat (Z.of_nat height - 1 - gy) =? height / 2)%nat
              && (Z.to_nat gx =? width / 2)%nat); [reflexivity|].
    assert (Hex : existsb (layer_hits (lx, hx, ly, hy) width height
                             (Z.to_nat (Z.of_nat height - 1 - gy)) (Z.to_nat gx)) positions
                  = true).
    { apply existsb_exists. exists p. split; [exact Hp|].
      apply layer_hits_cell. split; [exact Hcell | lia]. }
    rewrite Hex. reflexivity.
  - intros r c Hblock.
    destruct (grid_get_range _ _ _ _ _ _ Hg Hblock) as [Hr Hc].
    rewrite (Hcells r c Hr Hc) in Hblock. injection Hblock as Hblock.
    unfold layer_cell in Hblock.
    destruct ((r =? height / 2)%nat && (c =? width / 2)%nat); [discriminate|].
    destruct (existsb (layer_hits w width height r c) positions) eqn:Hex.
    + apply existsb_exists in Hex as [p [Hp Hhit]].
      exists p. split; [exact Hp|]. apply layer_hits_cell in Hhit. tauto.
    + destruct (c =? width / 2)%nat; [discriminate|].
      destruct (r =? height / 2)%nat; discriminate.
Qed.

Lemma ascii_plot_layer_shows_every_position_witness :
  exists w g,
    bounds [(0, 0); (10, 0)] = Some w
    /\ ascii_plot_layer [(0, 0); (10, 0)] 80 40 = Ok (Some g)
    /\ (exists r c : nat,
          layer_grid_xy w 80 40 10 0 = (Z.of_nat c, Z.of_nat r)
          /\ (r < 40)%nat /\ (c < 80)%nat
          /\ grid_get g r c = Ok (if (r =? 40 / 2)%nat && (c =? 80 / 2)%nat then Cross else Block)).
Proof.
  destruct (ascii_plot_layer_shows_every_position [(0, 0); (10, 0)] 80 40
              ltac:(lia) ltac:(lia) ltac:(lia) ltac:(lia) ltac:(discriminate)
              ltac:(repeat constructor)) as [w [g [Hb [Hrun [Hall _]]]]].
  exists w, g. split; [exact Hb|]. split; [exact Hrun|].
  exact (Hall (10, 0) (or_intror (or_introl eq_refl))).
Defined.

(** [plot_cross_section] shows every point of the layer that lies in the
    window from -8 to 8, and marks nothing else as data: on a grid of at
    least two rows and two columns the cell of such a point shows a data
    mark or, at the crossing of the axes, the cross; and a cell that shows
    a data mark is the cell of a point of the layer, the mark being that
    of the last such point in the list. *)
Theorem cross_section_shows_window_points (pts : list (Q * Q)) (width height : nat) :
  (2 <= width)%nat -> (2 <= height)%nat ->
  (Z.of_nat width <= 2 ^ 53)%Z -> (Z.of_nat height <= 2 ^ 53)%Z ->
  exists g,
    cross_section_grid pts width height = Ok g
    /\ (forall p, In p pts ->
          min_x <= p.1 -> p.1 <= max_x -> min_y <= p.2 -> p.2 <= max_y ->
          exists (r c : nat) (v : glyph),
            grid_xy width height p.1 p.2 = (Z.of_nat c, Z.of_nat r)
            /\ grid_get g r c = Ok v
            /\ (v = Cross \/ is_data v = true))
    /\ (forall r c v, grid_get g r c = Ok v -> is_data v = true ->
          exists p, In p pts
                    /\ grid_xy width height p.1 p.2 = (Z.of_nat c, Z.of_nat r)
                    /\ v = mark p
                    /\ last_hit (hits width height r c) pts = Some p).
Proof.
  intros Hw Hh Hbw Hbh.
  destruct (cross_section_cells_aux pts width height Hw Hh) as [g [Hrun [Hg Hcells]]].
  exists g. split; [exact Hrun|]. split.
  - intros p Hp Hx0 Hx1 Hy0 Hy1.
    destruct (grid_xy_in_window width height p.1 p.2 ltac:(lia) ltac:(lia) Hbw Hbh
                Hx0 Hx1 Hy0 Hy1)
      as [r [c [Hcell [Hr Hc]]]].
    exists r, c, (cross_section_cell pts width height r c).
    split; [exact Hcell|]. split; [apply Hcells; assumption|].
    unfold cross_section_cell.
    destruct ((r =? Z.to_nat (zero_y height))%nat && (c =? Z.to_nat (zero_x width))%nat);
      [left; reflexivity|].
    right.
    destruct (last_hit (hits width height r c) pts) as [q|] eqn:Elast.
    + unfold mark. destruct (sqrt_gt _ _); reflexivity.
    + exfalso. apply last_hit_none in Elast.
      apply not_true_iff_false in Elast. apply Elast.
      apply existsb_exists. exists p. split; [exact Hp|].
      apply hits_cell. split; [exact Hcell | split; assumption].
  - intros r c v Hv Hdata.
    destruct (grid_get_range _ _ _ _ _ _ Hg Hv) as [Hr Hc].
    rewrite (Hcells r c Hr Hc) in Hv. injection Hv as <-.
    unfold cross_section_cell in *.
    destruct ((r =? Z.to_nat (zero_y height))%nat && (c =? Z.to_nat (zero_x width))%nat);
      [discriminate|].
    destruct (last_hit (hits width height r c) pts) as [q|] eqn:Elast.
    + exists q. unfold last_hit in Elast.
      destruct (last_hit_some _ _ _ _ Elast) as [[Hq Hhit]|Hbad]; [|discriminate].
      apply hits_cell in Hhit. split; [exact Hq|]. split; [tauto|].
      split; reflexivity.
    + destruct (c =? Z.to_nat (zero_x width))%nat; [discriminate|].
      destruct (r =? Z.to_nat (zero_y height))%nat; [discriminate|].
      destruct (on_circle width height c r); discriminate.
Qed.

Lemma cross_section_shows_window_points_witness :
  exists g,
    cross_section_grid [(3, 0); (0, 7)] 70 35 = Ok g
    /\ exists (r c : nat) (v : glyph),
         grid_xy 70 35 0 7 = (Z.of_nat c, Z.of_nat r)
         /\ grid_get g r c = Ok v
         /\ (v = Cross \/ is_data v = true).
Proof.
  destruct (cross_section_shows_window_points [(3, 0); (0, 7)] 70 35
              ltac:(lia) ltac:(lia) ltac:(lia) ltac:(lia)) as [g [Hrun [Hall _]]].
  exists g. split; [exact Hrun|].
  refine (Hall (0, 7) (or_intror (or_introl eq_refl)) _ _ _ _);
    unfold min_x, max_x, min_y, max_y, extent; cbn [fst snd]; lra.
Defined.

End Visibility.

Section SmallGrids.
Import Raster.

Lemma for_each_nothing {S A : Type} (body : S -> A -> result S) (l : list A) :
  (forall st a, body st a = Ok st) -> forall st, for_each body st l = Ok st.
Proof.
  intros Hbody. induction l as [|a l IH]; intros st; [reflexivity|].
  rewrite for_each_cons, Hbody. exact (IH st).
Qed.

Lemma plotted_shape_any (pts : list (Q * Q)) (width height : nat) (g : list (list glyph)) :
  grid_shape width height g ->
  exists g', for_each (plot_point width height) g pts = Ok g' /\ grid_shape width height g'.
Proof.
  intros Hg. apply (for_each_total _ (grid_shape width height)); [|exact Hg].
  intros g2 p Hg2 _. destruct (plot_point_total width height g2 p Hg2) as [g' [H [Hg' _]]].
  eauto.
Qed.

Lemma circle_cell_one_row (width i : nat) (g : list (list glyph)) :
  (2 <= width)%nat -> circle_cell width 1 i 0 g = Raise ZeroDivisionError.
Proof.
  intros Hw. unfold circle_cell.
  rewrite (py_div_ok (inject_Z (Z.of_nat i)) (inject_Z (Z.of_nat width - 1)))
    by (apply pred_width_nonzero; exact Hw).
  reflexivity.
Qed.

(** [plot_cross_section] needs a grid of at least two rows and two
    columns.  With one column or one row the reference-circle loop
    divides by [width - 1] or [height - 1], which is zero; with no column
    or no row the axes are written outside the grid. *)
Theorem cross_section_grid_needs_two_by_two (pts : list (Q * Q)) (width height : nat) :
  match cross_section_grid pts width height with
  | Ok g => (2 <= width)%nat /\ (2 <= height)%nat /\ grid_shape width height g
  | Raise e =>
      (e = ZeroDivisionError
       /\ ((width = 1%nat /\ (1 <= height)%nat) \/ ((2 <= width)%nat /\ height = 1%nat)))
      \/ (e = IndexError /\ (width = 0%nat \/ height = 0%nat))
  end.
Proof.
  destruct (le_lt_dec 2 width) as [Hw|Hw]; [destruct (le_lt_dec 2 height) as [Hh|Hh]|].
  - (* at least two by two *)
    destruct (plotted_grid_total pts width height Hw Hh) as [g0 [Hplot Hg0]].
    destruct (zero_xy_range width height) as [Hzx Hzy]; [lia | lia |].
    destruct (draw_axes_spec blank_or_dot _ _ width height g0 Hg0 Hzx Hzy)
      as [g [Haxes [Hg _]]].
    unfold cross_section_grid. rewrite Hplot.
    change (add_axes width height g0) with
      (draw_axes blank_or_dot (Z.to_nat (zero_x width)) (Z.to_nat (zero_y height))
                 width height g0) in *.
    unfold mbind, result_bind. unfold add_axes. rewrite Haxes. auto.
  - destruct height as [|[|height]]; [| |lia].
    + (* no row *)
      assert (E : cross_section_grid pts width 0 = Raise IndexError).
      { unfold cross_section_grid, plotted_grid.
        assert (Hcircle : plot_circle width 0 (blank_grid width 0) = Ok (blank_grid width 0)).
        { unfold plot_circle. apply for_each_nothing. reflexivity. }
        rewrite Hcircle. unfold mbind at 2, result_bind at 2.
        destruct (plotted_shape_any pts width 0 (blank_grid width 0) (blank_grid_shape width 0))
          as [g0 [Hplot [Hlen _]]].
        rewrite Hplot. unfold mbind, result_bind.
        destruct g0; [|discriminate].
        unfold add_axes, draw_axes. simpl seq at 1. simpl for_each at 2.
        unfold mbind at 2, result_bind at 2.
        destruct width as [|width]; [lia|]. reflexivity. }
      rewrite E. right. split; [reflexivity | right; reflexivity].
    + (* one row *)
      assert (E : cross_section_grid pts width 1 = Raise ZeroDivisionError).
      { unfold cross_section_grid, plotted_grid.
        assert (Hcircle : plot_circle width 1 (blank_grid width 1) = Raise ZeroDivisionError).
        { unfold plot_circle. destruct width as [|width]; [lia|].
          cbn [seq]. rewrite for_each_cons. cbn [for_each].
          rewrite circle_cell_one_row by exact Hw. reflexivity. }
        rewrite Hcircle. reflexivity. }
      rewrite E. left. split; [reflexivity | right; split; [exact Hw | reflexivity]].
  - destruct width as [|[|width]]; [| |lia].
    + (* no column *)
      assert (E : cross_section_grid pts 0 height = Raise IndexError).
      { unfold cross_section_grid, plotted_grid.
        change (plot_circle 0 height (blank_grid 0 height)) with
          (Ok (blank_grid 0 height) : result (list (list glyph))).
        unfold mbind at 2, result_bind at 2.
        destruct (plotted_shape_any pts 0 height (blank_grid 0 height)
                    (blank_grid_shape 0 height)) as [g0 [Hplot [Hlen Hrows]]].
        rewrite Hplot. unfold mbind, result_bind.
        unfold add_axes, draw_axes.
        destruct height as [|height].
        * destruct g0; [reflexivity | discriminate].
        * destruct g0 as [|row g0]; [discriminate|].
          apply Forall_cons in Hrows as [Hrow _].
          destruct row; [|discriminate]. reflexivity. }
      rewrite E. right. split; [reflexivity | left; reflexivity].
    + (* one column *)
      destruct height as [|height].
      * assert (E : cross_section_grid pts 1 0 = Raise IndexError).
        { unfold cross_section_grid, plotted_grid.
          change (plot_circle 1 0 (blank_grid 1 0)) with
            (Ok (blank_grid 1 0) : result (list (list glyph))).
          unfold mbind at 2, result_bind at 2.
          destruct (plotted_shape_any pts 1 0 (blank_grid 1 0) (blank_grid_shape 1 0))
            as [g0 [Hplot [Hlen _]]].
          rewrite Hplot. destruct g0; [reflexivity | discriminate]. }
        rewrite E. right. split; [reflexivity | right; reflexivity].
      * assert (E : cross_section_grid pts 1 (S height) = Raise ZeroDivisionError)
          by reflexivity.
        rewrite E. left. split; [reflexivity | left; split; [reflexivity | lia]].
Qed.

End SmallGrids.

(** ** The bounding box of [check_geometry_issues] *)

Section BoundingBox.
Import Parser Validator.

(** The spread of one column: the float [max - min] bounds the float
    difference of any two entries and is the difference of two of them. *)
Lemma column_spread (f : position -> Q) (p : position) (rest : list position) :
  let d := Float.fsub (Raster.py_max (f p) (map f rest)) (Raster.py_min (f p) (map f rest)) in
  0 <= d
  /\ (forall a b, In a (p :: rest) -> In b (p :: rest) -> Float.fsub (f a) (f b) <= d)
  /\ (exists a b, In a (p :: rest) /\ In b (p :: rest) /\ d = Float.fsub (f a) (f b)).
Proof.
  intros d. subst d.
  destruct (py_min_spec (map f rest) (f p)) as [Hlo Hlos].
  destruct (py_max_spec (map f rest) (f p)) as [Hhi His].
  assert (Hbound : forall a, In a (p :: rest) ->
            Raster.py_min (f p) (map f rest) <= f a /\ f a <= Raster.py_max (f p) (map f rest)).
  { intros a [<-|Ha]; [split; assumption|].
    rewrite Forall_forall in Hlos, His.
    assert (Hfa : f a ∈ map f rest).
    { apply list_elem_of_In. apply in_map. exact Ha. }
    split; [apply Hlos | apply His]; exact Hfa. }
  split; [unfold Float.fsub; apply b64_ge_0; lra|]. split.
  - intros a b Ha Hb. destruct (Hbound a Ha) as [_ Ha1]. destruct (Hbound b Hb) as [Hb0 _].
    unfold Float.fsub. apply b64_monotone. lra.
  - pose proof (py_max_in (map f rest) (f p)) as Hmax.
    pose proof (py_min_in (map f rest) (f p)) as Hmin.
    change (f p :: map f rest) with (map f (p :: rest)) in Hmax, Hmin.
    apply in_map_iff in Hmax as [a [Ea Ha]]. apply in_map_iff in Hmin as [b [Eb Hb]].
    exists a, b. split; [exact Ha|]. split; [exact Hb|]. rewrite Ea, Eb. reflexivity.
Qed.

(** [check_geometry_issues] fails exactly on an array without positions,
    with the [ValueError] of the reduction [min].  Otherwise each entry of
    the [dims] it returns is the largest difference two positions have in
    that coordinate, as floats subtract: it is not negative, no two
    positions differ by more, and two of them differ by exactly that. *)
Theorem dims_is_largest_difference (positions : list position) :
  match check_geometry_issues positions with
  | Ok rep =>
      positions <> []
      /\ (0 <= (dims rep).1.1
          /\ (forall a b, In a positions -> In b positions ->
                          Float.fsub a.1.1 b.1.1 <= (dims rep).1.1)
          /\ exists a b, In a positions /\ In b positions
                         /\ (dims rep).1.1 = Float.fsub a.1.1 b.1.1)
      /\ (0 <= (dims rep).1.2
          /\ (forall a b, In a positions -> In b positions ->
                          Float.fsub a.1.2 b.1.2 <= (dims rep).1.2)
          /\ exists a b, In a positions /\ In b positions
                         /\ (dims rep).1.2 = Float.fsub a.1.2 b.1.2)
      /\ (0 <= (dims rep).2
          /\ (forall a b, In a positions -> In b positions ->
                          Float.fsub a.2 b.2 <= (dims rep).2)
          /\ exists a b, In a positions /\ In b positions
                         /\ (dims rep).2 = Float.fsub a.2 b.2)
  | Raise e => positions = [] /\ exists msg, e = ValueError msg
  end.
Proof.
  destruct positions as [|p rest].
  - simpl. split; [reflexivity | eexists; reflexivity].
  - unfold check_geometry_issues. cbn [dims fst snd].
    split; [discriminate|].
    split; [exact (column_spread (fun q => q.1.1) p rest)|].
    split; [exact (column_spread (fun q => q.1.2) p rest)|].
    exact (column_spread (fun q => q.2) p rest).
Qed.

End BoundingBox.

(** ** The layers the command line shows *)

Section Targets.
Import Cli.

(** [closest_from]: the running best is replaced only by an element
    strictly nearer. *)
Lemma closest_from_spec (z : Q) (l : list Q) :
  forall best,
    (closest_from z best l = best
     /\ Forall (fun k' => Qabs (Float.fsub best z) <= Qabs (Float.fsub k' z)) l)
    \/ (exists pre post,
          l = pre ++ closest_from z best l :: post
          /\ Qabs (Float.fsub (closest_from z best l) z) < Qabs (Float.fsub best z)
          /\ Forall (fun k' => Qabs (Float.fsub (closest_from z best l) z) < Qabs (Float.fsub k' z)) pre
          /\ Forall (fun k' => Qabs (Float.fsub (closest_from z best l) z) <= Qabs (Float.fsub k' z)) post).
Proof.
  induction l as [|k rest IH]; intros best.
  - left. split; [reflexivity | constructor].
  - cbn [closest_from]. destruct (Qltb (Qabs (Float.fsub k z)) (Qabs (Float.fsub best z))) eqn:E.
    + apply Qltb_lt in E. right.
      destruct (IH k) as [[Hk Hall]|[pre [post [Hl [Hlt [Hpre Hpost]]]]]].
      * exists [], rest. rewrite Hk. split; [reflexivity|]. split; [exact E|].
        split; [constructor | exact Hall].
      * exists (k :: pre), post. split; [simpl; rewrite <- Hl; reflexivity|].
        split; [lra|]. split; [|exact Hpost].
        constructor; [exact Hlt | exact Hpre].
    + apply Qltb_ge in E.
      destruct (IH best) as [[Hk Hall]|[pre [post [Hl [Hlt [Hpre Hpost]]]]]].
      * left. split; [exact Hk|]. constructor; [exact E | exact Hall].
      * right. exists (k :: pre), post. split; [simpl; rewrite <- Hl; reflexivity|].
        split; [exact Hlt|]. split; [|exact Hpost].
        constructor; [lra | exact Hpre].
Qed.

(** [min(available_z, key=lambda x: abs(x - z))] fails only on an empty
    list; otherwise it returns the first of the elements nearest to [z]:
    every element before it is strictly farther from [z], every element
    after it at least as far, the distances being those of float
    subtraction. *)
Theorem closest_is_first_nearest (z : Q) (avail : list Q) :
  match closest z avail with
  | Ok k =>
      exists pre post,
        avail = pre ++ k :: post
        /\ Forall (fun k' => Qabs (Float.fsub k z) < Qabs (Float.fsub k' z)) pre
        /\ Forall (fun k' => Qabs (Float.fsub k z) <= Qabs (Float.fsub k' z)) post
  | Raise e => avail = [] /\ exists msg, e = ValueError msg
  end.
Proof.
  destruct avail as [|k0 rest].
  - simpl. split; [reflexivity | eexists; reflexivity].
  - cbn [closest].
    destruct (closest_from_spec z rest k0) as [[Hk Hall]|[pre [post [Hl [Hlt [Hpre Hpost]]]]]].
    + exists [], rest. rewrite Hk. split; [reflexivity|]. split; [constructor | exact Hall].
    + exists (k0 :: pre), post. split; [simpl; rewrite <- Hl; reflexivity|].
      split; [|exact Hpost].
      constructor; [exact Hlt | exact Hpre].
Qed.


Lemma map_result_ok {A B : Type} (f : A -> result B) (g : A -> B) (l : list A) :
  (forall a, In a l -> f a = Ok (g a)) -> map_result f l = Ok (map g l).
Proof.
  induction l as [|a l IH]; intros Hf; [reflexivity|].
  cbn [map_result map]. rewrite (Hf a (or_introl eq_refl)).
  unfold mbind, result_bind. fold (@map_result A B).
  rewrite IH by (intros a' Ha'; apply Hf; right; exact Ha'). reflexivity.
Qed.

Lemma sample_index_in_range (n i : nat) :
  (1 <= n)%nat -> (i < num_samples)%nat -> (i * (n / num_samples) < n)%nat.
Proof.
  unfold num_samples. intros Hn Hi.
  pose proof (Nat.Div0.mul_div_le n 8) as Hdiv.
  destruct (n / 8)%nat as [|q] eqn:E; [lia|]. nia.
Qed.

Lemma sample_lookup (avail : list Q) (i : nat) :
  avail <> [] -> (i < 8)%nat ->
  avail !! (i * (length avail / 8))%nat = Some (nth (i * (length avail / 8)) avail 0).
Proof.
  intros Hne Hi.
  assert (Hn : (1 <= length avail)%nat) by (destruct avail; [congruence | simpl; lia]).
  pose proof (sample_index_in_range (length avail) i Hn Hi) as Hlt.
  unfold num_samples in Hlt.
  destruct (nth_lookup_or_length avail (i * (length avail / 8)) 0) as [H|H];
    [exact H | lia].
Qed.

Lemma sample_targets_value (avail : list Q) :
  avail <> [] ->
  sample_targets avail
  = Ok (map (fun i : nat => nth (i * (length avail / 8)) avail 0) (seq 0 8)).
Proof.
  intros Hne. unfold sample_targets. apply map_result_ok.
  intros i Hi. apply in_seq in Hi. unfold index, num_samples in *.
  rewrite (sample_lookup avail i Hne) by lia. reflexivity.
Qed.

(** The default selection of layers, [available_z[i * step]] for [i] in
    [range(8)] with [step = len(available_z) // 8], fails only on an empty
    list, with [IndexError].  Otherwise it returns eight entries of the
    list, entry [i] being the one of index [i * step]: the first entry of
    the list (the lowest layer) always comes first; with fewer than eight
    layers [step] is zero and all eight entries are the first entry of the
    list; with more than eight layers the last entry of the list (the
    highest layer) is never selected. *)
Theorem sample_targets_selection (avail : list Q) :
  match sample_targets avail with
  | Ok ts =>
      avail <> []
      /\ length ts = 8%nat
      /\ (forall i, (i < 8)%nat ->
            (i * (length avail / 8) < length avail)%nat
            /\ ts !! i = avail !! (i * (length avail / 8))%nat)
      /\ ((length avail < 8)%nat -> forall i, (i < 8)%nat -> ts !! i = avail !! 0%nat)
      /\ ((8 < length avail)%nat ->
          forall i, (i < 8)%nat -> (i * (length avail / 8) < length avail - 1)%nat)
  | Raise e => avail = [] /\ e = IndexError
  end.
Proof.
  destruct avail as [|k0 rest]; [split; reflexivity|].
  set (avail := k0 :: rest).
  assert (Hne : avail <> []) by discriminate.
  assert (Hn : (1 <= length avail)%nat) by (simpl; lia).
  rewrite (sample_targets_value avail Hne).
  split; [exact Hne|]. split; [reflexivity|]. split; [|split].
  - intros i Hi. split; [exact (sample_index_in_range (length avail) i Hn Hi)|].
    rewrite (sample_lookup avail i Hne Hi).
    change (map ?f ?l) with (f <$> l).
    rewrite list_lookup_fmap. rewrite lookup_seq_lt by lia.
    reflexivity.
  - intros Hshort i Hi.
    change (map ?f ?l) with (f <$> l).
    rewrite list_lookup_fmap. rewrite lookup_seq_lt by lia.
    rewrite Nat.div_small by exact Hshort. cbn [fmap option_fmap option_map].
    rewrite Nat.mul_0_r. reflexivity.
  - intros Hlong i Hi.
    pose proof (Nat.div_mod_eq (length avail) 8) as Hdm.
    pose proof (Nat.mod_upper_bound (length avail) 8 ltac:(lia)) as Hr.
    nia.
Qed.

End Targets.

(** ** A run of the command line *)

Section CommandLine.
Import Parser Layers Raster Cli Spec.









End CommandLine.

(** ** A run of the validation script *)

Section ValidationScript.
Import Parser Raster Validator Script Spec.

Lemma map_result_related {A B : Type} (f : A -> result B) (R : A -> B -> Prop) (l : list A) :
  (forall a, In a l -> exists b, f a = Ok b /\ R a b) ->
  exists bs, Cli.map_result f l = Ok bs /\ Forall2 R l bs.
Proof.
  induction l as [|a l IH]; intros Hf.
  - exists []. split; [reflexivity | constructor].
  - destruct (Hf a (or_introl eq_refl)) as [b [Hb HR]].
    destruct (IH (fun a' Ha' => Hf a' (or_intror Ha'))) as [bs [Hbs Hall]].
    exists (b :: bs). cbn [Cli.map_result]. rewrite Hb. unfold mbind, result_bind.
    fold (@Cli.map_result A B). rewrite Hbs.
    split; [reflexivity | constructor; assumption].
Qed.

(** The turns that printed something are those of the elements that pass
    the test, in order. *)
Lemma printed_selected {A B : Type} (c : A -> bool) (P : A -> B -> Prop)
    (l : list A) (turns : list (option (A * B))) :
  Forall2 (fun a t => if c a then exists b, t = Some (a, b) /\ P a b else t = None) l turns ->
  map fst (printed turns) = List.filter c l
  /\ Forall (fun s : A * B => P s.1 s.2) (printed turns).
Proof.
  unfold printed. induction 1 as [|a t l turns Hat _ IH]; [split; [reflexivity | constructor]|].
  destruct IH as [IH1 IH2]. cbn [omap list_omap List.filter].
  destruct (c a).
  - destruct Hat as [b [-> Hb]]. cbn [map fst]. split; [rewrite <- IH1; reflexivity|].
    constructor; [exact Hb | exact IH2].
  - rewrite Hat. split; assumption.
Qed.

(** What [plot_cross_section] shows for the height [z]. *)
Lemma plot_cross_section_section (arctan2_deg : Q -> Q -> Q) (positions : list position)
    (z : Q) :
  positions <> [] ->
  exists s,
    plot_cross_section arctan2_deg positions z tolerance 70 35 = Ok s
    /\ let pts := layer_points positions z tolerance in
       match s with
       | None => pts = []
       | Some (k, g, gap) =>
           k = length pts /\ (1 <= k)%nat
           /\ cross_section_grid pts 70 35 = Ok g
           /\ gap = opening (angles_sorted arctan2_deg pts)
       end.
Proof.
  intros Hne. unfold plot_cross_section.
  destruct positions as [|p rest]; [congruence|].
  cbv zeta.
  destruct (layer_points (p :: rest) z tolerance) as [|q pts] eqn:E.
  - exists None. split; reflexivity.
  - destruct (cross_section_grid_total (q :: pts) 70 35 ltac:(lia) ltac:(lia)) as [g [Hg _]].
    cbn [length Nat.eqb]. rewrite Hg. eexists. split; [reflexivity|].
    split; [reflexivity|]. split; [simpl; lia|]. split; reflexivity.
Qed.

(** The script fails only with a [ValueError]: of [float] on a malformed
    coordinate token, or of the reduction [min] when no line is an
    extrusion move.  Otherwise it reports one position per extrusion line
    and prints a section for exactly the key heights that do not exceed
    the highest position, in the order of the list; a section holds the
    no-data message when no position lies within 0.15 of its height, else
    the number of those positions, their grid and the opening found. *)
Theorem script_outcome (arctan2_deg : Q -> Q -> Q) (lines : list string) :
  match main arctan2_deg lines with
  | Ok (n, rep, sections) =>
      forallb line_ok lines = true
      /\ n = length (List.filter (fun raw => is_extrusion (clean raw)) lines)
      /\ (1 <= n)%nat
      /\ exists positions top,
           parse_gcode_detailed lines = Ok positions
           /\ z_max positions = Ok top
           /\ Forall (fun p : position => p.2 <= top) positions
           /\ map fst sections = List.filter (fun z => Qle_bool z top) key_heights
           /\ Forall (fun s : Q * option (nat * list (list glyph) * option (Q * Q * Q)) =>
                        let pts := layer_points positions s.1 tolerance in
                        match s.2 with
                        | None => pts = []
                        | Some (k, g, gap) =>
                            k = length pts /\ (1 <= k)%nat
                            /\ cross_section_grid pts 70 35 = Ok g
                            /\ gap = opening (angles_sorted arctan2_deg pts)
                        end) sections
  | Raise e =>
      (exists msg, e = ValueError msg)
      /\ (forallb line_ok lines = false
          \/ List.filter (fun raw => is_extrusion (clean raw)) lines = [])
  end.
Proof.
  pose proof (parse_gcode_detailed_outcome lines) as Hout.
  unfold main.
  destruct (parse_gcode_detailed lines) as [positions|e] eqn:Hparse.
  2:{ destruct Hout as [Hbad Hexn]. cbn. split; [exact Hexn | left; exact Hbad]. }
  unfold mbind at 1, result_bind at 1.
  assert (Hcount : length positions
                   = length (List.filter (fun raw => is_extrusion (clean raw)) lines)).
  { unfold parse_gcode_detailed in Hparse.
    destruct (for_each step_detailed (initial_pos, []) lines) as [[c' ps']|e] eqn:Hrun;
      [|discriminate].
    injection Hparse as <-. exact (detailed_positions_count lines _ _ _ _ Hrun). }
  destruct positions as [|p rest].
  - cbn. split; [eexists; reflexivity|]. right.
    destruct (List.filter _ lines); [reflexivity | discriminate].
  - set (positions := p :: rest) in *.
    assert (Hne : positions <> []) by discriminate.
    destruct (check_geometry_issues_warning p rest) as [d Hrep].
    fold positions in Hrep. rewrite Hrep. unfold mbind at 1, result_bind at 1.
    set (top := py_max p.2 (map (fun q : position => q.2) rest)).
    assert (Htop : z_max positions = Ok top) by reflexivity.
    destruct (map_result_related (section_at arctan2_deg positions)
                (fun z t =>
                   if Qle_bool z top
                   then exists s, t = Some (z, s)
                        /\ let pts := layer_points positions z tolerance in
                           match s with
                           | None => pts = []
                           | Some (k, g, gap) =>
                               k = length pts /\ (1 <= k)%nat
                               /\ cross_section_grid pts 70 35 = Ok g
                               /\ gap = opening (angles_sorted arctan2_deg pts)
                           end
                   else t = None) key_heights) as [turns [Hturns Hrel]].
    { intros z _. unfold section_at. rewrite Htop. unfold mbind at 1, result_bind at 1.
      destruct (Qle_bool z top); [|exists None; split; reflexivity].
      destruct (plot_cross_section_section arctan2_deg positions z Hne) as [s [Hs Hsec]].
      rewrite Hs. exists (Some (z, s)). split; [reflexivity|].
      exists s. split; [reflexivity | exact Hsec]. }
    rewrite Hturns. cbn [mbind result_bind].
    destruct (printed_selected (fun z => Qle_bool z top) _ _ _ Hrel) as [Hsel Hsecs].
    split; [exact Hout|]. split; [exact Hcount|]. split; [simpl; lia|].
    exists positions, top. split; [reflexivity|]. split; [exact Htop|].
    split; [|split; [exact Hsel | exact Hsecs]].
    destruct (py_max_spec (map (fun q : position => q.2) rest) p.2) as [Hhi His].
    constructor; [exact Hhi|]. rewrite Forall_map in His. exact His.
Qed.

End ValidationScript.

(** ** Comments *)

Section Comments.
Import Text Parser Layers.

Lemma append_cons (c : ascii) (a b : string) :
  (String c a ++ b)%string = String c (a ++ b)%string.
Proof. reflexivity. Qed.

Lemma append_nil (b : string) : (EmptyString ++ b)%string = b.
Proof. reflexivity. Qed.

Lemma lstrip_sep (a b : string) :
  lstrip (a ++ String ";" b)%string = (lstrip a ++ String ";" b)%string.
Proof.
  induction a as [|c a IH]; [reflexivity|].
  rewrite append_cons. cbn [lstrip]. destruct (is_space c); [exact IH|].
  rewrite append_cons. reflexivity.
Qed.

Lemma rstrip_sep (x b : string) :
  rstrip (x ++ String ";" b)%string = (x ++ String ";" (rstrip b))%string.
Proof.
  induction x as [|c x IH].
  - rewrite !append_nil. cbn [rstrip]. destruct (rstrip b); reflexivity.
  - rewrite !append_cons. cbn [rstrip]. rewrite IH. destruct x; reflexivity.
Qed.

Lemma split_head_sep (x t : string) :
  split_head ";" (x ++ String ";" t)%string = split_head ";" x.
Proof.
  induction x as [|c x IH]; [reflexivity|].
  rewrite append_cons. cbn [split_head]. destruct (Ascii.eqb c ";"); [reflexivity|].
  rewrite IH. reflexivity.
Qed.

(** The cleaned text of a line that carries a comment. *)
Lemma clean_commented (a b : string) :
  clean (a ++ String ";" b)%string = split_head ";" (lstrip a).
Proof. unfold clean, strip. rewrite lstrip_sep, rstrip_sep, split_head_sep. reflexivity. Qed.

Lemma space_is_no_separator (c : ascii) : is_space c = true -> Ascii.eqb c ";" = false.
Proof.
  destruct c as [[] [] [] [] [] [] [] []]; intros H; try reflexivity; discriminate H.
Qed.

Lemma space_is_no_coord_char (c : ascii) : is_space c = true -> coord_char c = false.
Proof.
  destruct c as [[] [] [] [] [] [] [] []]; intros H; try reflexivity; discriminate H.
Qed.

(** Trailing blanks: what [rstrip] removes before the text is split. *)
Lemma split_head_rstrip (x : string) :
  exists ws,
    forallb is_space (list_ascii_of_string ws) = true
    /\ split_head ";" x = (split_head ";" (rstrip x) ++ ws)%string.
Proof.
  induction x as [|c x [ws [Hws IH]]]; [exists EmptyString; split; reflexivity|].
  cbn [rstrip split_head]. destruct (rstrip x) as [|d t] eqn:E.
  - cbn [split_head] in IH. rewrite append_nil in IH.
    destruct (is_space c) eqn:Ec.
    + rewrite (space_is_no_separator c Ec). exists (String c ws).
      split; [cbn [list_ascii_of_string forallb]; rewrite Ec; exact Hws|].
      rewrite IH. reflexivity.
    + cbn [split_head]. destruct (Ascii.eqb c ";").
      * exists EmptyString. split; reflexivity.
      * exists ws. split; [exact Hws|]. rewrite IH. reflexivity.
  - cbn [split_head]. destruct (Ascii.eqb c ";").
    + exists EmptyString. split; reflexivity.
    + exists ws. split; [exact Hws|]. rewrite IH. reflexivity.
Qed.

Lemma lstrip_head (a : string) :
  lstrip a = EmptyString \/ exists c x, lstrip a = String c x /\ is_space c = false.
Proof.
  induction a as [|c a IH]; [left; reflexivity|].
  cbn [lstrip]. destruct (is_space c) eqn:Ec; [exact IH|].
  right. exists c, a. split; [reflexivity | exact Ec].
Qed.

Lemma rstrip_head (c : ascii) (x : string) :
  is_space c = false -> exists t, rstrip (String c x) = String c t.
Proof.
  intros Ec. cbn [rstrip]. rewrite Ec. destruct (rstrip x); eexists; reflexivity.
Qed.

(** A commented line is cleaned to the cleaned text of the line without
    the comment, followed by the blanks that stood before the comment. *)
Lemma clean_comment_blanks (a b : string) :
  exists ws,
    forallb is_space (list_ascii_of_string ws) = true
    /\ clean (a ++ String ";" b)%string = (clean a ++ ws)%string
    /\ (clean a = EmptyString -> ws = EmptyString).
Proof.
  rewrite clean_commented. unfold clean, strip.
  destruct (split_head_rstrip (lstrip a)) as [ws [Hws Hsplit]].
  destruct (lstrip_head a) as [E|[c [x [E Ec]]]].
  - exists EmptyString. rewrite E. repeat split; reflexivity.
  - destruct (rstrip_head c x Ec) as [t Ht]. rewrite E in Hsplit |- *. rewrite Ht in Hsplit |- *.
    cbn [split_head] in Hsplit |- *.
    destruct (Ascii.eqb c ";").
    + exists EmptyString. repeat split; reflexivity.
    + exists ws. split; [exact Hws|]. split; [exact Hsplit | discriminate].
Qed.

(** What the parsers look at in a line does not see trailing blanks. *)
Lemma blank_differs (a s : ascii) :
  is_space a = false -> is_space s = true -> Ascii.eqb a s = false.
Proof.
  intros Ha Hs. destruct (Ascii.eqb_spec a s) as [->|]; [congruence | reflexivity].
Qed.

Lemma startswith_blanks (p line ws : string) :
  forallb (fun c => negb (is_space c)) (list_ascii_of_string p) = true ->
  forallb is_space (list_ascii_of_string ws) = true ->
  startswith p (line ++ ws)%string = startswith p line.
Proof.
  revert line. induction p as [|a p IH]; intros line Hp Hws; [destruct line; reflexivity|].
  cbn [list_ascii_of_string forallb] in Hp. apply andb_true_iff in Hp as [Ha Hp].
  apply negb_true_iff in Ha.
  destruct line as [|c line].
  - rewrite append_nil. destruct ws as [|s ws]; [reflexivity|].
    cbn [list_ascii_of_string forallb] in Hws. apply andb_true_iff in Hws as [Hs _].
    cbn [startswith]. rewrite (blank_differs a s Ha Hs). reflexivity.
  - rewrite append_cons. cbn [startswith]. rewrite (IH line Hp Hws). reflexivity.
Qed.

Lemma contains_blanks (c : ascii) (line ws : string) :
  is_space c = false ->
  forallb is_space (list_ascii_of_string ws) = true ->
  contains c (line ++ ws)%string = contains c line.
Proof.
  intros Hc Hws. induction line as [|d line IH].
  - rewrite append_nil. induction ws as [|s ws IHws]; [reflexivity|].
    cbn [list_ascii_of_string forallb] in Hws. apply andb_true_iff in Hws as [Hs Hws].
    cbn [contains]. rewrite (blank_differs c s Hc Hs). exact (IHws Hws).
  - rewrite append_cons. cbn [contains]. rewrite IH. reflexivity.
Qed.

Lemma take_run_blanks (line ws : string) :
  forallb is_space (list_ascii_of_string ws) = true ->
  take_run (line ++ ws)%string = take_run line.
Proof.
  intros Hws. induction line as [|d line IH].
  - rewrite append_nil. destruct ws as [|s ws]; [reflexivity|].
    cbn [list_ascii_of_string forallb] in Hws. apply andb_true_iff in Hws as [Hs _].
    cbn [take_run]. rewrite (space_is_no_coord_char s Hs). reflexivity.
  - rewrite append_cons. cbn [take_run]. rewrite IH. reflexivity.
Qed.

Lemma re_search_blanks (letter : ascii) (line ws : string) :
  is_space letter = false ->
  forallb is_space (list_ascii_of_string ws) = true ->
  re_search letter (line ++ ws)%string = re_search letter line.
Proof.
  intros Hl Hws. induction line as [|d line IH].
  - rewrite append_nil. clear -Hl Hws. induction ws as [|s ws IHws]; [reflexivity|].
    cbn [list_ascii_of_string forallb] in Hws. apply andb_true_iff in Hws as [Hs Hws].
    cbn [re_search]. rewrite Ascii.eqb_sym, (blank_differs letter s Hl Hs). exact (IHws Hws).
  - rewrite append_cons. cbn [re_search]. rewrite IH, (take_run_blanks line ws Hws).
    reflexivity.
Qed.

Lemma eqb_empty_blanks (line ws : string) :
  (line = EmptyString -> ws = EmptyString) ->
  String.eqb (line ++ ws)%string EmptyString = String.eqb line EmptyString.
Proof.
  intros H. destruct line as [|c line]; [rewrite (H eq_refl); reflexivity|].
  reflexivity.
Qed.

Lemma is_positioning_blanks (line ws : string) :
  forallb is_space (list_ascii_of_string ws) = true ->
  is_positioning (line ++ ws)%string = is_positioning line.
Proof.
  intros Hws. unfold is_positioning.
  rewrite !(startswith_blanks _ line ws) by (reflexivity || exact Hws). reflexivity.
Qed.

Lemma is_extrusion_blanks (line ws : string) :
  forallb is_space (list_ascii_of_string ws) = true ->
  is_extrusion (line ++ ws)%string = is_extrusion line.
Proof.
  intros Hws. unfold is_extrusion.
  rewrite (startswith_blanks _ line ws) by (reflexivity || exact Hws).
  rewrite (contains_blanks _ line ws) by (reflexivity || exact Hws). reflexivity.
Qed.

Lemma update_pos_blanks (line ws : string) (cur : current_pos) :
  forallb is_space (list_ascii_of_string ws) = true ->
  update_pos (line ++ ws)%string cur = update_pos line cur.
Proof.
  intros Hws. unfold update_pos.
  rewrite !(re_search_blanks _ line ws) by (reflexivity || exact Hws). reflexivity.
Qed.

Lemma step_detailed_commented (st : current_pos * list position) (a b : string) :
  step_detailed st (a ++ String ";" b)%string = step_detailed st a.
Proof.
  destruct (clean_comment_blanks a b) as [ws [Hws [Hclean Hempty]]].
  unfold step_detailed. destruct st as [cur ps]. cbv zeta. rewrite Hclean.
  rewrite (eqb_empty_blanks _ ws Hempty), (is_positioning_blanks _ ws Hws),
    (is_extrusion_blanks _ ws Hws), (update_pos_blanks _ ws cur Hws).
  reflexivity.
Qed.

Lemma step_layers_commented (st : current_pos * gmap Qc (list (Q * Q))) (a b : string) :
  step_layers st (a ++ String ";" b)%string = step_layers st a.
Proof.
  destruct (clean_comment_blanks a b) as [ws [Hws [Hclean Hempty]]].
  unfold step_layers. destruct st as [cur layers]. cbv zeta. rewrite Hclean.
  rewrite (eqb_empty_blanks _ ws Hempty), (is_positioning_blanks _ ws Hws),
    (startswith_blanks "G1" _ ws eq_refl Hws), (update_pos_blanks _ ws cur Hws).
  reflexivity.
Qed.

Lemma for_each_pointwise {S A : Type} (f g : S -> A -> result S) (l : list A) :
  (forall st a, f st a = g st a) -> forall st, for_each f st l = for_each g st l.
Proof.
  intros Hfg. induction l as [|a l IH]; intros st; [reflexivity|].
  rewrite !for_each_cons, Hfg. destruct (g st a) as [st'|e]; [exact (IH st') | reflexivity].
Qed.

(** A comment changes nothing: both parsers return on lines that end in
    [;] and any text what they return on the same lines without it,
    whatever blanks stand before the [;]. *)
Theorem comments_are_ignored (lines : list (string * string)) :
  parse_gcode_detailed (map (fun l : string * string => (l.1 ++ String ";" l.2)%string) lines)
  = parse_gcode_detailed (map fst lines)
  /\ parse_gcode (map (fun l : string * string => (l.1 ++ String ";" l.2)%string) lines)
     = parse_gcode (map fst lines).
Proof.
  unfold parse_gcode_detailed, parse_gcode. rewrite !for_each_map.
  rewrite (for_each_pointwise
             (fun st (l : string * string) => step_detailed st (l.1 ++ String ";" l.2)%string)
             (fun st (l : string * string) => step_detailed st l.1))
    by (intros st l; apply step_detailed_commented).
  rewrite (for_each_pointwise
             (fun st (l : string * string) => step_layers st (l.1 ++ String ";" l.2)%string)
             (fun st (l : string * string) => step_layers st l.1))
    by (intros st l; apply step_layers_commented).
  split; reflexivity.
Qed.

End Comments.

(** ** The two parsers on the same file *)

Section TwoParsers.
Import Text Parser Layers Spec.

(** One line: the validator's parser and the visualizer's parser move the
    motion state alike, and what the first records the second records
    too. *)
Lemma steps_agree (cur : current_pos) (ps qs : list position) (raw : string) :
  match step_detailed (cur, ps) raw with
  | Ok (c1, ps') =>
      exists d1 d2, step_recorded (cur, qs) raw = Ok (c1, qs ++ d2)
                    /\ ps' = ps ++ d1 /\ sublist d1 d2
  | Raise e => step_recorded (cur, qs) raw = Raise e
  end.
Proof.
  unfold step_detailed, step_recorded. cbv zeta.
  destruct (String.eqb (clean raw) "").
  { exists [], []. rewrite !app_nil_r. repeat split. constructor. }
  unfold is_extrusion, is_positioning.
  destruct (startswith "G1" (clean raw)) eqn:E1.
  - rewrite orb_true_r, andb_true_l.
    destruct (update_pos (clean raw) cur) as [c1|e]; [|reflexivity].
    unfold mbind, result_bind.
    destruct (contains "E" (clean raw)).
    + exists [snapshot c1], [snapshot c1]. repeat split. reflexivity.
    + exists [], [snapshot c1]. rewrite app_nil_r. repeat split.
      apply sublist_cons. constructor.
  - rewrite orb_false_r, andb_false_l.
    destruct (startswith "G0" (clean raw)).
    + destruct (update_pos (clean raw) cur) as [c1|e]; [|reflexivity].
      unfold mbind, result_bind. exists [], []. rewrite !app_nil_r. repeat split. constructor.
    + unfold mbind, result_bind. exists [], []. rewrite !app_nil_r. repeat split. constructor.
Qed.

Lemma loops_agree (lines : list string) :
  forall (cur : current_pos) (ps qs : list position),
    match for_each step_detailed (cur, ps) lines with
    | Ok (c1, ps') =>
        exists d1 d2, for_each step_recorded (cur, qs) lines = Ok (c1, qs ++ d2)
                      /\ ps' = ps ++ d1 /\ sublist d1 d2
    | Raise e => for_each step_recorded (cur, qs) lines = Raise e
    end.
Proof.
  induction lines as [|raw lines IH]; intros cur ps qs.
  - exists [], []. rewrite !app_nil_r. repeat split. constructor.
  - rewrite !for_each_cons.
    pose proof (steps_agree cur ps qs raw) as Hstep.
    destruct (step_detailed (cur, ps) raw) as [[c1 ps1]|e];
      [|rewrite Hstep; reflexivity].
    destruct Hstep as [d1 [d2 [Hrec [-> Hsub]]]]. rewrite Hrec.
    unfold mbind, result_bind.
    specialize (IH c1 (ps ++ d1) (qs ++ d2)).
    destruct (for_each step_detailed (c1, ps ++ d1) lines) as [[c2 ps2]|e]; [|exact IH].
    destruct IH as [e1 [e2 [Hrun [-> Hsub2]]]].
    exists (d1 ++ e1), (d2 ++ e2). rewrite Hrun, !app_assoc.
    repeat split. apply sublist_app; assumption.
Qed.

Lemma layer_of_sublist (k : Qc) (ps qs : list position) :
  sublist ps qs -> sublist (layer_of k ps) (layer_of k qs).
Proof.
  unfold layer_of. induction 1 as [|p ps qs _ IH|p ps qs _ IH]; [constructor| |].
  - cbn [List.filter]. destruct (bool_decide _); [apply sublist_skip|]; exact IH.
  - cbn [List.filter]. destruct (bool_decide _); [apply sublist_cons|]; exact IH.
Qed.

(** Every extrusion point the validator reads is a point the visualizer
    plots: when [parse_gcode_detailed] returns, [parse_gcode] returns too,
    and in each layer the validator's positions whose Z rounds to the
    layer's key appear, in their order, among the layer's points; when one
    parser raises, the other raises the same exception. *)
Theorem extrusion_points_are_plotted (lines : list string) :
  match parse_gcode_detailed lines with
  | Ok ps =>
      exists layers,
        parse_gcode lines = Ok layers
        /\ (forall k, sublist (layer_of k ps) (bucket layers k))
        /\ (forall p, In p ps -> In (p.1.1, p.1.2) (bucket layers (round1 p.2)))
  | Raise e => parse_gcode lines = Raise e
  end.
Proof.
  pose proof (loops_agree lines initial_pos [] []) as Hloops.
  pose proof (parse_gcode_groups lines) as Hgroups.
  unfold parse_gcode_detailed, recorded_positions in *.
  destruct (for_each step_detailed (initial_pos, []) lines) as [[c1 ps]|e].
  - destruct Hloops as [d1 [d2 [Hrec [-> Hsub]]]].
    rewrite Hrec in Hgroups. cbn in Hgroups |- *.
    exists (group_by_layer d2). split; [exact Hgroups|].
    assert (Hlayers : forall k, sublist (layer_of k d1) (bucket (group_by_layer d2) k)).
    { intros k. rewrite bucket_group. apply layer_of_sublist. exact Hsub. }
    split; [exact Hlayers|].
    intros p Hp. apply list_elem_of_In. eapply elem_of_sublist; [|exact (Hlayers _)].
    apply list_elem_of_In. unfold layer_of.
    apply in_map_iff. exists p. split; [reflexivity|].
    apply filter_In. split; [exact Hp|]. apply bool_decide_eq_true. reflexivity.
  - rewrite Hloops in Hgroups. exact Hgroups.
Qed.

End TwoParsers.

Section LayerGridSize.
Import Raster.


End LayerGridSize.
